(** * zwiftpower: event normalisation and windowed aggregation

    A shallow embedding of [zp/zp.go]: the custom timestamp decoder
    [EventDateType.UnmarshalJSON], the aggregation loop of [ImportRider]
    and the presentation helper [Rider.MonthsAgo], together with the parts
    of Go's [time], [strconv] and [strings] packages they call; then the
    functions that fetch the documents, [getJSON], [ImportZP] and the
    whole of [ImportRider], over a network that is an input, and the row
    [Rider.Strings] writes.

    Numbers are modelled as the code has them: [int] and [int64] as [Z]
    with the wrap-around written out, [float64] as IEEE-754 binary64
    through the standard library's [spec_float]. *)

From Stdlib Require Import ZArith List String Ascii Bool Lia Permutation.
From Stdlib Require Import DecimalString DecimalPos.
From Stdlib Require Import QArith Qround Qpower Lqa.
From Stdlib Require Import Floats.SpecFloat.
Import ListNotations.

Set Warnings "-register-all".

Open Scope string_scope.
Open Scope list_scope.
Open Scope Z_scope.

(** ** Machine integers *)

Module Int64.

Definition min : Z := - 2 ^ 63.
Definition max : Z := 2 ^ 63 - 1.

(** Two's complement wrap-around of a 64-bit signed integer. *)
Definition wrap (z : Z) : Z := (z + 2 ^ 63) mod 2 ^ 64 - 2 ^ 63.

Definition in_range (z : Z) : bool := (min <=? z) && (z <=? max).

(** Saturation, used by [time.Time.Sub]. *)
Definition saturate (z : Z) : Z :=
  if z <? min then min else if max <? z then max else z.

(** The statement [x++] on an [int]. *)
Definition incr (x : Z) : Z := wrap (x + 1).

End Int64.

(** ** float64 *)

Definition float64 := spec_float.

Module F64.

Definition prec : Z := 53.
Definition emax : Z := 1024.

Definition add : float64 -> float64 -> float64 := SFadd prec emax.
Definition div : float64 -> float64 -> float64 := SFdiv prec emax.

(** The conversion [float64(n)] of an integer, rounding to nearest even. *)
Definition of_int (n : Z) : float64 := binary_normalize prec emax n 0 false.

(** The zero value of a [float64] variable. *)
Definition zero : float64 := S754_zero false.

(** Go's [x > y]: false as soon as one side is a NaN. *)
Definition gt (x y : float64) : bool := SFltb y x.

Definition is_nan (x : float64) : bool :=
  match x with S754_nan => true | _ => false end.

(** The conversion [int(f)]: the fraction is discarded.  A value that does
    not fit (NaN, infinities, magnitude of 2^63 or more) converts to the
    "integer indefinite" value of amd64, the smallest [int64]. *)
Definition to_int (f : float64) : Z :=
  match f with
  | S754_zero _ => 0
  | S754_finite s m e =>
      let a := match e with
               | Zneg p => Z.shiftr (Zpos m) (Zpos p)
               | _ => Z.shiftl (Zpos m) e
               end in
      let v := cond_Zopp s a in
      if Int64.in_range v then v else Int64.min
  | _ => Int64.min
  end.

End F64.

(** ** Package time *)

(** A wall-clock instant as [time.Time] stores it: seconds since
    January 1, year 1 (UTC) and nanoseconds within the second.  The zero
    value of the type is that very instant.  Readings of the monotonic
    clock play no part: an instant built by [time.Unix] carries none, so
    every comparison below falls back to the wall clock. *)
Record Time := mkTime { sec : Z; nsec : Z }.

Definition Duration := Z.

Definition zeroTime : Time := mkTime 0 0.

Definition unixToInternal : Z := 62135596800.

(** [time.Unix(sec, 0)]; the addition is an [int64] addition. *)
Definition time_Unix (s : Z) : Time :=
  mkTime (Int64.wrap (s + unixToInternal)) 0.

Definition IsZero (t : Time) : bool := (sec t =? 0) && (nsec t =? 0).

Definition After (t u : Time) : bool :=
  (sec u <? sec t) || ((sec t =? sec u) && (nsec u <? nsec t)).

Definition Nanosecond : Duration := 1.
Definition Second : Duration := 1000000000.
Definition Hour : Duration := 3600 * Second.

(** [t.Sub(u)]: the difference in nanoseconds, or the largest (smallest)
    [Duration] when the difference does not fit. *)
Definition Sub (t u : Time) : Duration :=
  Int64.saturate ((sec t - sec u) * Second + (nsec t - nsec u)).

(** [d.Hours()]:
<<
    hour := d / Hour
    nsec := d % Hour
    return float64(hour) + float64(nsec)/(60*60*1e9)
>>
    Integer division truncates toward zero and the remainder has the sign
    of the dividend. *)
Definition Hours (d : Duration) : float64 :=
  let hour := Z.quot d Hour in
  let nsec := Z.rem d Hour in
  F64.add (F64.of_int hour)
          (F64.div (F64.of_int nsec) (F64.of_int 3600000000000)).

(** ** Package strings *)

Fixpoint Contains (s substr : string) {struct s} : bool :=
  if String.prefix substr s then true
  else match s with
       | EmptyString => false
       | String _ s' => Contains s' substr
       end.

(** ** Control flow that leaves the function *)

(** A call either returns, panics (a failed type assertion, an index out
    of range) or ends the process ([log.Fatal] calls [os.Exit(1)]). *)
Inductive outcome (A : Type) : Type :=
| Returns (a : A)
| Panics (msg : string)
| Exits (code : Z).

Arguments Returns {A} a.
Arguments Panics {A} msg.
Arguments Exits {A} code.

Definition bind {A B : Type} (m : outcome A) (k : A -> outcome B) : outcome B :=
  match m with
  | Returns a => k a
  | Panics msg => Panics msg
  | Exits c => Exits c
  end.

Notation "x <- m ;; k" := (bind m (fun x => k))
  (at level 61, m at next level, right associativity).

Definition error := string.

(** ** Decoded JSON values *)

(** What [encoding/json] stores in an [interface{}]: nil, bool, float64,
    string, [[]interface{}] or [map[string]interface{}]. *)
Inductive iface : Type :=
| inil
| ibool (b : bool)
| ifloat64 (f : float64)
| istring (s : string)
| islice (l : list iface)
| imap (l : list (string * iface)).

(** The text of one JSON value, as the decoder hands it to a custom
    [UnmarshalJSON].  A number keeps its literal. *)
Inductive json : Type :=
| JNull
| JBool (b : bool)
| JNumber (lit : string)
| JString (s : string)
| JArray (l : list json)
| JObject (l : list (string * json)).

(** The name of the dynamic type of a value, as a failed type assertion
    prints it. *)
Definition type_name (v : iface) : string :=
  match v with
  | inil => "nil"
  | ibool _ => "bool"
  | ifloat64 _ => "float64"
  | istring _ => "string"
  | islice _ => "[]interface {}"
  | imap _ => "map[string]interface {}"
  end.

Definition conversion_panic (v : iface) (wanted : string) : string :=
  "interface conversion: interface {} is " ++ type_name v ++ ", not " ++ wanted.

(** The type assertion [v.([]interface{})]. *)
Definition assert_slice (v : iface) : outcome (list iface) :=
  match v with
  | islice l => Returns l
  | _ => Panics (conversion_panic v "[]interface {}")
  end.

(** The type assertion [v.(string)]. *)
Definition assert_string (v : iface) : outcome string :=
  match v with
  | istring s => Returns s
  | _ => Panics (conversion_panic v "string")
  end.

(** The two-result form [f, ok := v.(float64)]; the zero value on failure. *)
Definition assert_float64_ok (v : iface) : float64 * bool :=
  match v with
  | ifloat64 f => (f, true)
  | _ => (F64.zero, false)
  end.

(** The index expression [l[0]]. *)
Definition index0 (l : list iface) : outcome iface :=
  match l with
  | x :: _ => Returns x
  | [] => Panics "runtime error: index out of range [0] with length 0"
  end.

(** ** Package strconv: ParseInt(s, 10, 64) *)

Definition digit_of (c : ascii) : option Z :=
  let n := Z.of_nat (nat_of_ascii c) in
  if (48 <=? n) && (n <=? 57) then Some (n - 48) else None.

Fixpoint parse_digits (acc : Z) (s : string) : option Z :=
  match s with
  | EmptyString => Some acc
  | String c s' =>
      match digit_of c with
      | Some d => parse_digits (10 * acc + d) s'
      | None => None
      end
  end.

(** The unsigned magnitude of a non-empty all-digit string. *)
Definition parse_magnitude (s : string) : option Z :=
  match s with
  | EmptyString => None
  | _ => parse_digits 0 s
  end.

Definition ParseInt (s : string) : Z * option error :=
  match s with
  | EmptyString => (0, Some "invalid syntax")
  | String c rest =>
      let '(neg, body) :=
        if Ascii.eqb c "+" then (false, rest)
        else if Ascii.eqb c "-" then (true, rest)
        else (false, s) in
      match parse_magnitude body with
      | None => (0, Some "invalid syntax")
      | Some un =>
          if negb neg && (2 ^ 63 <=? un) then (Int64.max, Some "value out of range")
          else if neg && (2 ^ 63 <? un) then (Int64.min, Some "value out of range")
          else (if neg then - un else un, None)
      end
  end.

(** ** The data of package zp *)

Definition EventDateType := Z.

Record Event := mkEvent {
  EventType : string;
  EventDateSecs : EventDateType;
  EventDate : Time;
  EventTitle : string;
  AvgWkg : iface;
  WkgFtp : iface
}.

Record Rider := mkRider {
  Name : string;
  Zwid : Z;
  LatestEventDate : Time;
  Rides : Z;
  Races : Z;
  Races90 : Z;
  Races30 : Z;
  Ftp90 : float64;
  Ftp60 : float64;
  Ftp30 : float64;
  LatestRace : string;
  LatestRaceDate : Time;
  LatestEvent : string;
  LatestRaceAvgWkg : float64;
  LatestRaceWkgFtp : float64
}.

(** The zero value of [Rider]. *)
Definition zeroRider : Rider :=
  mkRider "" 0 zeroTime 0 0 0 0 F64.zero F64.zero F64.zero
          "" zeroTime "" F64.zero F64.zero.

(** ** EventDateType.UnmarshalJSON *)

(** [json.Unmarshal(data, &v)] for [v] of type [int64]: a number literal
    that [strconv.ParseInt] accepts is stored; [null] leaves [v] alone;
    anything else leaves [v] alone and reports an error. *)
Definition json_Unmarshal_int64 (data : json) (v : Z) : Z * option error :=
  match data with
  | JNull => (v, None)
  | JNumber lit =>
      match ParseInt lit with
      | (n, None) => (n, None)
      | (_, Some _) => (v, Some "json: cannot unmarshal number into Go value of type int64")
      end
  | _ => (v, Some "json: cannot unmarshal into Go value of type int64")
  end.

(** The method stores its result in the receiver and returns an error
    value; both are returned here. *)
Definition UnmarshalJSON (data : json) : EventDateType * option error :=
  let v := 0 in
  let '(v, _) := json_Unmarshal_int64 data v in
  (v, None).

(** The field [event_date] of a decoded event: the method runs when the
    key is present, and an error it returned would end the decoding;
    otherwise the field keeps its zero value. *)
Definition decode_event_date (field : option json) : EventDateType * option error :=
  match field with
  | None => (0, None)
  | Some data => UnmarshalJSON data
  end.

(** Field updates of a [Rider]. *)

Definition set_Zwid (r : Rider) (v : Z) : Rider :=
  mkRider (Name r) v (LatestEventDate r) (Rides r) (Races r) (Races90 r)
          (Races30 r) (Ftp90 r) (Ftp60 r) (Ftp30 r) (LatestRace r)
          (LatestRaceDate r) (LatestEvent r) (LatestRaceAvgWkg r)
          (LatestRaceWkgFtp r).

Definition set_LatestEventDate (r : Rider) (v : Time) : Rider :=
  mkRider (Name r) (Zwid r) v (Rides r) (Races r) (Races90 r)
          (Races30 r) (Ftp90 r) (Ftp60 r) (Ftp30 r) (LatestRace r)
          (LatestRaceDate r) (LatestEvent r) (LatestRaceAvgWkg r)
          (LatestRaceWkgFtp r).

Definition set_Rides (r : Rider) (v : Z) : Rider :=
  mkRider (Name r) (Zwid r) (LatestEventDate r) v (Races r) (Races90 r)
          (Races30 r) (Ftp90 r) (Ftp60 r) (Ftp30 r) (LatestRace r)
          (LatestRaceDate r) (LatestEvent r) (LatestRaceAvgWkg r)
          (LatestRaceWkgFtp r).

Definition set_Races (r : Rider) (v : Z) : Rider :=
  mkRider (Name r) (Zwid r) (LatestEventDate r) (Rides r) v (Races90 r)
          (Races30 r) (Ftp90 r) (Ftp60 r) (Ftp30 r) (LatestRace r)
          (LatestRaceDate r) (LatestEvent r) (LatestRaceAvgWkg r)
          (LatestRaceWkgFtp r).

Definition set_Races90 (r : Rider) (v : Z) : Rider :=
  mkRider (Name r) (Zwid r) (LatestEventDate r) (Rides r) (Races r) v
          (Races30 r) (Ftp90 r) (Ftp60 r) (Ftp30 r) (LatestRace r)
          (LatestRaceDate r) (LatestEvent r) (LatestRaceAvgWkg r)
          (LatestRaceWkgFtp r).

Definition set_Races30 (r : Rider) (v : Z) : Rider :=
  mkRider (Name r) (Zwid r) (LatestEventDate r) (Rides r) (Races r) (Races90 r)
          v (Ftp90 r) (Ftp60 r) (Ftp30 r) (LatestRace r)
          (LatestRaceDate r) (LatestEvent r) (LatestRaceAvgWkg r)
          (LatestRaceWkgFtp r).

Definition set_Ftp90 (r : Rider) (v : float64) : Rider :=
  mkRider (Name r) (Zwid r) (LatestEventDate r) (Rides r) (Races r) (Races90 r)
          (Races30 r) v (Ftp60 r) (Ftp30 r) (LatestRace r)
          (LatestRaceDate r) (LatestEvent r) (LatestRaceAvgWkg r)
          (LatestRaceWkgFtp r).

Definition set_Ftp60 (r : Rider) (v : float64) : Rider :=
  mkRider (Name r) (Zwid r) (LatestEventDate r) (Rides r) (Races r) (Races90 r)
          (Races30 r) (Ftp90 r) v (Ftp30 r) (LatestRace r)
          (LatestRaceDate r) (LatestEvent r) (LatestRaceAvgWkg r)
          (LatestRaceWkgFtp r).

Definition set_Ftp30 (r : Rider) (v : float64) : Rider :=
  mkRider (Name r) (Zwid r) (LatestEventDate r) (Rides r) (Races r) (Races90 r)
          (Races30 r) (Ftp90 r) (Ftp60 r) v (LatestRace r)
          (LatestRaceDate r) (LatestEvent r) (LatestRaceAvgWkg r)
          (LatestRaceWkgFtp r).

Definition set_LatestRace (r : Rider) (v : string) : Rider :=
  mkRider (Name r) (Zwid r) (LatestEventDate r) (Rides r) (Races r) (Races90 r)
          (Races30 r) (Ftp90 r) (Ftp60 r) (Ftp30 r) v
          (LatestRaceDate r) (LatestEvent r) (LatestRaceAvgWkg r)
          (LatestRaceWkgFtp r).

Definition set_LatestRaceDate (r : Rider) (v : Time) : Rider :=
  mkRider (Name r) (Zwid r) (LatestEventDate r) (Rides r) (Races r) (Races90 r)
          (Races30 r) (Ftp90 r) (Ftp60 r) (Ftp30 r) (LatestRace r)
          v (LatestEvent r) (LatestRaceAvgWkg r)
          (LatestRaceWkgFtp r).

Definition set_LatestEvent (r : Rider) (v : string) : Rider :=
  mkRider (Name r) (Zwid r) (LatestEventDate r) (Rides r) (Races r) (Races90 r)
          (Races30 r) (Ftp90 r) (Ftp60 r) (Ftp30 r) (LatestRace r)
          (LatestRaceDate r) v (LatestRaceAvgWkg r)
          (LatestRaceWkgFtp r).

Definition set_LatestRaceAvgWkg (r : Rider) (v : float64) : Rider :=
  mkRider (Name r) (Zwid r) (LatestEventDate r) (Rides r) (Races r) (Races90 r)
          (Races30 r) (Ftp90 r) (Ftp60 r) (Ftp30 r) (LatestRace r)
          (LatestRaceDate r) (LatestEvent r) v
          (LatestRaceWkgFtp r).

Definition set_LatestRaceWkgFtp (r : Rider) (v : float64) : Rider :=
  mkRider (Name r) (Zwid r) (LatestEventDate r) (Rides r) (Races r) (Races90 r)
          (Races30 r) (Ftp90 r) (Ftp60 r) (Ftp30 r) (LatestRace r)
          (LatestRaceDate r) (LatestEvent r) (LatestRaceAvgWkg r)
          v.

Definition set_EventDate (e : Event) (v : Time) : Event :=
  mkEvent (EventType e) (EventDateSecs e) v (EventTitle e) (AvgWkg e) (WkgFtp e).

(** ** ImportRider *)

(** The wall clock is an input: [clock i] is what the [i]-th call of
    [time.Now()] returns. *)
Definition Clock := nat -> Time.

(** The variables the loop of [ImportRider] updates. *)
Record locals := mkLocals {
  riderOf : Rider;
  latestEventDate : Time;
  latestRaceDate : Time
}.

(** Line 123: [e.EventDate = time.Unix(int64(e.EventDateSecs), 0)]. *)
Definition dateOf (e : Event) : Time := time_Unix (EventDateSecs e).

(** [int(d.Hours() / 24)] for a duration [d]. *)
Definition Days (d : Duration) : Z :=
  F64.to_int (F64.div (Hours d) (F64.of_int 24)).

(** Line 124: [daysAgo := int(time.Now().Sub(e.EventDate).Hours() / 24)]. *)
Definition daysAgo (now : Time) (date : Time) : Z := Days (Sub now date).

(** Line 126: [isRace := strings.Contains(e.EventType, "RACE")]. *)
Definition isRaceOf (e : Event) : bool := Contains (EventType e) "RACE".

Section Aggregation.

(** [strconv.ParseFloat(s, 64)], a function of the Go library, is a
    parameter: the value and the error it returns for each text. *)
Variable ParseFloat : string -> float64 * option error.

(** Lines 138-145: the ratio to threshold of an event. *)
Definition read_WkgFtp (e : Event) : outcome float64 :=
  eventWkgFtp <- assert_slice (WkgFtp e) ;;
  x <- index0 eventWkgFtp ;;
  let '(wkgFtp, ok) := assert_float64_ok x in
  if negb ok then
    s <- assert_string x ;;
    let '(wkgFtp, err) := ParseFloat s in
    match err with
    | Some _ => Exits 1
    | None => Returns wkgFtp
    end
  else Returns wkgFtp.

(** Lines 147-150: the average ratio of an event. *)
Definition read_AvgWkg (e : Event) : outcome float64 :=
  l <- assert_slice (AvgWkg e) ;;
  x <- index0 l ;;
  s <- assert_string x ;;
  let '(avgWkg, err) := ParseFloat s in
  match err with
  | Some _ => Exits 1
  | None => Returns avgWkg
  end.

(** Lines 128-133. *)
Definition count_year (daysAgo : Z) (isRace : bool) (rider : Rider) : Rider :=
  if daysAgo <=? 365 then
    let rider := set_Rides rider (Int64.incr (Rides rider)) in
    if isRace then set_Races rider (Int64.incr (Races rider)) else rider
  else rider.

(** Lines 153-161. *)
Definition window90 (daysAgo : Z) (isRace : bool) (wkgFtp : float64)
  (rider : Rider) : Rider :=
  if daysAgo <=? 90 then
    let rider := if F64.gt wkgFtp (Ftp90 rider)
                 then set_Ftp90 rider wkgFtp else rider in
    if isRace then set_Races90 rider (Int64.incr (Races90 rider)) else rider
  else rider.

(** Lines 164-168. *)
Definition window60 (daysAgo : Z) (wkgFtp : float64) (rider : Rider) : Rider :=
  if daysAgo <=? 60 then
    if F64.gt wkgFtp (Ftp60 rider) then set_Ftp60 rider wkgFtp else rider
  else rider.

(** Lines 171-179. *)
Definition window30 (daysAgo : Z) (isRace : bool) (wkgFtp : float64)
  (rider : Rider) : Rider :=
  if daysAgo <=? 30 then
    let rider := if isRace
                 then set_Races30 rider (Int64.incr (Races30 rider))
                 else rider in
    if F64.gt wkgFtp (Ftp30 rider) then set_Ftp30 rider wkgFtp else rider
  else rider.

(** Lines 181-184, for an event of date [date] and title [title]. *)
Definition latest_event (date : Time) (title : string) (st : locals) : locals :=
  if After date (latestEventDate st) then
    mkLocals (set_LatestEvent (riderOf st) title) date (latestRaceDate st)
  else st.

(** Lines 186-191. *)
Definition latest_race (date : Time) (title : string) (isRace : bool)
  (avgWkg wkgFtp : float64) (st : locals) : locals :=
  if isRace && After date (latestRaceDate st) then
    mkLocals (set_LatestRaceWkgFtp
                (set_LatestRaceAvgWkg
                   (set_LatestRace (riderOf st) title) avgWkg) wkgFtp)
             (latestEventDate st) date
  else st.

(** One iteration of the loop (lines 122-192), [now] being what
    [time.Now()] returns in it. *)
Definition loop_body (now : Time) (st : locals) (e : Event) : outcome locals :=
  let e := set_EventDate e (time_Unix (EventDateSecs e)) in
  let daysAgo := daysAgo now (EventDate e) in
  let isRace := Contains (EventType e) "RACE" in
  let rider := count_year daysAgo isRace (riderOf st) in
  wkgFtp <- read_WkgFtp e ;;
  avgWkg <- read_AvgWkg e ;;
  let rider := window90 daysAgo isRace wkgFtp rider in
  let rider := window60 daysAgo wkgFtp rider in
  let rider := window30 daysAgo isRace wkgFtp rider in
  let st := mkLocals rider (latestEventDate st) (latestRaceDate st) in
  let st := latest_event (EventDate e) (EventTitle e) st in
  let st := latest_race (EventDate e) (EventTitle e) isRace avgWkg wkgFtp st in
  Returns st.

(** [for _, e := range r.Data], the [i]-th iteration reading [clock i]. *)
Fixpoint range_loop (clock : Clock) (i : nat) (data : list Event)
  (st : locals) : outcome locals :=
  match data with
  | [] => Returns st
  | e :: data' =>
      st' <- loop_body (clock i) st e ;;
      range_loop clock (S i) data' st'
  end.

(** [ImportRider] from line 114 on: [r_Data] is the decoded event list
    of the rider.  Fetching and decoding the document come before and are
    left to the caller; log lines are not recorded. *)
Definition ImportRider (clock : Clock) (riderID : Z) (r_Data : list Event)
  : outcome (Rider * option error) :=
  let rider := set_Zwid zeroRider riderID in
  if Z.of_nat (List.length r_Data) <? 1 then Returns (rider, None)
  else
    st <- range_loop clock 0 r_Data (mkLocals rider zeroTime zeroTime) ;;
    let rider := set_LatestEventDate (riderOf st) (latestEventDate st) in
    let rider := set_LatestRaceDate rider (latestRaceDate st) in
    Returns (rider, None).

End Aggregation.

(** ** Rider.MonthsAgo *)

Section Presentation.

(** [t.Month()], the month of [t] in the local calendar, is a parameter. *)
Variable Month : Time -> Z.

Definition Itoa (n : Z) : string := NilZero.string_of_int (Z.to_int n).

Definition MonthsAgo (clock : Clock) (r : Rider) : string :=
  if IsZero (LatestEventDate r) then "No latest event"
  else if Hour * 24 * 365 <? Sub (clock 0%nat) (LatestEventDate r)
  then "Over a year ago"
  else
    let monthDiff := Month (clock 1%nat) - Month (LatestEventDate r) in
    let monthDiff := if monthDiff <? 0 then monthDiff + 12 else monthDiff in
    match monthDiff with
    | 0 => "This month"
    | 1 => "Last month"
    | _ => (Itoa monthDiff ++ " months ago")%string
    end.

End Presentation.

(** ** The loop as a fold *)

(** What one iteration needs of an event once both ratios are converted. *)
Record item := mkItem {
  it_days : Z;
  it_race : bool;
  it_date : Time;
  it_title : string;
  it_wkgFtp : float64;
  it_avgWkg : float64
}.

(** The statements of one iteration, the conversions apart. *)
Definition accumulate (st : locals) (it : item) : locals :=
  let rider := count_year (it_days it) (it_race it) (riderOf st) in
  let rider := window90 (it_days it) (it_race it) (it_wkgFtp it) rider in
  let rider := window60 (it_days it) (it_wkgFtp it) rider in
  let rider := window30 (it_days it) (it_race it) (it_wkgFtp it) rider in
  let st := mkLocals rider (latestEventDate st) (latestRaceDate st) in
  let st := latest_event (it_date it) (it_title it) st in
  latest_race (it_date it) (it_title it) (it_race it)
              (it_avgWkg it) (it_wkgFtp it) st.

Section Conversion.

Variable ParseFloat : string -> float64 * option error.

Definition convert (now : Time) (e : Event) : outcome item :=
  wkgFtp <- read_WkgFtp ParseFloat e ;;
  avgWkg <- read_AvgWkg ParseFloat e ;;
  Returns (mkItem (daysAgo now (dateOf e)) (isRaceOf e) (dateOf e)
                  (EventTitle e) wkgFtp avgWkg).

Fixpoint convert_all (clock : Clock) (i : nat) (data : list Event)
  : outcome (list item) :=
  match data with
  | [] => Returns []
  | e :: data' =>
      it <- convert (clock i) e ;;
      its <- convert_all clock (S i) data' ;;
      Returns (it :: its)
  end.

(** A ratio field the conversions cannot read: the list is missing or
    empty, or its first element is neither a number nor a text that
    [ParseFloat] accepts. *)
Definition malformed_ratio (v : iface) : bool :=
  match v with
  | islice (ifloat64 _ :: _) => false
  | islice (istring s :: _) =>
      match snd (ParseFloat s) with
      | Some _ => true
      | None => false
      end
  | _ => true
  end.

(** A ratio field whose first element is a text that [ParseFloat]
    accepts. *)
Definition text_ratio (v : iface) : bool :=
  match v with
  | islice (istring s :: _) =>
      match snd (ParseFloat s) with
      | Some _ => false
      | None => true
      end
  | _ => false
  end.

End Conversion.

(** The conditional assignment [if x > v { v = x }]. *)
Definition fmax (v x : float64) : float64 := if F64.gt x v then x else v.

(** The conditional assignment [if d.After(cur) { cur = d }]. *)
Definition later (cur d : Time) : Time := if After d cur then d else cur.

(** The conditional increment of a counter. *)
Definition bump (c : bool) (n : Z) : Z := if c then Int64.incr n else n.

(** The state of the loop before its first iteration, and the snapshot
    the function returns from the state after the last. *)
Definition initial (riderID : Z) : locals :=
  mkLocals (set_Zwid zeroRider riderID) zeroTime zeroTime.

Definition snapshot (st : locals) : Rider :=
  set_LatestRaceDate (set_LatestEventDate (riderOf st) (latestEventDate st))
                     (latestRaceDate st).

(** ** The order of float64 values *)

(** A key whose lexicographic order is the order of the values that are
    not NaN; the two zeros share a key. *)
Definition fkey (x : float64) : Z * Z * Z :=
  match x with
  | S754_zero _ => (0, 0, 0)
  | S754_infinity false => (2, 0, 0)
  | S754_infinity true => (-2, 0, 0)
  | S754_nan => (0, 0, 0)
  | S754_finite false m e => (1, e, Zpos m)
  | S754_finite true m e => (-1, - e, Zneg m)
  end.

Definition lex_lt (a b : Z * Z * Z) : Prop :=
  let '(a1, a2, a3) := a in
  let '(b1, b2, b3) := b in
  a1 < b1 \/ (a1 = b1 /\ (a2 < b2 \/ (a2 = b2 /\ a3 < b3))).

(** An accumulated maximum is the zero it started from or a value above. *)
Definition ftp_ok (v : float64) : Prop :=
  v = F64.zero \/ F64.gt v F64.zero = true.

(** ** The words of the specification *)

Definition Day : Duration := 24 * Hour.

(** The exact time from [date] to [now], in nanoseconds. *)
Definition age (now date : Time) : Z :=
  (sec now - sec date) * Second + (nsec now - nsec date).

(** "The integer number of whole 24-hour periods between now and the
    event's date, using truncation toward zero". *)
Definition spec_daysAgo (now date : Time) : Z := Z.quot (age now date) Day.

(** ** Values for the examples *)

(** One value of the parameter [ParseFloat]: on a plain decimal literal
    [-ddd.ddd] of at most fifteen digits it returns what
    [strconv.ParseFloat] returns (such a literal is converted by one
    division of two integers that [float64] holds exactly); any other
    text is reported as an error. *)
Fixpoint split_dot (s : string) : string * option string :=
  match s with
  | EmptyString => (EmptyString, None)
  | String c s' =>
      if Ascii.eqb c "." then (EmptyString, Some s')
      else let '(a, b) := split_dot s' in (String c a, b)
  end.

Definition decimalParseFloat (s : string) : float64 * option error :=
  let '(neg, body) :=
    match s with
    | String c rest =>
        if Ascii.eqb c "-" then (true, rest)
        else if Ascii.eqb c "+" then (false, rest)
        else (false, s)
    | EmptyString => (false, s)
    end in
  let '(ip, fp) := split_dot body in
  let fp := match fp with Some f => f | None => EmptyString end in
  let ndigits := Z.of_nat (String.length ip + String.length fp) in
  match parse_digits 0 (ip ++ fp) with
  | Some mant =>
      if (1 <=? ndigits) && (ndigits <=? 15) then
        let scale := 10 ^ Z.of_nat (String.length fp) in
        if mant =? 0 then (S754_zero neg, None)
        else (F64.div (F64.of_int (if neg then - mant else mant))
                      (F64.of_int scale), None)
      else (F64.zero, Some "invalid syntax")
  | None => (F64.zero, Some "invalid syntax")
  end.

Definition f3_25 : float64 :=
  Eval vm_compute in F64.div (F64.of_int 325) (F64.of_int 100).
Definition f1_05 : float64 :=
  Eval vm_compute in F64.div (F64.of_int 105) (F64.of_int 100).
Definition f1_10 : float64 :=
  Eval vm_compute in F64.div (F64.of_int 110) (F64.of_int 100).
Definition f2_0 : float64 :=
  Eval vm_compute in F64.of_int 2.

(** An instant of 2026 and a clock that stands still at it. *)
Definition sampleNow : Time := mkTime (unixToInternal + 1793000000) 0.
Definition frozen (now : Time) : Clock := fun _ => now.

Definition daysBefore (now : Time) (n : Z) : EventDateType :=
  sec now - unixToInternal - n * 86400.

(** The three events of the specification's scenario. *)
Definition E1 : Event :=
  mkEvent "TYPE_RACE" (daysBefore sampleNow 40) zeroTime "E1"
          (islice [istring "3.1"; ifloat64 F64.zero])
          (islice [ifloat64 f1_10; ifloat64 F64.zero]).
Definition E2 : Event :=
  mkEvent "TYPE_RACE" (daysBefore sampleNow 10) zeroTime "E2"
          (islice [istring "3.25"; ifloat64 F64.zero])
          (islice [istring "1.05"; ifloat64 F64.zero]).
Definition E3 : Event :=
  mkEvent "TYPE_RIDE" (daysBefore sampleNow 400) zeroTime "E3"
          (islice [istring "2.0"; ifloat64 F64.zero])
          (islice [ifloat64 f2_0; ifloat64 F64.zero]).

(** [E2] with its average ratio sent as a number, and an event whose
    ratio to threshold is a text that is not a number. *)
Definition E2num : Event :=
  mkEvent "TYPE_RACE" (daysBefore sampleNow 10) zeroTime "E2"
          (islice [ifloat64 f3_25; ifloat64 F64.zero])
          (islice [istring "1.05"; ifloat64 F64.zero]).
Definition Ebad : Event :=
  mkEvent "TYPE_RACE" (daysBefore sampleNow 10) zeroTime "bad"
          (islice [istring "3.25"; ifloat64 F64.zero])
          (islice [istring "n/a"; ifloat64 F64.zero]).

(** A second race at the very date of [E2], later in the list. *)
Definition E2bis : Event :=
  mkEvent "TYPE_RACE" (daysBefore sampleNow 10) zeroTime "E2bis"
          (islice [istring "3.0"; ifloat64 F64.zero])
          (islice [istring "1.0"; ifloat64 F64.zero]).


(** The Unix epoch, an event whose timestamp is unknown, and the instant
    365 days and 12 hours after the epoch. *)
Definition epoch : Time := time_Unix 0.
Definition Eepoch : Event :=
  mkEvent "TYPE_RACE" 0 zeroTime "undated"
          (islice [istring "2.0"; ifloat64 F64.zero])
          (islice [ifloat64 f2_0; ifloat64 F64.zero]).
Definition halfNow : Time := mkTime (unixToInternal + 365 * 86400 + 43200) 0.

(** An outcome other than a return. *)
Definition fails {A : Type} (o : outcome A) : Prop :=
  (exists msg, o = Panics msg) \/ o = Exits 1.

(** [v] is the largest ratio to threshold among the events of the
    [N]-day window, or the zero a maximum starts from when no ratio of the
    window is above zero: no ratio of the window is greater than [v], and
    [v] is that zero or the ratio of an event of the window.  The [i]-th
    event is aged against the clock reading of the [i]-th iteration. *)
Definition is_window_max (ParseFloat : string -> float64 * option error)
  (clock : Clock) (data : list Event) (N : Z) (v : float64) : Prop :=
  (forall i e x,
      nth_error data i = Some e ->
      daysAgo (clock i) (dateOf e) <= N ->
      read_WkgFtp ParseFloat e = Returns x ->
      F64.gt x v = false) /\
  (v = F64.zero \/
   exists i e,
     nth_error data i = Some e /\
     daysAgo (clock i) (dateOf e) <= N /\
     read_WkgFtp ParseFloat e = Returns v /\
     F64.gt v F64.zero = true) /\
  ((forall i e x,
       nth_error data i = Some e ->
       daysAgo (clock i) (dateOf e) <= N ->
       read_WkgFtp ParseFloat e = Returns x ->
       F64.gt x F64.zero = false) ->
   v = F64.zero).



(** The step of a "latest" pointer with its payload. *)
Definition latest_step {X : Type} (p : item -> bool) (pay : item -> X)
  (cur : Time * X) (it : item) : Time * X :=
  if p it && After (it_date it) (fst cur) then (it_date it, pay it) else cur.

(** ** The values of float64 as rationals *)

(** The power of two [2^e] and the dyadic number [m * 2^e]. *)
Definition bpow (e : Z) : Q := ((2 # 1) ^ e)%Q.
Definition dy (m e : Z) : Q := (inject_Z m * bpow e)%Q.

(** The exponent of the float64 values of magnitude [e]: [fexp] at
    precision 53 with the smallest exponent -1074. *)
Definition fexp64 (e : Z) : Z := Z.max (e - 53) (-1074).

(** The shift a rounding applies to the mantissa [m] at exponent [e],
    the mantissa it leaves and the exponent it reaches. *)
Definition trunc_n (m e : Z) : Z := Z.max (fexp64 (Zdigits2 m + e) - e) 0.
Definition trunc_m (m e : Z) : Z := m / 2 ^ trunc_n m e.
Definition trunc_e (m e : Z) : Z := e + trunc_n m e.

(** A bound on the magnitude and the exponent of [m * 2^e]. *)
Definition magb (m e : Z) : Z := Z.max (Zdigits2 m + e) (Z.max e (-1074)).

(** The record [mrs] holds the integer part of [t], and flags [t] as
    inexact whenever it is not that integer. *)
Definition located (mrs : shr_record) (t : Q) : Prop :=
  (inject_Z (shr_m mrs) <= t)%Q /\ (t < inject_Z (shr_m mrs + 1))%Q /\
  ((t == inject_Z (shr_m mrs))%Q -> shr_r mrs = false /\ shr_s mrs = false).

(** Zero, or a positive finite value that is at most the integer [B]. *)
Definition below (x : float64) (B : Z) : Prop :=
  match x with
  | S754_zero false => True
  | S754_finite false m e => (dy (Zpos m) e <= inject_Z B)%Q
  | _ => False
  end.

(** Zero, or below zero. *)
Definition nonpos (x : float64) : Prop :=
  match x with
  | S754_zero _ => True
  | S754_finite true _ _ => True
  | S754_infinity true => True
  | _ => False
  end.

(** [P] holds of every natural number below [n]. *)
Fixpoint all_below (P : Z -> bool) (n : nat) : bool :=
  match n with
  | O => true
  | S n' => P (Z.of_nat n') && all_below P n'
  end.

(** ** The events of a window *)

(** The test [daysAgo <= N] of an event, read at [now]. *)
Definition in_window (N : Z) (now : Time) (e : Event) : bool :=
  daysAgo now (dateOf e) <=? N.

(** The number of events that [p] selects, the [i]-th event being tested
    at the clock reading of the [i]-th iteration. *)
Fixpoint count_events (p : Time -> Event -> bool) (clock : Clock) (i : nat)
  (data : list Event) : Z :=
  match data with
  | [] => 0
  | e :: data' =>
      (if p (clock i) e then 1 else 0) + count_events p clock (S i) data'
  end.

(** ** Two snapshots made one *)

(** The snapshot of two event lists put end to end, from the snapshot of
    the first list and that of the second: counters add up, a maximum is
    the greater of the two, and a "latest" pointer is that of the second
    list only when its date is strictly after that of the first. *)
Definition merge (a b : Rider) : Rider :=
  let ev := After (LatestEventDate b) (LatestEventDate a) in
  let ra := After (LatestRaceDate b) (LatestRaceDate a) in
  mkRider (Name a) (Zwid a)
          (if ev then LatestEventDate b else LatestEventDate a)
          (Rides a + Rides b) (Races a + Races b)
          (Races90 a + Races90 b) (Races30 a + Races30 b)
          (fmax (Ftp90 a) (Ftp90 b)) (fmax (Ftp60 a) (Ftp60 b))
          (fmax (Ftp30 a) (Ftp30 b))
          (if ra then LatestRace b else LatestRace a)
          (if ra then LatestRaceDate b else LatestRaceDate a)
          (if ev then LatestEvent b else LatestEvent a)
          (if ra then LatestRaceAvgWkg b else LatestRaceAvgWkg a)
          (if ra then LatestRaceWkgFtp b else LatestRaceWkgFtp a).

(** A reading of the wall clock at or after the Unix epoch, with its
    nanoseconds within the second. *)
Definition since_epoch (t : Time) : bool :=
  (unixToInternal <=? sec t) && (0 <=? nsec t) && (nsec t <? Second).

(** The fourteen texts of [MonthsAgo]. *)
Definition MonthsAgo_texts : list string :=
  ["No latest event"; "Over a year ago"; "This month"; "Last month";
   "2 months ago"; "3 months ago"; "4 months ago"; "5 months ago";
   "6 months ago"; "7 months ago"; "8 months ago"; "9 months ago";
   "10 months ago"; "11 months ago"].

(** [y] is the opposite of [x], a value that is zero or above; the two
    zeros are one. *)
Definition mirror (x y : float64) : Prop :=
  match x, y with
  | S754_zero _, S754_zero _ => True
  | S754_infinity false, S754_infinity true => True
  | S754_finite false mx ex, S754_finite true my ey => my = mx /\ ey = ex
  | _, _ => False
  end.

(** ** Package net/http, as package zp uses it *)

(** A response: its status code, and what [ioutil.ReadAll] returns when
    it reads the body. *)
Record Response := mkResponse {
  StatusCode : Z;
  Body : list Byte.byte * option error
}.

(** What the functions of the package do to the connection, in order: a
    request [client.Get(url)], and [resp.Body.Close()] on the response to
    a request. *)
Inductive action : Type :=
| Requested (url : string)
| Closed (url : string).

Definition requests (t : list action) : list string :=
  flat_map (fun a => match a with Requested u => [u] | Closed _ => [] end) t.

(** The client, its cookie jar, the network and the server are an input:
    what [client.Get(url)] returns, a response or an error, after the
    requests made so far. *)
Definition Network := list string -> string -> Response + error.

(** The addresses the package asks for; [%d] writes an [int] as
    [strconv.Itoa] does. *)
Definition teamURL (clubID : Z) : string :=
  ("https://www.zwiftpower.com/cache3/teams/" ++ Itoa clubID
   ++ "_riders.json")%string.
Definition profileURL (riderID : Z) : string :=
  ("https://www.zwiftpower.com/profile.php?z=" ++ Itoa riderID)%string.
Definition cacheURL (riderID : Z) : string :=
  ("https://www.zwiftpower.com/cache3/profile/" ++ Itoa riderID
   ++ "_all.json")%string.

Module Http.

Section Client.

Variable net : Network.

(** [json.Unmarshal(data, &c)] for a [club] and for a [riderData]: what is
    stored in the field [Data] and the error returned.  The decoder of the
    Go library is a parameter. *)
Variable Unmarshal_club : list Byte.byte -> list Rider * option error.
Variable Unmarshal_riderData : list Byte.byte -> list Event * option error.

Variable ParseFloat : string -> float64 * option error.

(** [client.Get(url)], on the trace [t] of what was done before. *)
Definition client_Get (url : string) (t : list action)
  : (Response + error) * list action :=
  (net (requests t) url, t ++ [Requested url]).

(** Lines 199-212.  The deferred [Close] runs as the function returns. *)
Definition getJSON (url : string) (t : list action)
  : (list Byte.byte * option error) * list action :=
  let '(res, t) := client_Get url t in
  match res with
  | inr err => (([], Some err), t)
  | inl resp =>
      let out :=
        if negb (StatusCode resp =? 200) then
          ([], Some ("unexpected status " ++ Itoa (StatusCode resp)
                     ++ " for " ++ url)%string)
        else Body resp in
      (out, t ++ [Closed url])
  end.

(** Lines 81-94; [%v] writes an error as its message. *)
Definition ImportZP (clubID : Z) (t : list action)
  : (list Rider * option error) * list action :=
  let '((data, err), t) := getJSON (teamURL clubID) t in
  match err with
  | Some err => (([], Some ("getting club data: " ++ err)%string), t)
  | None =>
      let '(c_Data, err) := Unmarshal_club data in
      match err with
      | Some err => (([], Some ("unmarshalling club data: " ++ err)%string), t)
      | None => ((c_Data, None), t)
      end
  end.

(** Lines 97-197: the whole of [ImportRider].  The result [rider] is the
    zero value until line 114; from there on the function is the
    aggregation above.  Log lines are not recorded. *)
Definition ImportRider (clock : Clock) (riderID : Z) (t : list action)
  : outcome (Rider * option error) * list action :=
  let rider := zeroRider in
  let '(_, t) := client_Get (profileURL riderID) t in
  let '((data, err), t) := getJSON (cacheURL riderID) t in
  match err with
  | Some err => (Returns (rider, Some err), t)
  | None =>
      let '(r_Data, err) := Unmarshal_riderData data in
      match err with
      | Some err => (Returns (rider, Some err), t)
      | None => (ImportRider ParseFloat clock riderID r_Data, t)
      end
  end.

End Client.

End Http.

(** ** Rider.Strings *)

(** The assignment [output[i] = v] to an element of a slice. *)
Definition store (output : list string) (i : nat) (v : string)
  : outcome (list string) :=
  if (i <? List.length output)%nat
  then Returns (firstn i output ++ v :: skipn (S i) output)
  else Panics ("runtime error: index out of range [" ++ Itoa (Z.of_nat i)
               ++ "] with length "
               ++ Itoa (Z.of_nat (List.length output)))%string.

Section Row.

Variable Month : Time -> Z.

(** [t.Format(layout)] for the layout of Go's reference day, and
    [strconv.FormatFloat(f, 'f', 1, 64)], are parameters. *)
Variable Format : Time -> string.
Variable FormatFloat : float64 -> string.

(** Lines 240-257.  [MonthsAgo] reads the clock. *)
Definition Strings (clock : Clock) (r : Rider) : outcome (list string) :=
  let output := repeat "" 14 in
  output <- store output 0 (Name r) ;;
  output <- store output 1 (Itoa (Zwid r)) ;;
  output <- store output 2 (Format (LatestEventDate r)) ;;
  output <- store output 3 (MonthsAgo Month clock r) ;;
  output <- store output 4 (LatestEvent r) ;;
  output <- store output 5 (Itoa (Rides r)) ;;
  output <- store output 6 (profileURL (Zwid r)) ;;
  output <- store output 7 (FormatFloat (Ftp30 r)) ;;
  output <- store output 8 (FormatFloat (Ftp90 r)) ;;
  output <- store output 9 (Itoa (Races30 r)) ;;
  output <- store output 10 (Itoa (Races90 r)) ;;
  output <- store output 11 (Itoa (Races r)) ;;
  output <- store output 12 (LatestRace r) ;;
  output <- store output 13 (Format (LatestRaceDate r)) ;;
  Returns output.

End Row.

(** ** More values for the examples *)

(** A calendar for the examples: every instant is in March. *)
Definition alwaysMarch (t : Time) : Z := 3.

(** Values for the examples: a server that knows one rider and one club,
    decoders that accept every document, and formats that write
    nothing. *)
Definition sampleNet : Network :=
  fun before url =>
    if String.eqb url (cacheURL 7) then inl (mkResponse 200 ([], None))
    else if String.eqb url (profileURL 7) then inl (mkResponse 200 ([], None))
    else if String.eqb url (teamURL 3) then inl (mkResponse 404 ([], None))
    else inr "no such host".
Definition sampleClub (data : list Byte.byte) : list Rider * option error :=
  ([zeroRider], None).
Definition sampleRiderData (data : list Byte.byte)
  : list Event * option error :=
  ([E1; E2; E3], None).
Definition noFormat {A : Type} (x : A) : string := "".

(** An event dated 10000000000 seconds before the Unix epoch, in the
    year 1653. *)
Definition Eold : Event :=
  mkEvent "TYPE_RIDE" (-10000000000) zeroTime "old"
          (islice [istring "2.0"; ifloat64 F64.zero])
          (islice [ifloat64 f2_0; ifloat64 F64.zero]).




(** * Properties *)

(** ** The loop is a fold over the converted events *)

Section LoopView.

Variable ParseFloat : string -> float64 * option error.

Lemma loop_body_convert (now : Time) (st : locals) (e : Event) :
  loop_body ParseFloat now st e =
  (it <- convert ParseFloat now e ;; Returns (accumulate st it)).
Proof.
  unfold loop_body, convert, dateOf, isRaceOf; simpl.
  destruct (read_WkgFtp ParseFloat _) as [w| |]; simpl; try reflexivity.
  destruct (read_AvgWkg ParseFloat _) as [a| |]; reflexivity.
Qed.

Lemma range_loop_fold (clock : Clock) (data : list Event) :
  forall (i : nat) (st : locals),
    range_loop ParseFloat clock i data st =
    (its <- convert_all ParseFloat clock i data ;;
     Returns (fold_left accumulate its st)).
Proof.
  induction data as [|e data IH]; intros i st; simpl; [reflexivity|].
  rewrite loop_body_convert.
  destruct (convert ParseFloat (clock i) e) as [it| |]; simpl; try reflexivity.
  rewrite IH.
  destruct (convert_all ParseFloat clock (S i) data); reflexivity.
Qed.

Lemma ImportRider_fold (clock : Clock) (riderID : Z) (data : list Event) :
  ImportRider ParseFloat clock riderID data =
  (its <- convert_all ParseFloat clock 0 data ;;
   Returns (snapshot (fold_left accumulate its (initial riderID)), None)).
Proof.
  unfold ImportRider.
  destruct data as [|e data]; [reflexivity|].
  replace (Z.of_nat (List.length (e :: data)) <? 1) with false
    by (symmetry; apply Z.ltb_ge; simpl List.length; lia).
  rewrite range_loop_fold.
  destruct (convert_all ParseFloat clock 0 (e :: data)); reflexivity.
Qed.

Lemma ImportRider_returns (clock : Clock) (riderID : Z) (data : list Event)
  (r : Rider) (err : option error) :
  ImportRider ParseFloat clock riderID data = Returns (r, err) ->
  exists its,
    convert_all ParseFloat clock 0 data = Returns its /\
    r = snapshot (fold_left accumulate its (initial riderID)) /\
    err = None.
Proof.
  rewrite ImportRider_fold.
  destruct (convert_all ParseFloat clock 0 data) as [its| |]; simpl;
    intros H; inversion H; subst.
  exists its; auto.
Qed.

(** The converted events stand at the positions of the events they come
    from, each converted at the clock reading of its iteration. *)
Lemma convert_all_nth (clock : Clock) (data : list Event) :
  forall (k : nat) (its : list item),
    convert_all ParseFloat clock k data = Returns its ->
    forall i : nat,
      match nth_error data i with
      | Some e => exists it, nth_error its i = Some it /\
                             convert ParseFloat (clock (k + i)%nat) e = Returns it
      | None => nth_error its i = None
      end.
Proof.
  induction data as [|e data IH]; intros k its H i; simpl in H.
  - inversion H; subst. destruct i; reflexivity.
  - destruct (convert ParseFloat (clock k) e) as [it| |] eqn:Hc;
      simpl in H; try discriminate.
    destruct (convert_all ParseFloat clock (S k) data) as [its'| |] eqn:Ha;
      simpl in H; try discriminate.
    inversion H; subst; clear H.
    destruct i as [|i]; simpl.
    + exists it. rewrite Nat.add_0_r. auto.
    + specialize (IH (S k) its' Ha i).
      replace (k + S i)%nat with (S k + i)%nat by lia. exact IH.
Qed.

Lemma convert_inv (now : Time) (e : Event) (it : item) :
  convert ParseFloat now e = Returns it ->
  read_WkgFtp ParseFloat e = Returns (it_wkgFtp it) /\
  read_AvgWkg ParseFloat e = Returns (it_avgWkg it) /\
  it_days it = daysAgo now (dateOf e) /\
  it_race it = isRaceOf e /\
  it_date it = dateOf e /\
  it_title it = EventTitle e.
Proof.
  unfold convert.
  destruct (read_WkgFtp ParseFloat e) as [w| |]; simpl; try discriminate.
  destruct (read_AvgWkg ParseFloat e) as [a| |]; simpl; try discriminate.
  intros H; inversion H; subst; simpl. repeat split; reflexivity.
Qed.

End LoopView.

(** ** One iteration, field by field *)

Lemma count_year_eq (d : Z) (b : bool) (r : Rider) :
  count_year d b r =
  mkRider (Name r) (Zwid r) (LatestEventDate r)
          (bump (d <=? 365) (Rides r)) (bump ((d <=? 365) && b) (Races r))
          (Races90 r) (Races30 r) (Ftp90 r) (Ftp60 r) (Ftp30 r)
          (LatestRace r) (LatestRaceDate r) (LatestEvent r)
          (LatestRaceAvgWkg r) (LatestRaceWkgFtp r).
Proof.
  destruct r as [n z led ri ra r90 r30 f90 f60 f30 lr lrd le la lw];
    unfold count_year, bump; simpl.
  destruct (d <=? 365), b; reflexivity.
Qed.

Lemma window90_eq (d : Z) (b : bool) (w : float64) (r : Rider) :
  window90 d b w r =
  mkRider (Name r) (Zwid r) (LatestEventDate r) (Rides r) (Races r)
          (bump ((d <=? 90) && b) (Races90 r)) (Races30 r)
          (if d <=? 90 then fmax (Ftp90 r) w else Ftp90 r) (Ftp60 r) (Ftp30 r)
          (LatestRace r) (LatestRaceDate r) (LatestEvent r)
          (LatestRaceAvgWkg r) (LatestRaceWkgFtp r).
Proof.
  destruct r as [n z led ri ra r90 r30 f90 f60 f30 lr lrd le la lw];
    unfold window90, bump, fmax; simpl.
  destruct (d <=? 90), b, (F64.gt w f90); reflexivity.
Qed.

Lemma window60_eq (d : Z) (w : float64) (r : Rider) :
  window60 d w r =
  mkRider (Name r) (Zwid r) (LatestEventDate r) (Rides r) (Races r)
          (Races90 r) (Races30 r)
          (Ftp90 r) (if d <=? 60 then fmax (Ftp60 r) w else Ftp60 r) (Ftp30 r)
          (LatestRace r) (LatestRaceDate r) (LatestEvent r)
          (LatestRaceAvgWkg r) (LatestRaceWkgFtp r).
Proof.
  destruct r as [n z led ri ra r90 r30 f90 f60 f30 lr lrd le la lw];
    unfold window60, fmax; simpl.
  destruct (d <=? 60), (F64.gt w f60); reflexivity.
Qed.

Lemma window30_eq (d : Z) (b : bool) (w : float64) (r : Rider) :
  window30 d b w r =
  mkRider (Name r) (Zwid r) (LatestEventDate r) (Rides r) (Races r)
          (Races90 r) (bump ((d <=? 30) && b) (Races30 r))
          (Ftp90 r) (Ftp60 r) (if d <=? 30 then fmax (Ftp30 r) w else Ftp30 r)
          (LatestRace r) (LatestRaceDate r) (LatestEvent r)
          (LatestRaceAvgWkg r) (LatestRaceWkgFtp r).
Proof.
  destruct r as [n z led ri ra r90 r30 f90 f60 f30 lr lrd le la lw];
    unfold window30, bump, fmax; simpl.
  destruct (d <=? 30), b; simpl; try reflexivity;
    destruct (F64.gt w f30); reflexivity.
Qed.

(** Each accumulator is updated from its own previous value and the
    event alone. *)
Lemma accumulate_fields (st : locals) (it : item) :
  let r := riderOf st in
  let r' := riderOf (accumulate st it) in
  let d := it_days it in
  (Name r' = Name r /\ Zwid r' = Zwid r /\
   LatestEventDate r' = LatestEventDate r /\
   LatestRaceDate r' = LatestRaceDate r) /\
  (Rides r' = bump (d <=? 365) (Rides r) /\
   Races r' = bump ((d <=? 365) && it_race it) (Races r) /\
   Races90 r' = bump ((d <=? 90) && it_race it) (Races90 r) /\
   Races30 r' = bump ((d <=? 30) && it_race it) (Races30 r)) /\
  (Ftp90 r' = (if d <=? 90 then fmax (Ftp90 r) (it_wkgFtp it) else Ftp90 r) /\
   Ftp60 r' = (if d <=? 60 then fmax (Ftp60 r) (it_wkgFtp it) else Ftp60 r) /\
   Ftp30 r' = (if d <=? 30 then fmax (Ftp30 r) (it_wkgFtp it) else Ftp30 r)) /\
  (latestEventDate (accumulate st it) = later (latestEventDate st) (it_date it) /\
   LatestEvent r' = (if After (it_date it) (latestEventDate st)
                     then it_title it else LatestEvent r)) /\
  (latestRaceDate (accumulate st it) =
     (if it_race it then later (latestRaceDate st) (it_date it)
      else latestRaceDate st) /\
   LatestRace r' = (if it_race it && After (it_date it) (latestRaceDate st)
                    then it_title it else LatestRace r) /\
   LatestRaceAvgWkg r' = (if it_race it && After (it_date it) (latestRaceDate st)
                          then it_avgWkg it else LatestRaceAvgWkg r) /\
   LatestRaceWkgFtp r' = (if it_race it && After (it_date it) (latestRaceDate st)
                          then it_wkgFtp it else LatestRaceWkgFtp r)).
Proof.
  destruct st as [r led lrd], it as [d b t ti w a]; simpl.
  unfold accumulate; simpl.
  rewrite window30_eq, window60_eq, window90_eq, count_year_eq; simpl.
  unfold latest_race, latest_event, later; simpl.
  destruct (After t led); simpl;
    destruct b; simpl; try (repeat split; reflexivity);
    destruct (After t lrd); simpl; repeat split; reflexivity.
Qed.

(** ** The order of float64 values and of instants *)

Lemma gt_spec (x y : float64) :
  F64.gt x y = true <->
  F64.is_nan x = false /\ F64.is_nan y = false /\ lex_lt (fkey y) (fkey x).
Proof.
  unfold F64.gt, SFltb, SFcompare, lex_lt.
  destruct y as [[|]|[|]| |[|] my ey], x as [[|]|[|]| |[|] mx ex]; simpl;
    try (split; [discriminate | intros (? & ? & ?); (discriminate || lia)]);
    try (split; [intros _; repeat split; lia | reflexivity]);
    change (Pos.compare_cont Eq my mx) with (Pos.compare my mx);
    destruct (Z.compare_spec ey ex); destruct (Pos.compare_spec my mx); simpl;
    split; try discriminate; try (intros _; repeat split; lia);
    try reflexivity; try (intros (_ & _ & ?); subst; lia).
Qed.

Lemma gt_not_nan (x y : float64) :
  F64.gt x y = true -> F64.is_nan x = false /\ F64.is_nan y = false.
Proof. intros H; apply gt_spec in H; tauto. Qed.

Lemma gt_irrefl (x : float64) : F64.gt x x = false.
Proof.
  destruct (F64.gt x x) eqn:H; [|reflexivity].
  apply gt_spec in H. destruct H as (_ & _ & H).
  unfold lex_lt in H. destruct (fkey x) as [[a b] c]. lia.
Qed.

Lemma gt_trans (x y z : float64) :
  F64.gt x y = true -> F64.gt y z = true -> F64.gt x z = true.
Proof.
  intros H1 H2. apply gt_spec in H1, H2. apply gt_spec.
  destruct H1 as (Hx & Hy & H1), H2 as (_ & Hz & H2).
  repeat split; trivial. unfold lex_lt in *.
  destruct (fkey x) as [[a1 a2] a3], (fkey y) as [[b1 b2] b3],
    (fkey z) as [[c1 c2] c3]. lia.
Qed.

Lemma gt_asym (x y : float64) :
  F64.gt x y = true -> F64.gt y x = false.
Proof.
  intros H. destruct (F64.gt y x) eqn:H'; [|reflexivity].
  pose proof (gt_trans _ _ _ H H') as Hxx. rewrite gt_irrefl in Hxx.
  discriminate.
Qed.

(** Two values that are not NaN and have one key are equal, or are the
    two zeros. *)
Lemma fkey_inj (x y : float64) :
  F64.is_nan x = false -> F64.is_nan y = false -> fkey x = fkey y ->
  x = y \/ (fkey x = (0, 0, 0) /\ fkey y = (0, 0, 0)).
Proof.
  destruct x as [[|]|[|]| |[|] mx ex], y as [[|]|[|]| |[|] my ey]; simpl;
    intros Hx Hy H; try discriminate; auto;
    inversion H; subst; auto.
  left. f_equal. lia.
Qed.


Lemma ftp_ok_not_nan (v : float64) : ftp_ok v -> F64.is_nan v = false.
Proof.
  intros [-> | H]; [reflexivity|]. apply gt_not_nan in H; tauto.
Qed.

Lemma ftp_ok_fmax (v x : float64) : ftp_ok v -> ftp_ok (fmax v x).
Proof.
  intros Hv. unfold fmax. destruct (F64.gt x v) eqn:H; [|exact Hv].
  right. destruct Hv as [-> | Hv]; [exact H|]. eapply gt_trans; eauto.
Qed.

Lemma After_spec (t u : Time) :
  After t u = true <->
  sec u < sec t \/ (sec t = sec u /\ nsec u < nsec t).
Proof.
  unfold After. rewrite orb_true_iff, andb_true_iff, !Z.ltb_lt, Z.eqb_eq.
  tauto.
Qed.

Lemma After_false (t u : Time) :
  After t u = false <->
  sec t < sec u \/ (sec t = sec u /\ nsec t <= nsec u).
Proof.
  destruct (After t u) eqn:H.
  - apply After_spec in H. split; [discriminate | lia].
  - split; [intros _ | reflexivity].
    destruct (Z_lt_le_dec (sec u) (sec t)) as [L|L].
    + assert (After t u = true) by (apply After_spec; lia). congruence.
    + destruct (Z.eq_dec (sec t) (sec u)) as [E|E]; [|lia].
      destruct (Z_lt_le_dec (nsec u) (nsec t)) as [L'|L']; [|lia].
      assert (After t u = true) by (apply After_spec; lia). congruence.
Qed.


(** ** Folds *)

Lemma fold_proj {A : Type} (proj : locals -> A) (f : A -> item -> A) :
  (forall st it, proj (accumulate st it) = f (proj st) it) ->
  forall its st, proj (fold_left accumulate its st) = fold_left f its (proj st).
Proof.
  intros H its. induction its as [|it its IH]; intros st; simpl;
    [reflexivity|]. rewrite IH, H. reflexivity.
Qed.


(** ** Conversions that fail *)

Section Failures.

Variable ParseFloat : string -> float64 * option error.

Lemma read_WkgFtp_cases (e : Event) :
  match read_WkgFtp ParseFloat e with
  | Returns _ => malformed_ratio ParseFloat (WkgFtp e) = false
  | Panics _ => malformed_ratio ParseFloat (WkgFtp e) = true
  | Exits c => c = 1 /\ malformed_ratio ParseFloat (WkgFtp e) = true
  end.
Proof.
  unfold read_WkgFtp, malformed_ratio.
  destruct (WkgFtp e) as [| | | |l|]; simpl; trivial.
  destruct l as [|x l]; simpl; trivial.
  destruct x; simpl; trivial.
  destruct (ParseFloat s) as [f [err|]]; simpl; auto.
Qed.

Lemma read_AvgWkg_cases (e : Event) :
  match read_AvgWkg ParseFloat e with
  | Returns _ => malformed_ratio ParseFloat (AvgWkg e) = false
  | Panics _ => True
  | Exits c => c = 1 /\ malformed_ratio ParseFloat (AvgWkg e) = true
  end.
Proof.
  unfold read_AvgWkg, malformed_ratio.
  destruct (AvgWkg e) as [| | | |l|]; simpl; trivial.
  destruct l as [|x l]; simpl; trivial.
  destruct x; simpl; trivial.
  destruct (ParseFloat s) as [f [err|]]; simpl; auto.
Qed.

Lemma convert_cases (now : Time) (e : Event) :
  match convert ParseFloat now e with
  | Returns _ => malformed_ratio ParseFloat (WkgFtp e) = false /\
                 malformed_ratio ParseFloat (AvgWkg e) = false
  | Panics _ => True
  | Exits c => c = 1
  end.
Proof.
  unfold convert.
  pose proof (read_WkgFtp_cases e) as Hw.
  pose proof (read_AvgWkg_cases e) as Ha.
  destruct (read_WkgFtp ParseFloat e); simpl; trivial; [|tauto].
  destruct (read_AvgWkg ParseFloat e); simpl; trivial; tauto.
Qed.

Lemma convert_all_cases (clock : Clock) (data : list Event) :
  forall i : nat,
    match convert_all ParseFloat clock i data with
    | Returns _ =>
        forall e, In e data ->
          malformed_ratio ParseFloat (WkgFtp e) = false /\
          malformed_ratio ParseFloat (AvgWkg e) = false
    | Panics _ => True
    | Exits c => c = 1
    end.
Proof.
  induction data as [|e data IH]; intros i; simpl.
  - intros e [].
  - pose proof (convert_cases (clock i) e) as Hc.
    destruct (convert ParseFloat (clock i) e); simpl; trivial.
    specialize (IH (S i)).
    destruct (convert_all ParseFloat clock (S i) data); simpl; trivial.
    intros e' [<- | Hin]; auto.
Qed.

(** When the ratio to threshold of every event is well formed and its
    average ratio is a text that is a number, [ImportRider] returns a
    snapshot. *)
Lemma read_WkgFtp_total (e : Event) :
  malformed_ratio ParseFloat (WkgFtp e) = false ->
  exists w, read_WkgFtp ParseFloat e = Returns w.
Proof.
  pose proof (read_WkgFtp_cases e) as H.
  destruct (read_WkgFtp ParseFloat e) as [w| |c]; intros Hm.
  - exists w; reflexivity.
  - congruence.
  - destruct H; congruence.
Qed.

Lemma read_AvgWkg_total (e : Event) :
  text_ratio ParseFloat (AvgWkg e) = true ->
  exists a, read_AvgWkg ParseFloat e = Returns a.
Proof.
  unfold read_AvgWkg, text_ratio.
  destruct (AvgWkg e) as [| | | |l|]; simpl; try discriminate.
  destruct l as [|x l]; simpl; try discriminate.
  destruct x; simpl; try discriminate.
  destruct (ParseFloat s) as [f [err|]]; simpl; try discriminate.
  intros _. exists f; reflexivity.
Qed.

Lemma convert_all_total (clock : Clock) (data : list Event) :
  (forall e, In e data ->
             malformed_ratio ParseFloat (WkgFtp e) = false /\
             text_ratio ParseFloat (AvgWkg e) = true) ->
  forall i, exists its, convert_all ParseFloat clock i data = Returns its.
Proof.
  induction data as [|e data IH]; intros H i; simpl.
  - exists []; reflexivity.
  - destruct (H e (or_introl eq_refl)) as [Hw Ha].
    destruct (read_WkgFtp_total e Hw) as (w & Ew).
    destruct (read_AvgWkg_total e Ha) as (a & Ea).
    unfold convert. rewrite Ew, Ea. simpl.
    destruct (IH (fun e' He' => H e' (or_intror He')) (S i)) as (its & ->).
    simpl. eexists; reflexivity.
Qed.

Lemma ImportRider_total (clock : Clock) (riderID : Z) (data : list Event) :
  (forall e, In e data ->
             malformed_ratio ParseFloat (WkgFtp e) = false /\
             text_ratio ParseFloat (AvgWkg e) = true) ->
  exists r, ImportRider ParseFloat clock riderID data = Returns (r, None).
Proof.
  intros H. rewrite ImportRider_fold.
  destruct (convert_all_total clock data H 0) as (its & ->).
  simpl. eexists; reflexivity.
Qed.

End Failures.

(** ** Empty input, timestamps and ratio fields *)

(** C9. Aggregating an empty event sequence succeeds and yields the empty
    snapshot: the four counters and the three maxima are zero, and both
    "latest" pointers (titles, dates and the ratios of the latest race)
    are unset. *)
Theorem C9_empty_input :
  forall (ParseFloat : string -> float64 * option error) (clock : Clock)
         (riderID : Z),
  exists r : Rider,
    ImportRider ParseFloat clock riderID [] = Returns (r, None) /\
    Zwid r = riderID /\
    (Rides r = 0 /\ Races r = 0 /\ Races90 r = 0 /\ Races30 r = 0) /\
    (Ftp90 r = F64.zero /\ Ftp60 r = F64.zero /\ Ftp30 r = F64.zero) /\
    (LatestEvent r = "" /\ IsZero (LatestEventDate r) = true) /\
    (LatestRace r = "" /\ IsZero (LatestRaceDate r) = true /\
     LatestRaceAvgWkg r = F64.zero /\ LatestRaceWkgFtp r = F64.zero).
Proof.
  intros ParseFloat clock riderID.
  exists (set_Zwid zeroRider riderID).
  repeat split; reflexivity.
Qed.

Example decode_event_date_number :
  decode_event_date (Some (JNumber "1600000000")) = (1600000000, None).
Proof. reflexivity. Qed.

Example decode_event_date_empty_text :
  decode_event_date (Some (JString "")) = (0, None).
Proof. reflexivity. Qed.

Example decode_event_date_fraction :
  decode_event_date (Some (JNumber "1.6e9")) = (0, None).
Proof. reflexivity. Qed.

Example decode_event_date_too_large :
  decode_event_date (Some (JNumber "9223372036854775808")) = (0, None).
Proof. reflexivity. Qed.

(** C1. The ratio to threshold is read from a number and from a text
    alike, but the average ratio is asserted to be a text: an event whose
    [avg_wkg] starts with the number 3.25 makes [ImportRider] panic,
    while the text "3.25" is read as 3.25. *)
Theorem C1_avg_wkg_number_panics :
  (forall (ParseFloat : string -> float64 * option error)
          (ty : string) (secs : EventDateType) (d : Time) (ti : string)
          (f : float64) (rest : list iface) (other : iface),
      read_WkgFtp ParseFloat
        (mkEvent ty secs d ti other (islice (ifloat64 f :: rest))) = Returns f /\
      read_AvgWkg ParseFloat
        (mkEvent ty secs d ti (islice (ifloat64 f :: rest)) other) =
      Panics "interface conversion: interface {} is float64, not string") /\
  read_AvgWkg decimalParseFloat E2 = Returns f3_25 /\
  (exists r, ImportRider decimalParseFloat (frozen sampleNow) 1 [E2] =
             Returns (r, None) /\ LatestRaceAvgWkg r = f3_25) /\
  ImportRider decimalParseFloat (frozen sampleNow) 1 [E2num] =
  Panics "interface conversion: interface {} is float64, not string".
Proof.
  split; [intros; split; reflexivity|].
  split; [vm_compute; reflexivity|].
  split; [|vm_compute; reflexivity].
  eexists. split; vm_compute; reflexivity.
Qed.

(** [ImportRider] has no error to return for an event: whenever it
    returns, the error is nil. *)
Lemma ImportRider_error_nil (ParseFloat : string -> float64 * option error)
  (clock : Clock) (riderID : Z) (data : list Event) (r : Rider)
  (err : option error) :
  ImportRider ParseFloat clock riderID data = Returns (r, err) -> err = None.
Proof.
  intros H. apply ImportRider_returns in H.
  destruct H as (its & _ & _ & ->). reflexivity.
Qed.

(** C8, as the code has it. An event with a malformed ratio field (the
    list missing or empty, its first element neither a number nor a text
    that is a number) never yields a snapshot and never a zero in place
    of the ratio: the call does not return to its caller at all, it
    panics or ends the process with status 1. *)
Theorem C8_malformed_ratio_aborts :
  forall (ParseFloat : string -> float64 * option error) (clock : Clock)
         (riderID : Z) (data : list Event) (e : Event),
    In e data ->
    malformed_ratio ParseFloat (WkgFtp e) = true \/
    malformed_ratio ParseFloat (AvgWkg e) = true ->
    fails (ImportRider ParseFloat clock riderID data) /\
    forall r err,
      ImportRider ParseFloat clock riderID data <> Returns (r, err).
Proof.
  intros ParseFloat clock riderID data e Hin Hbad.
  rewrite ImportRider_fold.
  pose proof (convert_all_cases ParseFloat clock data 0) as H.
  unfold fails.
  destruct (convert_all ParseFloat clock 0 data) as [its|msg|c]; simpl.
  - destruct (H e Hin) as [Hw Ha]. destruct Hbad; congruence.
  - split; [left; exists msg; reflexivity | discriminate].
  - split; [right; subst; reflexivity | discriminate].
Qed.

Lemma C8_malformed_ratio_aborts_witness :
  fails (ImportRider decimalParseFloat (frozen sampleNow) 1 [E1; Ebad]).
Proof.
  apply (C8_malformed_ratio_aborts decimalParseFloat
           (frozen sampleNow) 1 [E1; Ebad] Ebad).
  - simpl; auto.
  - left; vm_compute; reflexivity.
Defined.

(** C8, as stated, fails: for an event whose ratio is the text "n/a" no
    error comes back to the caller, the process exits. *)
Lemma C8_counterexample :
  ImportRider decimalParseFloat (frozen sampleNow) 1 [Ebad] = Exits 1 /\
  ~ (exists r err,
        ImportRider decimalParseFloat (frozen sampleNow) 1 [Ebad] =
        Returns (r, Some err)).
Proof.
  assert (H : ImportRider decimalParseFloat (frozen sampleNow) 1 [Ebad]
              = Exits 1) by (vm_compute; reflexivity).
  split; [exact H|]. intros (r & err & H'). rewrite H in H'. discriminate.
Qed.

(** ** Counters *)

Lemma incr_small (x : Z) : 0 <= x < Int64.max -> Int64.incr x = x + 1.
Proof.
  unfold Int64.incr, Int64.wrap, Int64.max.
  change (2 ^ 63) with 9223372036854775808.
  change (2 ^ 64) with 18446744073709551616.
  intros H. rewrite Z.mod_small; lia.
Qed.

Lemma accumulate_counters (n : Z) (st : locals) (it : item) :
  0 <= n < Int64.max ->
  (0 <= Races30 (riderOf st) <= Races90 (riderOf st) /\
   Races90 (riderOf st) <= Races (riderOf st) /\
   Races (riderOf st) <= Rides (riderOf st) /\
   Rides (riderOf st) <= n) ->
  let st' := accumulate st it in
  0 <= Races30 (riderOf st') <= Races90 (riderOf st') /\
  Races90 (riderOf st') <= Races (riderOf st') /\
  Races (riderOf st') <= Rides (riderOf st') /\
  Rides (riderOf st') <= n + 1.
Proof.
  intros Hn Hinv st'.
  destruct (accumulate_fields st it) as (_ & (HR & HRa & H90 & H30) & _).
  fold st' in HR, HRa, H90, H30. rewrite HR, HRa, H90, H30.
  unfold bump.
  destruct (Z.leb_spec (it_days it) 365), (Z.leb_spec (it_days it) 90),
    (Z.leb_spec (it_days it) 30), (it_race it); simpl;
    rewrite ?incr_small by lia; lia.
Qed.

Lemma fold_counters (its : list item) :
  forall (n : Z) (st : locals),
    0 <= n -> n + Z.of_nat (List.length its) <= Int64.max ->
    (0 <= Races30 (riderOf st) <= Races90 (riderOf st) /\
     Races90 (riderOf st) <= Races (riderOf st) /\
     Races (riderOf st) <= Rides (riderOf st) /\
     Rides (riderOf st) <= n) ->
    let st' := fold_left accumulate its st in
    0 <= Races30 (riderOf st') <= Races90 (riderOf st') /\
    Races90 (riderOf st') <= Races (riderOf st') /\
    Races (riderOf st') <= Rides (riderOf st') /\
    Rides (riderOf st') <= n + Z.of_nat (List.length its).
Proof.
  induction its as [|it its IH]; intros n st Hn Hlen Hinv.
  - simpl. rewrite Z.add_0_r. exact Hinv.
  - simpl fold_left. simpl List.length in *.
    replace (n + Z.of_nat (S (List.length its)))
      with ((n + 1) + Z.of_nat (List.length its)) in * by lia.
    apply IH; try lia.
    apply accumulate_counters; [lia | exact Hinv].
Qed.

Lemma convert_all_length (ParseFloat : string -> float64 * option error)
  (clock : Clock) (data : list Event) :
  forall (i : nat) (its : list item),
    convert_all ParseFloat clock i data = Returns its ->
    List.length its = List.length data.
Proof.
  induction data as [|e data IH]; intros i its H; simpl in H.
  - inversion H; reflexivity.
  - destruct (convert ParseFloat (clock i) e); simpl in H; try discriminate.
    destruct (convert_all ParseFloat clock (S i) data) eqn:Ha; simpl in H;
      try discriminate.
    inversion H; subst. simpl. f_equal. eapply IH; eauto.
Qed.

(** C3. Whatever the events (a slice holds at most 2^63 - 1 of them), the
    snapshot that comes back has races30 <= races90 <= racesLastYear and
    racesLastYear <= ridesLastYear. *)
Theorem C3_window_monotonicity :
  forall (ParseFloat : string -> float64 * option error) (clock : Clock)
         (riderID : Z) (data : list Event) (r : Rider) (err : option error),
    Z.of_nat (List.length data) <= Int64.max ->
    ImportRider ParseFloat clock riderID data = Returns (r, err) ->
    0 <= Races30 r /\ Races30 r <= Races90 r /\ Races90 r <= Races r /\
    Races r <= Rides r.
Proof.
  intros ParseFloat clock riderID data r err Hlen H.
  apply ImportRider_returns in H. destruct H as (its & Hc & -> & _).
  apply convert_all_length in Hc.
  pose proof (fold_counters its 0 (initial riderID)) as F.
  simpl in F. rewrite Hc in F.
  specialize (F (Z.le_refl 0) Hlen).
  assert (I0 : 0 <= 0 <= 0 /\ 0 <= 0 /\ 0 <= 0 /\ 0 <= 0) by lia.
  specialize (F I0). simpl. lia.
Qed.

Lemma C3_window_monotonicity_witness :
  exists r : Rider,
    ImportRider decimalParseFloat (frozen sampleNow) 7 [E1; E2; E3] =
    Returns (r, None) /\
    0 <= Races30 r /\ Races30 r <= Races90 r /\ Races90 r <= Races r /\
    Races r <= Rides r.
Proof.
  eexists. split; [vm_compute; reflexivity|].
  apply (C3_window_monotonicity decimalParseFloat (frozen sampleNow) 7
           [E1; E2; E3] _ None).
  - vm_compute; discriminate.
  - vm_compute; reflexivity.
Defined.

(** ** Rolling maxima *)

Lemma window_max_fold (p : item -> bool) (its : list item) :
  forall v0 : float64,
    let v := fold_left
               (fun v it => if p it then fmax v (it_wkgFtp it) else v) its v0 in
    F64.gt v0 v = false /\
    (forall it, In it its -> p it = true -> F64.gt (it_wkgFtp it) v = false) /\
    (v = v0 \/
     exists it, In it its /\ p it = true /\ it_wkgFtp it = v /\
                F64.gt v v0 = true).
Proof.
  induction its as [|x its IH]; intros v0; simpl.
  - split; [apply gt_irrefl|]. split; [intros it []|]. left; reflexivity.
  - set (v1 := if p x then fmax v0 (it_wkgFtp x) else v0).
    assert (Hstep : v1 = v0 \/
                    (p x = true /\ v1 = it_wkgFtp x /\ F64.gt v1 v0 = true)).
    { unfold v1, fmax. destruct (p x); auto.
      destruct (F64.gt (it_wkgFtp x) v0) eqn:G; auto. }
    assert (Hx : p x = true -> F64.gt (it_wkgFtp x) v1 = false).
    { unfold v1, fmax. intros ->.
      destruct (F64.gt (it_wkgFtp x) v0) eqn:G; [apply gt_irrefl | exact G]. }
    specialize (IH v1). simpl in IH. clearbody v1.
    set (v := fold_left
                (fun v it => if p it then fmax v (it_wkgFtp it) else v)
                its v1) in *.
    clearbody v.
    destruct IH as (Hlow & Hub & Hatt).
    assert (Hv1 : v = v1 \/ F64.gt v v1 = true).
    { destruct Hatt as [E | (it & _ & _ & _ & G)]; auto. }
    assert (Hv0 : v = v0 \/ F64.gt v v0 = true).
    { destruct Hstep as [E | (_ & _ & G)]; destruct Hv1 as [E' | G'].
      - left; congruence.
      - right; rewrite <- E; exact G'.
      - right; rewrite E'; exact G.
      - right; eapply gt_trans; eauto. }
    split; [|split].
    + destruct Hv0 as [-> | G]; [apply gt_irrefl | apply gt_asym; exact G].
    + intros it [<- | Hin] Hp; [|apply Hub; assumption].
      destruct (F64.gt (it_wkgFtp x) v) eqn:G; [|reflexivity].
      exfalso. specialize (Hx Hp).
      destruct Hv1 as [E | G']; [congruence|].
      pose proof (gt_trans _ _ _ G G'). congruence.
    + destruct Hatt as [E | (it & Hin & Hp & Hw & G)].
      * destruct Hstep as [E' | (Hp & Hw & G)].
        -- left; congruence.
        -- right. exists x. rewrite E. auto.
      * right. exists it. repeat split; auto.
        destruct Hstep as [E' | (_ & _ & G')];
          [rewrite <- E'; exact G | eapply gt_trans; eauto].
Qed.

Section WindowMax.

Variable ParseFloat : string -> float64 * option error.
Variable clock : Clock.

Lemma window_max_events (data : list Event) (its : list item) (N : Z) :
  convert_all ParseFloat clock 0 data = Returns its ->
  is_window_max ParseFloat clock data N
    (fold_left (fun v it => if it_days it <=? N
                            then fmax v (it_wkgFtp it) else v) its F64.zero).
Proof.
  intros Hc.
  pose proof (convert_all_nth ParseFloat clock data 0 its Hc) as Hnth.
  pose proof (window_max_fold (fun it => it_days it <=? N) its F64.zero)
    as (_ & Hub & Hatt).
  simpl in Hub, Hatt.
  set (v := fold_left _ its F64.zero) in *.
  assert (A : forall i e x,
             nth_error data i = Some e ->
             daysAgo (clock i) (dateOf e) <= N ->
             read_WkgFtp ParseFloat e = Returns x ->
             F64.gt x v = false).
  { intros i e x He Hd Hx. specialize (Hnth i). rewrite He in Hnth.
    destruct Hnth as (it & Hit & Hcv). simpl in Hcv.
    apply convert_inv in Hcv. destruct Hcv as (Hw & _ & Hdays & _).
    rewrite Hx in Hw. inversion Hw; subst x.
    apply Hub; [eapply nth_error_In; eauto|].
    apply Z.leb_le. rewrite Hdays. exact Hd. }
  assert (B : v = F64.zero \/
              exists i e,
                nth_error data i = Some e /\
                daysAgo (clock i) (dateOf e) <= N /\
                read_WkgFtp ParseFloat e = Returns v /\
                F64.gt v F64.zero = true).
  { destruct Hatt as [E | (it & Hin & Hp & Hw & G)]; [left; exact E|].
    right. apply In_nth_error in Hin. destruct Hin as (i & Hi).
    specialize (Hnth i). destruct (nth_error data i) as [e|] eqn:He;
      [|congruence].
    destruct Hnth as (it' & Hit' & Hcv). simpl in Hcv.
    assert (it' = it) by congruence. subst it'.
    apply convert_inv in Hcv. destruct Hcv as (Hw' & _ & Hdays & _).
    exists i, e. repeat split; auto.
    - apply Z.leb_le in Hp. rewrite <- Hdays. exact Hp.
    - rewrite Hw', Hw. reflexivity. }
  split; [exact A|]. split; [exact B|].
  intros Hnone. destruct B as [E | (i & e & He & Hd & Hx & G)]; [exact E|].
  rewrite (Hnone i e v He Hd Hx) in G. discriminate.
Qed.

End WindowMax.

Lemma Ftp90_fold (its : list item) (st : locals) :
  Ftp90 (riderOf (fold_left accumulate its st)) =
  fold_left (fun v it => if it_days it <=? 90
                         then fmax v (it_wkgFtp it) else v)
            its (Ftp90 (riderOf st)).
Proof.
  apply (fold_proj (fun st => Ftp90 (riderOf st))). intros st' it.
  apply (accumulate_fields st' it).
Qed.

Lemma Ftp60_fold (its : list item) (st : locals) :
  Ftp60 (riderOf (fold_left accumulate its st)) =
  fold_left (fun v it => if it_days it <=? 60
                         then fmax v (it_wkgFtp it) else v)
            its (Ftp60 (riderOf st)).
Proof.
  apply (fold_proj (fun st => Ftp60 (riderOf st))). intros st' it.
  apply (accumulate_fields st' it).
Qed.

Lemma Ftp30_fold (its : list item) (st : locals) :
  Ftp30 (riderOf (fold_left accumulate its st)) =
  fold_left (fun v it => if it_days it <=? 30
                         then fmax v (it_wkgFtp it) else v)
            its (Ftp30 (riderOf st)).
Proof.
  apply (fold_proj (fun st => Ftp30 (riderOf st))). intros st' it.
  apply (accumulate_fields st' it).
Qed.

(** C4. In the snapshot that comes back, each of Ftp90, Ftp60 and Ftp30 is
    the largest ratio to threshold among the events whose daysAgo is
    within 90, 60 and 30: no ratio of the window is greater, and the value
    is the ratio of an event of the window that is greater than zero, or
    zero when there is none, be the window empty or its ratios all
    negative or zero. *)
Theorem C4_rolling_maxima :
  forall (ParseFloat : string -> float64 * option error) (clock : Clock)
         (riderID : Z) (data : list Event) (r : Rider) (err : option error),
    ImportRider ParseFloat clock riderID data = Returns (r, err) ->
    is_window_max ParseFloat clock data 90 (Ftp90 r) /\
    is_window_max ParseFloat clock data 60 (Ftp60 r) /\
    is_window_max ParseFloat clock data 30 (Ftp30 r).
Proof.
  intros ParseFloat clock riderID data r err H.
  apply ImportRider_returns in H. destruct H as (its & Hc & -> & _).
  unfold snapshot; simpl.
  rewrite Ftp90_fold, Ftp60_fold, Ftp30_fold. simpl.
  repeat split; apply window_max_events; exact Hc.
Qed.

Lemma C4_rolling_maxima_witness :
  exists r : Rider,
    ImportRider decimalParseFloat (frozen sampleNow) 7 [E1; E2; E3] =
    Returns (r, None) /\
    (Ftp90 r = f1_10 /\ Ftp60 r = f1_10 /\ Ftp30 r = f1_05) /\
    is_window_max decimalParseFloat (frozen sampleNow) [E1; E2; E3] 90 (Ftp90 r) /\
    is_window_max decimalParseFloat (frozen sampleNow) [E1; E2; E3] 60 (Ftp60 r) /\
    is_window_max decimalParseFloat (frozen sampleNow) [E1; E2; E3] 30 (Ftp30 r).
Proof.
  eexists. split; [vm_compute; reflexivity|].
  split; [repeat split; vm_compute; reflexivity|].
  apply (C4_rolling_maxima decimalParseFloat (frozen sampleNow) 7
           [E1; E2; E3] _ None).
  vm_compute; reflexivity.
Defined.

(** ** "Latest" pointers *)

Lemma After_irrefl (t : Time) : After t t = false.
Proof. apply After_false. lia. Qed.

Lemma nth_error_snoc {A : Type} (l : list A) (y : A) (j : nat) (a : A) :
  nth_error (l ++ [y]) j = Some a ->
  ((j < List.length l)%nat /\ nth_error l j = Some a) \/
  (j = List.length l /\ a = y).
Proof.
  intros H. destruct (Nat.lt_ge_cases j (List.length l)) as [L|L].
  - left. rewrite nth_error_app1 in H by exact L. auto.
  - right. rewrite nth_error_app2 in H by exact L.
    destruct (j - List.length l)%nat as [|k] eqn:E; simpl in H.
    + inversion H. split; [lia | reflexivity].
    + destruct k; discriminate.
Qed.

Lemma latest_fold {X : Type} (p : item -> bool) (pay : item -> X) (x0 : X)
  (its : list item) :
  let c := fst (fold_left (latest_step p pay) its (zeroTime, x0)) in
  let x := snd (fold_left (latest_step p pay) its (zeroTime, x0)) in
  (c = zeroTime /\ x = x0 /\
   forall j it, nth_error its j = Some it -> p it = true ->
                After (it_date it) zeroTime = false) \/
  (exists i it,
      nth_error its i = Some it /\ p it = true /\
      c = it_date it /\ x = pay it /\
      (forall j it', nth_error its j = Some it' -> p it' = true ->
                     After (it_date it') c = false) /\
      (forall j it', (j < i)%nat -> nth_error its j = Some it' ->
                     p it' = true -> After c (it_date it') = true)).
Proof.
  induction its as [|y l IH] using rev_ind; simpl.
  - left. repeat split; try reflexivity. intros [|j] it H; discriminate.
  - rewrite fold_left_app. simpl.
    destruct (fold_left (latest_step p pay) l (zeroTime, x0)) as [c x] eqn:F.
    simpl in IH.
    change (latest_step p pay (c, x) y)
      with (if p y && After (it_date y) c then (it_date y, pay y) else (c, x)).
    destruct (p y && After (it_date y) c) eqn:G; simpl.
    + apply andb_true_iff in G. destruct G as [Py Gy].
      apply After_spec in Gy.
      assert (Hold : forall j it', nth_error l j = Some it' -> p it' = true ->
                                   After (it_date it') c = false).
      { destruct IH as [(-> & _ & H) | (i & it & _ & _ & _ & _ & H & _)];
          exact H. }
      right. exists (List.length l), y. repeat split; trivial.
      * rewrite nth_error_app2, Nat.sub_diag by lia. reflexivity.
      * intros j it' Hj Pj. apply nth_error_snoc in Hj.
        destruct Hj as [[_ Hj] | [_ ->]]; [|apply After_irrefl].
        specialize (Hold j it' Hj Pj). apply After_false in Hold.
        apply After_false. lia.
      * intros j it' Hlt Hj Pj. apply nth_error_snoc in Hj.
        destruct Hj as [[_ Hj] | [E _]]; [|lia].
        specialize (Hold j it' Hj Pj). apply After_false in Hold.
        apply After_spec. lia.
    + assert (Gy : p y = true -> After (it_date y) c = false).
      { intros Py. rewrite Py in G. exact G. }
      destruct IH as [(-> & -> & H) | (i & it & Hi & Pi & -> & -> & Hub & Hfirst)].
      * left. repeat split; trivial.
        intros j it' Hj Pj. apply nth_error_snoc in Hj.
        destruct Hj as [[_ Hj] | [_ ->]]; eauto.
      * right. exists i, it.
        assert (Hlen : (i < List.length l)%nat)
          by (apply nth_error_Some; congruence).
        repeat split; trivial.
        -- rewrite nth_error_app1 by exact Hlen. exact Hi.
        -- intros j it' Hj Pj. apply nth_error_snoc in Hj.
           destruct Hj as [[_ Hj] | [_ ->]]; eauto.
        -- intros j it' Hlt Hj Pj. apply nth_error_snoc in Hj.
           destruct Hj as [[_ Hj] | [E _]]; [eauto | lia].
Qed.

Lemma latest_event_fold (its : list item) (st : locals) :
  (latestEventDate (fold_left accumulate its st),
   LatestEvent (riderOf (fold_left accumulate its st))) =
  fold_left (latest_step (fun _ => true) it_title) its
            (latestEventDate st, LatestEvent (riderOf st)).
Proof.
  apply (fold_proj (fun st => (latestEventDate st, LatestEvent (riderOf st)))).
  intros st' it.
  destruct (accumulate_fields st' it) as (_ & _ & _ & (Hd & Ht) & _).
  rewrite Hd, Ht. unfold latest_step, later; simpl.
  destruct (After (it_date it) (latestEventDate st')); reflexivity.
Qed.

Lemma latest_race_fold (its : list item) (st : locals) :
  (latestRaceDate (fold_left accumulate its st),
   (LatestRace (riderOf (fold_left accumulate its st)),
    LatestRaceAvgWkg (riderOf (fold_left accumulate its st)),
    LatestRaceWkgFtp (riderOf (fold_left accumulate its st)))) =
  fold_left (latest_step it_race
               (fun it => (it_title it, it_avgWkg it, it_wkgFtp it))) its
            (latestRaceDate st,
             (LatestRace (riderOf st), LatestRaceAvgWkg (riderOf st),
              LatestRaceWkgFtp (riderOf st))).
Proof.
  apply (fold_proj (fun st =>
           (latestRaceDate st,
            (LatestRace (riderOf st), LatestRaceAvgWkg (riderOf st),
             LatestRaceWkgFtp (riderOf st))))).
  intros st' it.
  destruct (accumulate_fields st' it) as (_ & _ & _ & _ & (Hd & Ht & Ha & Hw)).
  rewrite Hd, Ht, Ha, Hw. unfold latest_step, later; simpl.
  destruct (it_race it); simpl; [|reflexivity].
  destruct (After (it_date it) (latestRaceDate st')); reflexivity.
Qed.

Section LatestEvents.

Variable ParseFloat : string -> float64 * option error.
Variable clock : Clock.
Variable data : list Event.
Variable its : list item.
Hypothesis Hconv : convert_all ParseFloat clock 0 data = Returns its.

Variable p : item -> bool.
Variable sel : Event -> bool.
Hypothesis Hsel :
  forall now e it, convert ParseFloat now e = Returns it -> p it = sel e.

Lemma item_of_event (j : nat) (e : Event) :
  nth_error data j = Some e ->
  exists it, nth_error its j = Some it /\
             convert ParseFloat (clock j) e = Returns it.
Proof.
  intros He. pose proof (convert_all_nth ParseFloat clock data 0 its Hconv j) as H.
  rewrite He in H. exact H.
Qed.

Lemma event_of_item (j : nat) (it : item) :
  nth_error its j = Some it ->
  exists e, nth_error data j = Some e /\
            convert ParseFloat (clock j) e = Returns it.
Proof.
  intros Hit. pose proof (convert_all_nth ParseFloat clock data 0 its Hconv j) as H.
  destruct (nth_error data j) as [e|]; [|congruence].
  destruct H as (it' & Hit' & Hc). exists e. split; [reflexivity|].
  simpl in Hc. congruence.
Qed.



End LatestEvents.








(** ** The order of the events *)



Lemma gt_nan_l (x y : float64) : F64.is_nan x = true -> F64.gt x y = false.
Proof.
  intros H. destruct (F64.gt x y) eqn:G; [|reflexivity].
  apply gt_not_nan in G. destruct G; congruence.
Qed.

Lemma gt_nan_r (x y : float64) : F64.is_nan y = true -> F64.gt x y = false.
Proof.
  intros H. destruct (F64.gt x y) eqn:G; [|reflexivity].
  apply gt_not_nan in G. destruct G; congruence.
Qed.

Lemma fmax_nan (v x : float64) : F64.is_nan x = true -> fmax v x = v.
Proof. intros H. unfold fmax. rewrite gt_nan_l by exact H. reflexivity. Qed.

Lemma gt_false_key (x y : float64) :
  F64.is_nan x = false -> F64.is_nan y = false ->
  F64.gt x y = false -> ~ lex_lt (fkey y) (fkey x).
Proof.
  intros Hx Hy G L.
  assert (F64.gt x y = true) by (apply gt_spec; auto). congruence.
Qed.






Lemma counters_fold (its : list item) (st : locals) :
  let st' := fold_left accumulate its st in
  Rides (riderOf st') =
    fold_left (fun n it => bump (it_days it <=? 365) n) its (Rides (riderOf st)) /\
  Races (riderOf st') =
    fold_left (fun n it => bump ((it_days it <=? 365) && it_race it) n) its
              (Races (riderOf st)) /\
  Races90 (riderOf st') =
    fold_left (fun n it => bump ((it_days it <=? 90) && it_race it) n) its
              (Races90 (riderOf st)) /\
  Races30 (riderOf st') =
    fold_left (fun n it => bump ((it_days it <=? 30) && it_race it) n) its
              (Races30 (riderOf st)).
Proof.
  simpl. repeat split.
  - apply (fold_proj (fun st => Rides (riderOf st))
             (fun n it => bump (it_days it <=? 365) n)).
    intros st' it. apply (accumulate_fields st' it).
  - apply (fold_proj (fun st => Races (riderOf st))
             (fun n it => bump ((it_days it <=? 365) && it_race it) n)).
    intros st' it. apply (accumulate_fields st' it).
  - apply (fold_proj (fun st => Races90 (riderOf st))
             (fun n it => bump ((it_days it <=? 90) && it_race it) n)).
    intros st' it. apply (accumulate_fields st' it).
  - apply (fold_proj (fun st => Races30 (riderOf st))
             (fun n it => bump ((it_days it <=? 30) && it_race it) n)).
    intros st' it. apply (accumulate_fields st' it).
Qed.

Lemma dates_fold (its : list item) (st : locals) :
  let st' := fold_left accumulate its st in
  latestEventDate st' =
    fold_left (fun c it => if true then later c (it_date it) else c) its
              (latestEventDate st) /\
  latestRaceDate st' =
    fold_left (fun c it => if it_race it then later c (it_date it) else c) its
              (latestRaceDate st).
Proof.
  simpl. split.
  - apply (fold_proj latestEventDate
             (fun c it => if true then later c (it_date it) else c)).
    intros st' it. apply (accumulate_fields st' it).
  - apply (fold_proj latestRaceDate
             (fun c it => if it_race it then later c (it_date it) else c)).
    intros st' it. apply (accumulate_fields st' it).
Qed.

Section FrozenClock.

Variable ParseFloat : string -> float64 * option error.
Variable now : Time.

Lemma convert_all_frozen_index (data : list Event) :
  forall i j : nat,
    convert_all ParseFloat (frozen now) i data =
    convert_all ParseFloat (frozen now) j data.
Proof.
  induction data as [|e data IH]; intros i j; simpl; [reflexivity|].
  unfold frozen at 1 3. rewrite (IH (S i) (S j)). reflexivity.
Qed.

Lemma convert_all_frozen_cons (e : Event) (data : list Event) (i : nat)
  (its : list item) :
  convert_all ParseFloat (frozen now) i (e :: data) = Returns its ->
  exists it its0,
    its = it :: its0 /\
    convert ParseFloat now e = Returns it /\
    convert_all ParseFloat (frozen now) i data = Returns its0.
Proof.
  simpl. unfold frozen at 1.
  destruct (convert ParseFloat now e) as [it| |]; simpl; try discriminate.
  rewrite (convert_all_frozen_index data (S i) i).
  destruct (convert_all ParseFloat (frozen now) i data) as [its0| |];
    simpl; try discriminate.
  intros H; inversion H; subst. exists it, its0. auto.
Qed.

Lemma convert_all_frozen_build (e : Event) (data : list Event) (i : nat)
  (it : item) (its0 : list item) :
  convert ParseFloat now e = Returns it ->
  convert_all ParseFloat (frozen now) i data = Returns its0 ->
  convert_all ParseFloat (frozen now) i (e :: data) = Returns (it :: its0).
Proof.
  intros Hc Ha. simpl. unfold frozen at 1. rewrite Hc. simpl.
  rewrite (convert_all_frozen_index data (S i) i), Ha. reflexivity.
Qed.


End FrozenClock.




(** ** Rounding to float64 *)

Lemma bpow_pos (e : Z) : (0 < bpow e)%Q.
Proof. apply Qpower_0_lt. reflexivity. Qed.

Lemma bpow_add (a b : Z) : (bpow (a + b) == bpow a * bpow b)%Q.
Proof. apply Qpower_plus. discriminate. Qed.

Lemma bpow_le (a b : Z) : a <= b -> (bpow a <= bpow b)%Q.
Proof. intros H. apply Qpower_le_compat_l; [exact H | discriminate]. Qed.

Lemma bpow_lt (a b : Z) : a < b -> (bpow a < bpow b)%Q.
Proof. intros H. apply Qpower_lt_compat_l; [exact H | reflexivity]. Qed.

Lemma bpow_Z (n : Z) : 0 <= n -> (bpow n == inject_Z (2 ^ n))%Q.
Proof. intros H. unfold bpow. rewrite Zpower_Qpower by exact H. reflexivity. Qed.

Lemma bpow_0 : (bpow 0 == 1)%Q.
Proof. reflexivity. Qed.

Lemma bpow_cancel (e : Z) : (bpow e * bpow (- e) == 1)%Q.
Proof. rewrite <- bpow_add. rewrite Z.add_opp_diag_r. reflexivity. Qed.

Lemma dy_shift (m e n : Z) : 0 <= n -> (dy (m * 2 ^ n) (e - n) == dy m e)%Q.
Proof.
  intros H. unfold dy. rewrite inject_Z_mult, <- (bpow_Z n H).
  replace e with ((e - n) + n) at 2 by lia. rewrite (bpow_add (e - n) n).
  ring.
Qed.

Lemma dy_le (m m' e : Z) : m <= m' -> (dy m e <= dy m' e)%Q.
Proof.
  intros H. unfold dy. apply Qmult_le_compat_r.
  - rewrite <- Zle_Qle. exact H.
  - apply Qlt_le_weak, bpow_pos.
Qed.

Lemma dy_le_inv (m m' e : Z) : (dy m e <= dy m' e)%Q -> m <= m'.
Proof.
  unfold dy. intros H. apply Qmult_le_r in H; [|apply bpow_pos].
  rewrite <- Zle_Qle in H. exact H.
Qed.

Lemma dy_lt_inv (m m' e : Z) : (dy m e < dy m' e)%Q -> m < m'.
Proof.
  unfold dy. intros H. apply Qmult_lt_r in H; [|apply bpow_pos].
  rewrite <- Zlt_Qlt in H. exact H.
Qed.

Lemma dy_floor (x : Q) (e : Z) : (dy (Qfloor (x * bpow (- e))) e <= x)%Q.
Proof.
  unfold dy.
  assert (H := Qfloor_le (x * bpow (- e))).
  apply (Qmult_le_compat_r _ _ (bpow e)) in H;
    [|apply Qlt_le_weak, bpow_pos].
  rewrite <- Qmult_assoc in H.
  assert (E : (bpow (- e) * bpow e == 1)%Q).
  { rewrite Qmult_comm. apply bpow_cancel. }
  rewrite E, Qmult_1_r in H. exact H.
Qed.

(** an integer multiple of 2^e below x is below the truncation of x *)
Lemma floor_lower (a e : Z) (x : Q) :
  (dy a e <= x)%Q -> (dy a e <= dy (Qfloor (x * bpow (- e))) e)%Q.
Proof.
  intros H. apply dy_le.
  rewrite <- (Qfloor_Z a). apply Qfloor_resp_le.
  unfold dy in H.
  apply (Qmult_le_compat_r _ _ (bpow (- e))) in H;
    [|apply Qlt_le_weak, bpow_pos].
  rewrite <- Qmult_assoc, bpow_cancel, Qmult_1_r in H. exact H.
Qed.

Lemma digits2_pos_size (p : positive) : digits2_pos p = Pos.size p.
Proof. induction p; simpl; congruence. Qed.

Lemma digits_bounds (p : positive) :
  2 ^ (Zpos (digits2_pos p) - 1) <= Zpos p < 2 ^ Zpos (digits2_pos p).
Proof.
  rewrite digits2_pos_size.
  pose proof (Pos.size_gt p) as G. pose proof (Pos.size_le p) as L.
  split.
  - assert (2 ^ Zpos (Pos.size p) <= 2 * Zpos p).
    { rewrite <- Pos2Z.inj_pow. change (2 * Zpos p) with (Zpos p~0).
      apply Pos2Z.pos_le_pos. exact L. }
    replace (Zpos (Pos.size p)) with (Z.succ (Zpos (Pos.size p) - 1)) in H by lia.
    rewrite Z.pow_succ_r in H by lia. lia.
  - rewrite <- Pos2Z.inj_pow. apply Pos2Z.pos_lt_pos. exact G.
Qed.

Lemma dy_digits (p : positive) (e : Z) :
  (bpow (Zpos (digits2_pos p) + e - 1) <= dy (Zpos p) e)%Q /\
  (dy (Zpos p) e < bpow (Zpos (digits2_pos p) + e))%Q.
Proof.
  pose proof (digits_bounds p) as [L U].
  set (D := Zpos (digits2_pos p)) in *.
  assert (HD : 0 <= D - 1) by (unfold D; lia).
  split.
  - replace (D + e - 1) with ((D - 1) + e) by lia.
    rewrite bpow_add, (bpow_Z (D - 1) HD). unfold dy.
    apply Qmult_le_compat_r; [|apply Qlt_le_weak, bpow_pos].
    rewrite <- Zle_Qle. exact L.
  - rewrite bpow_add, (bpow_Z D) by (unfold D; lia). unfold dy.
    apply Qmult_lt_compat_r; [apply bpow_pos|].
    rewrite <- Zlt_Qlt. exact U.
Qed.


Lemma fexp_eq (e : Z) : fexp F64.prec F64.emax e = fexp64 e.
Proof. reflexivity. Qed.

Lemma trunc_lower (mv : positive) (ev : Z) (x : Q) (mu e : Z) :
  canonical_mantissa F64.prec F64.emax mv ev = true ->
  (dy (Zpos mv) ev <= x)%Q ->
  (bpow (mu - 1) <= x)%Q ->
  e <= fexp64 mu ->
  (dy (Zpos mv) ev <= dy (Qfloor (x * bpow (- e))) e)%Q.
Proof.
  intros Hc HV Hmu He.
  unfold canonical_mantissa in Hc. apply Z.eqb_eq in Hc.
  rewrite fexp_eq in Hc. unfold fexp64 in *.
  destruct (Z_le_gt_dec e ev) as [L|G].
  - (* V is a multiple of 2^e *)
    assert (E : (dy (Zpos mv) ev == dy (Zpos mv * 2 ^ (ev - e)) e)%Q).
    { rewrite <- (dy_shift (Zpos mv) ev (ev - e)) by lia.
      replace (ev - (ev - e)) with e by lia. reflexivity. }
    rewrite E. apply floor_lower. rewrite <- E. exact HV.
  - (* a power of two lies between V and x *)
    assert (Hmag : Zpos (digits2_pos mv) + ev <= mu - 1) by lia.
    assert (He' : e <= mu - 1) by lia.
    apply Qle_trans with (bpow (mu - 1)).
    + apply Qlt_le_weak.
      eapply Qlt_le_trans; [apply (dy_digits mv ev)|].
      apply bpow_le. exact Hmag.
    + assert (E : (bpow (mu - 1) == dy (2 ^ (mu - 1 - e)) e)%Q).
      { unfold dy. rewrite <- bpow_Z by lia. rewrite <- bpow_add.
        replace (mu - 1 - e + e) with (mu - 1) by lia. reflexivity. }
      rewrite E. apply floor_lower. rewrite <- E. exact Hmu.
Qed.

(** ** Shifts *)

Lemma shr_1_m (mrs : shr_record) :
  0 <= shr_m mrs -> shr_m (shr_1 mrs) = shr_m mrs / 2.
Proof.
  destruct mrs as [m r s]; unfold shr_1.
  destruct m as [|[p|p|]|p]; cbn [shr_m]; intros H; try lia; try reflexivity.
  - apply (Z.div_unique _ 2 _ 1); lia.
  - apply (Z.div_unique _ 2 _ 0); lia.
Qed.

Lemma pow2_xO (p : positive) : 2 ^ Zpos p~0 = 2 ^ Zpos p * 2 ^ Zpos p.
Proof.
  replace (Zpos p~0) with (Zpos p + Zpos p) by lia.
  apply Z.pow_add_r; lia.
Qed.

Lemma pow2_xI (p : positive) : 2 ^ Zpos p~1 = 2 * (2 ^ Zpos p * 2 ^ Zpos p).
Proof.
  replace (Zpos p~1) with (1 + (Zpos p + Zpos p)) by lia.
  rewrite Z.pow_add_r by lia. rewrite Z.pow_add_r by lia. reflexivity.
Qed.

Lemma iter_shr_1_m (p : positive) :
  forall mrs : shr_record,
    0 <= shr_m mrs ->
    shr_m (iter_pos shr_1 p mrs) = shr_m mrs / 2 ^ Zpos p.
Proof.
  induction p as [p IH|p IH|]; intros mrs H; simpl iter_pos.
  - assert (P : 0 < 2 ^ Zpos p) by (apply Z.pow_pos_nonneg; lia).
    assert (H1 : 0 <= shr_m (shr_1 mrs)).
    { rewrite shr_1_m by exact H. apply Z.div_pos; lia. }
    assert (H2 : 0 <= shr_m (iter_pos shr_1 p (shr_1 mrs))).
    { rewrite IH by exact H1. apply Z.div_pos; [exact H1 | exact P]. }
    rewrite IH by exact H2. rewrite IH by exact H1. rewrite shr_1_m by exact H.
    rewrite pow2_xI. rewrite !Z.div_div by lia. reflexivity.
  - assert (P : 0 < 2 ^ Zpos p) by (apply Z.pow_pos_nonneg; lia).
    assert (H2 : 0 <= shr_m (iter_pos shr_1 p mrs)).
    { rewrite IH by exact H. apply Z.div_pos; [exact H | exact P]. }
    rewrite IH by exact H2. rewrite IH by exact H.
    rewrite pow2_xO. rewrite !Z.div_div by lia. reflexivity.
  - rewrite shr_1_m by exact H. reflexivity.
Qed.

Lemma shr_spec (mrs : shr_record) (e n : Z) :
  0 <= shr_m mrs ->
  shr_m (fst (shr mrs e n)) = shr_m mrs / 2 ^ Z.max n 0 /\
  snd (shr mrs e n) = e + Z.max n 0.
Proof.
  intros H. destruct n as [|p|p]; simpl.
  - rewrite Z.div_1_r. lia.
  - rewrite iter_shr_1_m by exact H. split; reflexivity.
  - rewrite Z.div_1_r. lia.
Qed.

Lemma shr_record_of_loc_m (m : Z) (l : location) :
  shr_m (shr_record_of_loc m l) = m.
Proof. destruct l as [|[]]; reflexivity. Qed.


Lemma shr_fexp_spec (m e : Z) (l : location) :
  0 <= m ->
  shr_m (fst (shr_fexp F64.prec F64.emax m e l)) = trunc_m m e /\
  snd (shr_fexp F64.prec F64.emax m e l) = trunc_e m e.
Proof.
  intros H. unfold shr_fexp, trunc_m, trunc_e, trunc_n.
  rewrite fexp_eq.
  pose proof (shr_spec (shr_record_of_loc m l) e
                (fexp64 (Zdigits2 m + e) - e)) as S.
  rewrite shr_record_of_loc_m in S. apply S. exact H.
Qed.

Lemma rne_bounds (m : Z) (l : location) :
  m <= round_nearest_even m l <= m + 1.
Proof.
  destruct l as [|[]]; simpl; try lia. destruct (Z.even m); lia.
Qed.

Lemma trunc_m_nonneg (m e : Z) : 0 <= m -> 0 <= trunc_m m e.
Proof.
  intros H. unfold trunc_m. apply Z.div_pos; [exact H|].
  apply Z.pow_pos_nonneg; unfold trunc_n; lia.
Qed.

(** The structure of a rounding: a truncation, a step of at most one
    unit, a second truncation. *)
Lemma round_aux_struct (s : bool) (mx ex : Z) (lx : location) :
  0 <= mx ->
  exists m2 : Z,
    trunc_m mx ex <= m2 <= trunc_m mx ex + 1 /\
    binary_round_aux F64.prec F64.emax s mx ex lx =
    match trunc_m m2 (trunc_e mx ex) with
    | Z0 => S754_zero s
    | Zpos m =>
        if trunc_e m2 (trunc_e mx ex) <=? 971
        then S754_finite s m (trunc_e m2 (trunc_e mx ex))
        else S754_infinity s
    | Zneg _ => S754_nan
    end.
Proof.
  intros H. unfold binary_round_aux.
  destruct (shr_fexp_spec mx ex lx H) as [M1 E1].
  destruct (shr_fexp F64.prec F64.emax mx ex lx) as [mrs1 e1].
  simpl in M1, E1. subst e1.
  set (m2 := round_nearest_even (shr_m mrs1) (loc_of_shr_record mrs1)).
  assert (B : trunc_m mx ex <= m2 <= trunc_m mx ex + 1).
  { unfold m2. rewrite <- M1. apply rne_bounds. }
  assert (H2 : 0 <= m2).
  { pose proof (trunc_m_nonneg mx ex H). lia. }
  destruct (shr_fexp_spec m2 (trunc_e mx ex) loc_Exact H2) as [M3 E3].
  destruct (shr_fexp F64.prec F64.emax m2 (trunc_e mx ex) loc_Exact)
    as [mrs3 e3].
  simpl in M3, E3. subst e3. rewrite M3.
  exists m2. split; [exact B | reflexivity].
Qed.

(** ** A truncation keeps a representable lower bound *)

Lemma Zdigits2_pos (p : positive) : Zdigits2 (Zpos p) = Zpos (digits2_pos p).
Proof. reflexivity. Qed.

Lemma dy_pos_inv (m e : Z) : (0 < dy m e)%Q -> 0 < m.
Proof.
  intros H. apply (dy_lt_inv 0 m e). unfold dy at 1.
  rewrite Qmult_0_l. exact H.
Qed.

Lemma dy_pos (p : positive) (e : Z) : (0 < dy (Zpos p) e)%Q.
Proof.
  unfold dy. apply Qmult_lt_0_compat; [reflexivity | apply bpow_pos].
Qed.

Lemma trunc_step_lower (mv : positive) (ev m e : Z) :
  canonical_mantissa F64.prec F64.emax mv ev = true ->
  (dy (Zpos mv) ev <= dy m e)%Q ->
  (dy (Zpos mv) ev <= dy (trunc_m m e) (trunc_e m e))%Q.
Proof.
  intros Hc HV.
  assert (Hm : 0 < m).
  { apply (dy_pos_inv m e). eapply Qlt_le_trans; [apply dy_pos | exact HV]. }
  unfold trunc_m, trunc_e, trunc_n.
  destruct (Z_le_gt_dec (fexp64 (Zdigits2 m + e) - e) 0) as [L|G].
  - rewrite Z.max_r by exact L. rewrite Z.div_1_r, Z.add_0_r. exact HV.
  - rewrite Z.max_l by lia.
    set (n := fexp64 (Zdigits2 m + e) - e) in *.
    destruct m as [|p|p]; try lia.
    pose proof (trunc_lower mv ev (dy (Zpos p) e) (Zdigits2 (Zpos p) + e)
                  (e + n) Hc HV) as T.
    assert (Hmu : (bpow (Zdigits2 (Zpos p) + e - 1) <= dy (Zpos p) e)%Q).
    { apply (dy_digits p e). }
    specialize (T Hmu).
    assert (He : e + n <= fexp64 (Zdigits2 (Zpos p) + e)) by (unfold n; lia).
    specialize (T He).
    assert (F : Qfloor (dy (Zpos p) e * bpow (- (e + n))) = Zpos p / 2 ^ n).
    { rewrite Zdiv_Qdiv. apply Qfloor_comp. unfold dy.
      rewrite <- Qmult_assoc, <- bpow_add.
      replace (e + - (e + n)) with (- n) by lia.
      unfold Qdiv. rewrite <- (bpow_Z n) by lia.
      apply Qmult_comp; [reflexivity|].
      unfold bpow. apply Qpower_opp. }
    rewrite F in T. exact T.
Qed.

(** ** Magnitudes *)

Lemma Zdigits2_log2 (m : Z) : 0 < m -> Zdigits2 m = Z.log2 m + 1.
Proof.
  intros H. destruct m as [|p|p]; try lia.
  rewrite Zdigits2_pos. pose proof (digits_bounds p) as B.
  assert (E : Z.log2 (Zpos p) = Zpos (digits2_pos p) - 1).
  { apply Z.log2_unique; [lia|].
    replace (Z.succ (Zpos (digits2_pos p) - 1)) with (Zpos (digits2_pos p))
      by lia. exact B. }
  lia.
Qed.

Lemma Zdigits2_nonneg (m : Z) : 0 <= Zdigits2 m.
Proof. destruct m; simpl; lia. Qed.

Lemma Zdigits2_mono (a b : Z) : 0 <= a <= b -> Zdigits2 a <= Zdigits2 b.
Proof.
  intros [Ha Hab]. destruct (Z.eq_dec a 0) as [->|Na].
  - apply Zdigits2_nonneg.
  - rewrite !Zdigits2_log2 by lia.
    pose proof (Z.log2_le_mono a b Hab). lia.
Qed.

Lemma Zdigits2_succ (m : Z) : 0 <= m -> Zdigits2 (m + 1) <= Zdigits2 m + 1.
Proof.
  intros H. destruct (Z.eq_dec m 0) as [->|N]; [simpl; lia|].
  rewrite !Zdigits2_log2 by lia.
  pose proof (Z.log2_succ_le m). unfold Z.succ in *. lia.
Qed.

Lemma Zdigits2_div (m n : Z) :
  0 <= m -> 0 <= n -> Zdigits2 (m / 2 ^ n) <= Z.max (Zdigits2 m - n) 0.
Proof.
  intros Hm Hn.
  destruct (Z.eq_dec (m / 2 ^ n) 0) as [E|N]; [rewrite E; simpl; lia|].
  assert (P : 0 < 2 ^ n) by (apply Z.pow_pos_nonneg; lia).
  assert (Hq : 0 < m / 2 ^ n).
  { pose proof (Z.div_pos m (2 ^ n) Hm P). lia. }
  assert (Hm' : 0 < m).
  { destruct (Z.eq_dec m 0) as [->|]; [rewrite Z.div_0_l in Hq; lia | lia]. }
  assert (Hle : n <= Z.log2 m).
  { pose proof (Z.mul_div_le m (2 ^ n) P) as M.
    assert (2 ^ n <= m) by nia.
    rewrite <- (Z.log2_pow2 n Hn). apply Z.log2_le_mono. assumption. }
  rewrite (Zdigits2_log2 _ Hq), (Zdigits2_log2 _ Hm').
  rewrite <- Z.shiftr_div_pow2 by exact Hn.
  rewrite Z.log2_shiftr by exact Hm'. lia.
Qed.

Lemma trunc_n_nonneg (m e : Z) : 0 <= trunc_n m e.
Proof. unfold trunc_n. lia. Qed.

Lemma trunc_e_max (m e : Z) :
  trunc_e m e = Z.max (fexp64 (Zdigits2 m + e)) e.
Proof. unfold trunc_e, trunc_n. lia. Qed.

Lemma trunc_mag (m e : Z) :
  0 <= m ->
  Zdigits2 (trunc_m m e) + trunc_e m e <= Z.max (Zdigits2 m + e) (trunc_e m e).
Proof.
  intros H. unfold trunc_m, trunc_e.
  pose proof (Zdigits2_div m (trunc_n m e) H (trunc_n_nonneg m e)). lia.
Qed.


(** What a rounding returns for a mantissa that is not negative and of
    moderate magnitude. *)
Lemma round_aux_mag (s : bool) (mx ex : Z) (lx : location) :
  0 <= mx -> magb mx ex <= 970 ->
  match binary_round_aux F64.prec F64.emax s mx ex lx with
  | S754_zero s' => s' = s
  | S754_finite s' m e =>
      s' = s /\ Zpos (digits2_pos m) + e <= magb mx ex + 1 /\ e <= magb mx ex
  | _ => False
  end.
Proof.
  intros H HB.
  destruct (round_aux_struct s mx ex lx H) as (m2 & B2 & ->).
  pose proof (trunc_m_nonneg mx ex H) as H1.
  assert (H2 : 0 <= m2) by lia.
  pose proof (trunc_m_nonneg m2 (trunc_e mx ex) H2) as H3.
  pose proof (trunc_mag mx ex H) as G1.
  pose proof (trunc_mag m2 (trunc_e mx ex) H2) as G3.
  pose proof (trunc_e_max mx ex) as E1.
  pose proof (trunc_e_max m2 (trunc_e mx ex)) as E3.
  assert (D2 : Zdigits2 m2 <= Zdigits2 (trunc_m mx ex) + 1).
  { eapply Z.le_trans; [apply (Zdigits2_mono m2 (trunc_m mx ex + 1)); lia|].
    apply Zdigits2_succ; exact H1. }
  unfold magb in *. unfold fexp64 in *.
  destruct (trunc_m m2 (trunc_e mx ex)) as [|m|m] eqn:E; try lia.
  - reflexivity.
  - rewrite Zdigits2_pos in G3.
    destruct (Z.leb_spec (trunc_e m2 (trunc_e mx ex)) 971); [|lia].
    repeat split; lia.
Qed.

Lemma round_aux_lower (mx ex : Z) (lx : location) (mv : positive) (ev : Z) :
  canonical_mantissa F64.prec F64.emax mv ev = true ->
  (dy (Zpos mv) ev <= dy mx ex)%Q ->
  magb mx ex <= 970 ->
  exists m e,
    binary_round_aux F64.prec F64.emax false mx ex lx = S754_finite false m e /\
    (dy (Zpos mv) ev <= dy (Zpos m) e)%Q /\
    Zpos (digits2_pos m) + e <= magb mx ex + 1 /\ e <= magb mx ex.
Proof.
  intros Hc HV HB.
  assert (H : 0 <= mx).
  { apply Z.lt_le_incl, (dy_pos_inv mx ex).
    eapply Qlt_le_trans; [apply dy_pos | exact HV]. }
  pose proof (round_aux_mag false mx ex lx H HB) as M.
  destruct (round_aux_struct false mx ex lx H) as (m2 & B2 & E).
  rewrite E in M |- *.
  pose proof (trunc_step_lower mv ev mx ex Hc HV) as L1.
  assert (L2 : (dy (Zpos mv) ev <= dy m2 (trunc_e mx ex))%Q).
  { eapply Qle_trans; [exact L1|]. apply dy_le. lia. }
  pose proof (trunc_step_lower mv ev m2 (trunc_e mx ex) Hc L2) as L3.
  destruct (trunc_m m2 (trunc_e mx ex)) as [|m|m] eqn:E3.
  - exfalso. pose proof (dy_pos mv ev) as P.
    unfold dy at 2 in L3. rewrite Qmult_0_l in L3.
    apply (Qlt_irrefl 0). eapply Qlt_le_trans; eauto.
  - destruct (trunc_e m2 (trunc_e mx ex) <=? 971); [|contradiction].
    destruct M as (_ & M1 & M2).
    exists m, (trunc_e m2 (trunc_e mx ex)). auto.
  - contradiction.
Qed.

(** ** Alignment *)

Lemma iter_xO_Z (m d : positive) : Zpos (Pos.iter xO m d) = Zpos m * 2 ^ Zpos d.
Proof.
  induction d as [|d IH] using Pos.peano_ind.
  - simpl. lia.
  - rewrite Pos.iter_succ. rewrite Pos2Z.inj_xO, IH.
    rewrite Pos2Z.inj_succ, Z.pow_succ_r by lia. ring.
Qed.

Lemma Zdigits2_mul_pow2 (m n : Z) :
  0 < m -> 0 <= n -> Zdigits2 (m * 2 ^ n) = Zdigits2 m + n.
Proof.
  intros Hm Hn.
  assert (P : 0 < 2 ^ n) by (apply Z.pow_pos_nonneg; lia).
  rewrite !Zdigits2_log2 by nia.
  rewrite Z.log2_mul_pow2 by lia. lia.
Qed.

Lemma shl_align_spec (mx : positive) (ex ex' : Z) :
  let '(m', e') := shl_align mx ex ex' in
  Zpos m' = Zpos mx * 2 ^ (ex - e') /\ e' = Z.min ex ex'.
Proof.
  unfold shl_align. destruct (ex' - ex) as [|d|d] eqn:E.
  - replace (ex - ex) with 0 by lia. simpl. lia.
  - replace (ex - ex) with 0 by lia. simpl. lia.
  - rewrite iter_xO_Z. replace (ex - ex') with (Zpos d) by lia. lia.
Qed.

Lemma shl_align_dy (mx : positive) (ex ex' : Z) :
  (dy (Zpos (fst (shl_align mx ex ex'))) (snd (shl_align mx ex ex'))
   == dy (Zpos mx) ex)%Q /\
  Zdigits2 (Zpos (fst (shl_align mx ex ex'))) + snd (shl_align mx ex ex')
  = Zdigits2 (Zpos mx) + ex /\
  snd (shl_align mx ex ex') = Z.min ex ex'.
Proof.
  pose proof (shl_align_spec mx ex ex') as S.
  destruct (shl_align mx ex ex') as [m' e']. cbn [fst snd]. destruct S as [Sm Se].
  assert (Hn : 0 <= ex - e') by lia.
  rewrite Sm. split; [|split].
  - rewrite <- (dy_shift (Zpos mx) ex (ex - e') Hn).
    replace (ex - (ex - e')) with e' by lia. reflexivity.
  - rewrite Zdigits2_mul_pow2 by lia. lia.
  - exact Se.
Qed.

(** ** Conversion of an integer, division, addition *)

Lemma binary_round_dy (s : bool) (p : positive) (e : Z) :
  exists mz ez,
    binary_round F64.prec F64.emax s p e =
    binary_round_aux F64.prec F64.emax s (Zpos mz) ez loc_Exact /\
    (dy (Zpos mz) ez == dy (Zpos p) e)%Q /\
    Zdigits2 (Zpos mz) + ez = Zdigits2 (Zpos p) + e /\
    ez <= e.
Proof.
  unfold binary_round.
  pose proof (shl_align_dy p e (fexp F64.prec F64.emax (Zpos (digits2_pos p) + e)))
    as (V & D & E).
  destruct (shl_align p e _) as [mz ez]. simpl in V, D, E.
  exists mz, ez. repeat split; trivial. lia.
Qed.

Lemma dy_int (z : Z) : (dy z 0 == inject_Z z)%Q.
Proof. unfold dy. rewrite bpow_0. ring. Qed.

Lemma magb_le (m e B : Z) :
  Zdigits2 m + e <= B -> e <= B -> -1074 <= B -> magb m e <= B.
Proof. unfold magb. lia. Qed.

Lemma of_int_lower (h : Z) (mv : positive) (ev : Z) :
  canonical_mantissa F64.prec F64.emax mv ev = true ->
  (dy (Zpos mv) ev <= inject_Z h)%Q ->
  Zdigits2 h <= 960 ->
  exists m e,
    F64.of_int h = S754_finite false m e /\
    (dy (Zpos mv) ev <= dy (Zpos m) e)%Q /\
    Zpos (digits2_pos m) + e <= Zdigits2 h + 1.
Proof.
  intros Hc HV HB.
  assert (Hh : 0 < h).
  { rewrite <- dy_int in HV. apply (dy_pos_inv h 0).
    eapply Qlt_le_trans; [apply dy_pos | exact HV]. }
  destruct h as [|p|p]; try lia.
  unfold F64.of_int, binary_normalize.
  destruct (binary_round_dy false p 0) as (mz & ez & -> & V & D & E).
  assert (HV' : (dy (Zpos mv) ev <= dy (Zpos mz) ez)%Q).
  { rewrite V, dy_int. exact HV. }
  assert (HM : magb (Zpos mz) ez <= Zdigits2 (Zpos p)).
  { pose proof (Zdigits2_nonneg (Zpos p)).
    apply magb_le; rewrite ?Zdigits2_pos in *; lia. }
  destruct (round_aux_lower (Zpos mz) ez loc_Exact mv ev Hc HV')
    as (m & e & R & L & M & _); [lia|].
  exists m, e. repeat split; trivial. lia.
Qed.

Lemma of_int_nonneg (n : Z) :
  0 <= n -> Zdigits2 n <= 960 ->
  F64.of_int n = S754_zero false \/
  exists m e,
    F64.of_int n = S754_finite false m e /\
    Zpos (digits2_pos m) + e <= Zdigits2 n + 1.
Proof.
  intros Hn HB. destruct n as [|p|p]; try lia; [left; reflexivity|].
  unfold F64.of_int, binary_normalize.
  destruct (binary_round_dy false p 0) as (mz & ez & -> & V & D & E).
  assert (HM : magb (Zpos mz) ez <= Zdigits2 (Zpos p)).
  { pose proof (Zdigits2_nonneg (Zpos p)).
    apply magb_le; rewrite ?Zdigits2_pos in *; lia. }
  pose proof (round_aux_mag false (Zpos mz) ez loc_Exact) as R.
  specialize (R ltac:(lia) ltac:(lia)).
  destruct (binary_round_aux _ _ _ _ _ _) as [s'| | |s' m e]; try contradiction.
  - left. subst; reflexivity.
  - right. destruct R as (-> & M & _). exists m, e. split; [reflexivity | lia].
Qed.

Lemma dy_lt_bpow_digits (p : positive) (e k : Z) :
  (dy (Zpos p) e < bpow k)%Q -> Zpos (digits2_pos p) + e <= k.
Proof.
  intros H. destruct (Z_le_gt_dec (Zpos (digits2_pos p) + e) k) as [L|G];
    [exact L|]. exfalso.
  pose proof (proj1 (dy_digits p e)) as D.
  assert (B : (bpow k <= bpow (Zpos (digits2_pos p) + e - 1))%Q)
    by (apply bpow_le; lia).
  apply (Qlt_irrefl (bpow k)).
  eapply Qle_lt_trans; [exact B|]. eapply Qle_lt_trans; [exact D | exact H].
Qed.

Lemma div_core_spec (m1 m2 : positive) (e1 e2 : Z) :
  let e' := Z.min (fexp64 (Zdigits2 (Zpos m1) + e1 - (Zdigits2 (Zpos m2) + e2)))
                  (e1 - e2) in
  exists l,
    SFdiv_core_binary F64.prec F64.emax (Zpos m1) e1 (Zpos m2) e2 =
    (Zpos m1 * 2 ^ (e1 - e2 - e') / Zpos m2, e', l).
Proof.
  intros e'. unfold SFdiv_core_binary. rewrite fexp_eq. fold e'.
  set (s := e1 - e2 - e').
  assert (Hs : 0 <= s) by (unfold s, e'; lia).
  assert (E : match s with
              | Zpos _ => Z.shiftl (Zpos m1) s
              | Z0 => Zpos m1
              | Zneg _ => 0
              end = Zpos m1 * 2 ^ s).
  { destruct s as [|p|p] eqn:Es; try lia.
    rewrite Z.shiftl_mul_pow2 by lia. reflexivity. }
  rewrite E. unfold Z.div.
  destruct (Z.div_eucl (Zpos m1 * 2 ^ s) (Zpos m2)) as [q r].
  eexists. reflexivity.
Qed.

Lemma bpow_opp (e : Z) : (bpow (- e) == / bpow e)%Q.
Proof. unfold bpow. apply Qpower_opp. Qed.

Lemma bpow_neq (e : Z) : ~ (bpow e == 0)%Q.
Proof. pose proof (bpow_pos e) as P. intros E. rewrite E in P. discriminate P. Qed.

Lemma div_floor (m1 m2 : positive) (e1 e2 e' : Z) :
  0 <= e1 - e2 - e' ->
  Qfloor ((dy (Zpos m1) e1 / dy (Zpos m2) e2) * bpow (- e')) =
  Zpos m1 * 2 ^ (e1 - e2 - e') / Zpos m2.
Proof.
  intros Hs. rewrite Zdiv_Qdiv. apply Qfloor_comp.
  rewrite inject_Z_mult, <- (bpow_Z _ Hs).
  assert (E : (bpow e1 == bpow (e1 - e2 - e') * bpow e2 * bpow e')%Q).
  { rewrite <- !bpow_add. replace (e1 - e2 - e' + e2 + e') with e1 by lia.
    reflexivity. }
  unfold dy. rewrite E, bpow_opp.
  field. repeat split; try apply bpow_neq. discriminate.
Qed.

Lemma div_enclosure (m1 m2 : positive) (e1 e2 : Z) :
  let mu := Zdigits2 (Zpos m1) + e1 - (Zdigits2 (Zpos m2) + e2) in
  (bpow (mu - 1) <= dy (Zpos m1) e1 / dy (Zpos m2) e2)%Q /\
  (dy (Zpos m1) e1 / dy (Zpos m2) e2 < bpow (mu + 1))%Q.
Proof.
  intros mu.
  assert (Emu : mu = Zpos (digits2_pos m1) + e1 - (Zpos (digits2_pos m2) + e2))
    by reflexivity.
  clearbody mu.
  pose proof (dy_digits m1 e1) as [L1 U1].
  pose proof (dy_digits m2 e2) as [L2 U2].
  pose proof (dy_pos m2 e2) as P2.
  split.
  - apply Qle_shift_div_l; [exact P2|].
    eapply Qle_trans; [|exact L1].
    apply Qle_trans with (bpow (mu - 1) * bpow (Zpos (digits2_pos m2) + e2))%Q.
    + apply Qmult_le_l; [apply bpow_pos | apply Qlt_le_weak; exact U2].
    + rewrite <- bpow_add. apply bpow_le. lia.
  - apply Qlt_shift_div_r; [exact P2|].
    eapply Qlt_le_trans; [exact U1|].
    apply Qle_trans
      with (bpow (mu + 1) * bpow (Zpos (digits2_pos m2) + e2 - 1))%Q.
    + rewrite <- bpow_add. apply bpow_le. lia.
    + apply Qmult_le_l; [apply bpow_pos | exact L2].
Qed.

Lemma div_quotient_mag (m1 m2 : positive) (e1 e2 : Z) :
  let mu := Zdigits2 (Zpos m1) + e1 - (Zdigits2 (Zpos m2) + e2) in
  let e' := Z.min (fexp64 mu) (e1 - e2) in
  let q := Zpos m1 * 2 ^ (e1 - e2 - e') / Zpos m2 in
  0 <= q /\ magb q e' <= Z.max (mu + 1) (-1074).
Proof.
  intros mu e' q.
  assert (Hs : 0 <= e1 - e2 - e') by (unfold e'; lia).
  assert (P : 0 < 2 ^ (e1 - e2 - e')) by (apply Z.pow_pos_nonneg; lia).
  assert (Hq : 0 <= q) by (unfold q; apply Z.div_pos; nia).
  split; [exact Hq|].
  assert (He : e' <= Z.max (mu + 1) (-1074)) by (unfold e', fexp64; lia).
  apply magb_le; try lia.
  destruct q as [|p|p] eqn:Eq; try lia; [simpl; lia|].
  rewrite Zdigits2_pos.
  assert (Zpos (digits2_pos p) + e' <= mu + 1); [|lia].
  apply dy_lt_bpow_digits.
  eapply Qle_lt_trans; [|apply (div_enclosure m1 m2 e1 e2)].
  rewrite <- Eq. unfold q. rewrite <- (div_floor m1 m2 e1 e2 e' Hs).
  apply dy_floor.
Qed.

Lemma div_lower (m1 m2 mv : positive) (e1 e2 ev : Z) :
  canonical_mantissa F64.prec F64.emax mv ev = true ->
  (dy (Zpos mv) ev * dy (Zpos m2) e2 <= dy (Zpos m1) e1)%Q ->
  Z.max (Zdigits2 (Zpos m1) + e1 - (Zdigits2 (Zpos m2) + e2) + 1) (-1074)
  <= 970 ->
  exists m e,
    F64.div (S754_finite false m1 e1) (S754_finite false m2 e2) =
    S754_finite false m e /\
    (dy (Zpos mv) ev <= dy (Zpos m) e)%Q /\
    Zpos (digits2_pos m) + e <=
    Z.max (Zdigits2 (Zpos m1) + e1 - (Zdigits2 (Zpos m2) + e2) + 1) (-1074) + 1.
Proof.
  intros Hc HV HB.
  set (mu := Zdigits2 (Zpos m1) + e1 - (Zdigits2 (Zpos m2) + e2)) in *.
  unfold F64.div, SFdiv.
  destruct (div_core_spec m1 m2 e1 e2) as (l & ->). fold mu.
  set (e' := Z.min (fexp64 mu) (e1 - e2)).
  set (q := Zpos m1 * 2 ^ (e1 - e2 - e') / Zpos m2).
  destruct (div_quotient_mag m1 m2 e1 e2) as [Hq HM]. fold mu e' q in Hq, HM.
  assert (Hs : 0 <= e1 - e2 - e') by (unfold e'; lia).
  assert (HVx : (dy (Zpos mv) ev <= dy (Zpos m1) e1 / dy (Zpos m2) e2)%Q).
  { apply Qle_shift_div_l; [apply dy_pos | exact HV]. }
  assert (HVq : (dy (Zpos mv) ev <= dy q e')%Q).
  { unfold q. rewrite <- (div_floor m1 m2 e1 e2 e' Hs).
    apply (trunc_lower mv ev _ mu e' Hc HVx).
    - apply (div_enclosure m1 m2 e1 e2).
    - unfold e'. lia. }
  destruct (round_aux_lower q e' l mv ev Hc HVq) as (m & e & R & L & M & _);
    [lia|].
  exists m, e. simpl xorb. repeat split; trivial. lia.
Qed.

Lemma div_nonneg (m1 m2 : positive) (e1 e2 : Z) :
  Z.max (Zdigits2 (Zpos m1) + e1 - (Zdigits2 (Zpos m2) + e2) + 1) (-1074)
  <= 970 ->
  F64.div (S754_finite false m1 e1) (S754_finite false m2 e2) =
  S754_zero false \/
  exists m e,
    F64.div (S754_finite false m1 e1) (S754_finite false m2 e2) =
    S754_finite false m e /\
    Zpos (digits2_pos m) + e <=
    Z.max (Zdigits2 (Zpos m1) + e1 - (Zdigits2 (Zpos m2) + e2) + 1) (-1074) + 1.
Proof.
  intros HB.
  set (mu := Zdigits2 (Zpos m1) + e1 - (Zdigits2 (Zpos m2) + e2)) in *.
  unfold F64.div, SFdiv.
  destruct (div_core_spec m1 m2 e1 e2) as (l & ->). fold mu.
  set (e' := Z.min (fexp64 mu) (e1 - e2)).
  set (q := Zpos m1 * 2 ^ (e1 - e2 - e') / Zpos m2).
  destruct (div_quotient_mag m1 m2 e1 e2) as [Hq HM]. fold mu e' q in Hq, HM.
  pose proof (round_aux_mag (xorb false false) q e' l Hq) as R.
  specialize (R ltac:(lia)). simpl xorb in *.
  destruct (binary_round_aux _ _ _ _ _ _) as [s'| | |s' m e]; try contradiction.
  - left. subst; reflexivity.
  - right. destruct R as (-> & M & _). exists m, e. split; [reflexivity | lia].
Qed.

Lemma add_lower (ma my mv : positive) (ea ey ev : Z) :
  canonical_mantissa F64.prec F64.emax mv ev = true ->
  (dy (Zpos mv) ev <= dy (Zpos ma) ea)%Q ->
  Z.max (Z.max (Zdigits2 (Zpos ma) + ea) (Zdigits2 (Zpos my) + ey) + 1) (-1074)
  <= 970 ->
  exists m e,
    F64.add (S754_finite false ma ea) (S754_finite false my ey) =
    S754_finite false m e /\
    (dy (Zpos mv) ev <= dy (Zpos m) e)%Q /\
    Zpos (digits2_pos m) + e <=
    Z.max (Z.max (Zdigits2 (Zpos ma) + ea) (Zdigits2 (Zpos my) + ey) + 1)
          (-1074) + 1.
Proof.
  intros Hc HV HB.
  set (B := Z.max (Zdigits2 (Zpos ma) + ea) (Zdigits2 (Zpos my) + ey)) in *.
  unfold F64.add, SFadd. set (ez := Z.min ea ey).
  pose proof (shl_align_dy ma ea ez) as (Va & Da & Ea).
  pose proof (shl_align_dy my ey ez) as (Vy & Dy & Ey).
  replace (Z.min ea ez) with ez in Ea by (unfold ez; lia).
  replace (Z.min ey ez) with ez in Ey by (unfold ez; lia).
  rewrite Ea in Va. rewrite Ey in Vy.
  set (A := fst (shl_align ma ea ez)) in *.
  set (Y := fst (shl_align my ey ez)) in *.
  simpl cond_Zopp. change (Zpos A + Zpos Y) with (Zpos (A + Y)).
  unfold binary_normalize.
  destruct (binary_round_dy false (A + Y) ez) as (mz & ez' & -> & V & D & E).
  assert (S : (dy (Zpos (A + Y)) ez == dy (Zpos ma) ea + dy (Zpos my) ey)%Q).
  { rewrite <- Va, <- Vy. unfold dy. rewrite Pos2Z.inj_add, inject_Z_plus.
    ring. }
  assert (HV' : (dy (Zpos mv) ev <= dy (Zpos mz) ez')%Q).
  { rewrite V, S. eapply Qle_trans; [exact HV|].
    pose proof (dy_pos my ey). lra. }
  assert (HD : Zdigits2 (Zpos (A + Y)) + ez <= B + 1).
  { rewrite Zdigits2_pos. apply dy_lt_bpow_digits. rewrite S.
    pose proof (proj2 (dy_digits ma ea)) as Ua.
    pose proof (proj2 (dy_digits my ey)) as Uy.
    rewrite <- !Zdigits2_pos in Ua, Uy.
    assert (La : (bpow (Zdigits2 (Zpos ma) + ea) <= bpow B)%Q)
      by (apply bpow_le; unfold B; lia).
    assert (Ly : (bpow (Zdigits2 (Zpos my) + ey) <= bpow B)%Q)
      by (apply bpow_le; unfold B; lia).
    assert (E2 : (bpow (B + 1) == bpow B * (2 # 1))%Q).
    { rewrite bpow_add. reflexivity. }
    rewrite E2. lra. }
  assert (He : ez' <= B).
  { pose proof (Zdigits2_nonneg (Zpos ma)). rewrite Zdigits2_pos in *.
    unfold B, ez in *. rewrite !Zdigits2_pos. lia. }
  assert (HM : magb (Zpos mz) ez' <= Z.max (B + 1) (-1074)).
  { apply magb_le; lia. }
  destruct (round_aux_lower (Zpos mz) ez' loc_Exact mv ev Hc HV')
    as (m & e & R & L & M & _); [lia|].
  exists m, e. repeat split; trivial. lia.
Qed.

Lemma to_int_lower (m : positive) (e k : Z) :
  (inject_Z k <= dy (Zpos m) e)%Q ->
  Zpos (digits2_pos m) + e <= 62 ->
  k <= F64.to_int (S754_finite false m e).
Proof.
  intros Hk HB. unfold F64.to_int.
  set (a := match e with
            | Zneg p => Z.shiftr (Zpos m) (Zpos p)
            | _ => Z.shiftl (Zpos m) e
            end).
  assert (Ea : a = Qfloor (dy (Zpos m) e)).
  { unfold a. destruct e as [|p|p].
    - rewrite Z.shiftl_0_r. rewrite <- (Qfloor_Z (Zpos m)) at 1.
      apply Qfloor_comp. rewrite dy_int. reflexivity.
    - rewrite Z.shiftl_mul_pow2 by lia.
      rewrite <- (Qfloor_Z (Zpos m * 2 ^ Zpos p)). apply Qfloor_comp.
      unfold dy. rewrite inject_Z_mult, <- bpow_Z by lia. reflexivity.
    - rewrite Z.shiftr_div_pow2 by lia. rewrite Zdiv_Qdiv.
      apply Qfloor_comp. unfold dy, Qdiv. rewrite <- bpow_Z by lia.
      change (Zneg p) with (- Zpos p). rewrite bpow_opp. reflexivity. }
  assert (Hka : k <= a).
  { rewrite Ea. rewrite <- (Qfloor_Z k). apply Qfloor_resp_le. exact Hk. }
  assert (Ha0 : 0 <= a).
  { rewrite Ea. rewrite <- (Qfloor_Z 0). apply Qfloor_resp_le.
    apply Qlt_le_weak, dy_pos. }
  assert (Ha : a < 2 ^ 62).
  { assert (U : (dy (Zpos m) e < bpow 62)%Q).
    { eapply Qlt_le_trans; [apply (dy_digits m e)|]. apply bpow_le. exact HB. }
    pose proof (Qfloor_le (dy (Zpos m) e)) as F. rewrite <- Ea in F.
    rewrite (bpow_Z 62) in U by lia.
    rewrite Zlt_Qlt. eapply Qle_lt_trans; eauto. }
  simpl cond_Zopp.
  assert (R : Int64.in_range a = true).
  { unfold Int64.in_range, Int64.min, Int64.max.
    change (2 ^ 63) with 9223372036854775808.
    change (2 ^ 62) with 4611686018427387904 in Ha.
    apply andb_true_iff. split; apply Z.leb_le; lia. }
  rewrite R. exact Hka.
Qed.

Lemma canon_exists (z : Z) :
  0 < z -> Zdigits2 z <= 53 ->
  exists mv ev,
    canonical_mantissa F64.prec F64.emax mv ev = true /\
    (dy (Zpos mv) ev == inject_Z z)%Q.
Proof.
  intros Hz HD.
  assert (D1 : 1 <= Zdigits2 z).
  { rewrite Zdigits2_log2 by exact Hz. pose proof (Z.log2_nonneg z). lia. }
  set (D := Zdigits2 z) in *.
  assert (P : 0 < 2 ^ (53 - D)) by (apply Z.pow_pos_nonneg; lia).
  assert (Hm : 0 < z * 2 ^ (53 - D)) by nia.
  exists (Z.to_pos (z * 2 ^ (53 - D))), (D - 53).
  assert (Em : Zpos (Z.to_pos (z * 2 ^ (53 - D))) = z * 2 ^ (53 - D))
    by (apply Z2Pos.id; exact Hm).
  split.
  - unfold canonical_mantissa. apply Z.eqb_eq. rewrite fexp_eq.
    rewrite <- Zdigits2_pos, Em.
    rewrite Zdigits2_mul_pow2 by lia. fold D. unfold fexp64. lia.
  - rewrite Em.
    replace (D - 53) with (0 - (53 - D)) by lia.
    rewrite (dy_shift z 0 (53 - D)) by lia. apply dy_int.
Qed.


Lemma of_int_24 : F64.of_int 24 = S754_finite false 6755399441055744 (-48).
Proof. vm_compute. reflexivity. Qed.

Lemma of_int_hour :
  F64.of_int 3600000000000 = S754_finite false 7372800000000000 (-11).
Proof. vm_compute. reflexivity. Qed.

Lemma dy_24 : (dy 6755399441055744 (-48) == inject_Z 24)%Q.
Proof. vm_compute. reflexivity. Qed.

Lemma Zdigits2_le (a b k : Z) :
  0 <= a <= b -> Zdigits2 b = k -> Zdigits2 a <= k.
Proof. intros H <-. apply Zdigits2_mono. exact H. Qed.

(** The fraction of an hour: zero or a positive value below 8. *)
Lemma Hours_fraction (n : Z) :
  0 <= n < Hour ->
  F64.div (F64.of_int n) (F64.of_int 3600000000000) = S754_zero false \/
  exists m e,
    F64.div (F64.of_int n) (F64.of_int 3600000000000) = S754_finite false m e /\
    Zpos (digits2_pos m) + e <= 3.
Proof.
  intros Hn. rewrite of_int_hour.
  assert (Dn : Zdigits2 n <= 42).
  { apply (Zdigits2_le n (Hour - 1)); [lia | vm_compute; reflexivity]. }
  destruct (of_int_nonneg n) as [-> | (mb & eb & -> & Mb)]; try lia.
  - left. reflexivity.
  - assert (B : Z.max (Zdigits2 (Zpos mb) + eb
                       - (Zdigits2 7372800000000000 + -11) + 1) (-1074) <= 2).
    { rewrite Zdigits2_pos.
      change (Zdigits2 7372800000000000) with 53. lia. }
    destruct (div_nonneg mb 7372800000000000 eb (-11)) as [E | (m & e & E & M)];
      try lia.
    + left. exact E.
    + right. exists m, e. split; [exact E | lia].
Qed.

(** ** Signs *)

Lemma round_aux_sign (s : bool) (mx ex : Z) (lx : location) :
  0 <= mx ->
  match binary_round_aux F64.prec F64.emax s mx ex lx with
  | S754_nan => False
  | S754_zero s' | S754_infinity s' | S754_finite s' _ _ => s' = s
  end.
Proof.
  intros H. destruct (round_aux_struct s mx ex lx H) as (m2 & B & ->).
  pose proof (trunc_m_nonneg mx ex H) as H1.
  pose proof (trunc_m_nonneg m2 (trunc_e mx ex) ltac:(lia)) as H3.
  destruct (trunc_m m2 (trunc_e mx ex)) as [|m|m]; try lia; try reflexivity.
  destruct (_ <=? 971); reflexivity.
Qed.

Lemma round_aux_nonpos (mx ex : Z) (lx : location) :
  0 <= mx -> nonpos (binary_round_aux F64.prec F64.emax true mx ex lx).
Proof.
  intros H. pose proof (round_aux_sign true mx ex lx H) as S.
  destruct (binary_round_aux _ _ _ _ _ _) as [s'|s'| |s' m e]; simpl;
    try subst s'; trivial.
Qed.

Lemma binary_round_nonpos (p : positive) (e : Z) :
  nonpos (binary_round F64.prec F64.emax true p e).
Proof.
  destruct (binary_round_dy true p e) as (mz & ez & -> & _).
  apply round_aux_nonpos. lia.
Qed.

Lemma of_int_nonpos (h : Z) : h <= 0 -> nonpos (F64.of_int h).
Proof.
  intros H. destruct h as [|p|p]; try lia; [exact I|].
  unfold F64.of_int, binary_normalize. apply binary_round_nonpos.
Qed.

Lemma div_nonpos (x : float64) (m2 : positive) (e2 : Z) :
  nonpos x -> nonpos (F64.div x (S754_finite false m2 e2)).
Proof.
  destruct x as [s|[|]| |[|] m1 e1]; simpl; intros H; try contradiction;
    trivial.
  destruct (div_core_spec m1 m2 e1 e2) as (l & E).
  unfold F64.div, SFdiv. rewrite E. simpl xorb.
  apply round_aux_nonpos.
  apply Z.div_pos; [|lia].
  apply Z.mul_nonneg_nonneg; [lia|]. apply Z.pow_nonneg. lia.
Qed.

Lemma add_nonpos (x y : float64) :
  nonpos x -> nonpos y -> nonpos (F64.add x y).
Proof.
  destruct x as [sx|[|]| |[|] mx ex], y as [sy|[|]| |[|] my ey]; simpl;
    intros Hx Hy; try contradiction; trivial.
  - destruct sx, sy; exact I.
  - unfold F64.add, SFadd. simpl cond_Zopp.
    set (A := fst (shl_align mx ex (Z.min ex ey))).
    set (B := fst (shl_align my ey (Z.min ex ey))).
    change (- Zpos A + - Zpos B) with (Zneg (A + B)).
    unfold binary_normalize. apply binary_round_nonpos.
Qed.

Lemma to_int_nonpos (x : float64) : nonpos x -> F64.to_int x <= 0.
Proof.
  assert (M : Int64.min <= 0) by (vm_compute; discriminate).
  destruct x as [s|[|]| |[|] m e]; simpl; intros H; try contradiction;
    try lia.
  set (a := match e with
            | Zneg p => Z.shiftr (Zpos m) (Zpos p)
            | _ => Z.shiftl (Zpos m) e
            end).
  assert (Ha : 0 <= a).
  { unfold a. destruct e; [apply Z.shiftl_nonneg | apply Z.shiftl_nonneg
                          | apply Z.shiftr_nonneg]; lia. }
  destruct (Int64.in_range (- a)); lia.
Qed.

(** An age that is zero or negative is of zero days or fewer. *)
Lemma Days_nonpos (d : Duration) : d <= 0 -> Days d <= 0.
Proof.
  intros H. unfold Days, Hours. apply to_int_nonpos.
  rewrite of_int_24. apply div_nonpos.
  assert (HH : 0 < Hour) by reflexivity.
  apply add_nonpos.
  - apply of_int_nonpos. apply Z.quot_le_upper_bound; lia.
  - rewrite of_int_hour. apply div_nonpos. apply of_int_nonpos.
    apply Z.rem_nonpos; lia.
Qed.

Lemma exact_days_check :
  all_below (fun k => Days (k * Day) =? k) 367 = true.
Proof. vm_compute. reflexivity. Qed.

Lemma all_below_spec (P : Z -> bool) (n : nat) :
  all_below P n = true ->
  forall k : Z, 0 <= k < Z.of_nat n -> P k = true.
Proof.
  induction n as [|n IH]; intros H k Hk; [lia|].
  simpl in H. apply andb_true_iff in H. destruct H as [H0 H1].
  destruct (Z.eq_dec k (Z.of_nat n)) as [->|N]; [exact H0|].
  apply IH; [exact H1 | lia].
Qed.

(** An age of a whole number of days, up to 366, is of that many days. *)
Lemma Days_exact (k : Z) : 0 <= k <= 366 -> Days (k * Day) = k.
Proof.
  intros H. apply Z.eqb_eq.
  apply (all_below_spec (fun k => Days (k * Day) =? k) 367 exact_days_check).
  lia.
Qed.

(** ** The days of an age *)

(** The quotient [d.Hours() / 24] for an age of an hour or more: a finite
    positive value, above every float64 that is below the whole hours
    divided by 24. *)
Lemma Days_quotient (d : Z) (mv mk : positive) (ev ek : Z) :
  0 <= d <= Int64.max ->
  canonical_mantissa F64.prec F64.emax mv ev = true ->
  canonical_mantissa F64.prec F64.emax mk ek = true ->
  (dy (Zpos mv) ev <= inject_Z (d / Hour))%Q ->
  (dy (Zpos mk) ek * inject_Z 24 <= dy (Zpos mv) ev)%Q ->
  exists mq eq,
    F64.div (Hours d) (F64.of_int 24) = S754_finite false mq eq /\
    (dy (Zpos mk) ek <= dy (Zpos mq) eq)%Q /\
    Zpos (digits2_pos mq) + eq <= 22.
Proof.
  intros [Hd0 Hmax] Cv Ck Vh Vk. unfold Hours.
  assert (HH : Hour = 3600000000000) by reflexivity.
  rewrite Z.quot_div_nonneg, Z.rem_mod_nonneg by (rewrite ?HH; lia).
  set (h := d / Hour) in *. set (n := d mod Hour).
  assert (Hn : 0 <= n < Hour) by (apply Z.mod_pos_bound; rewrite HH; lia).
  assert (Hh' : h <= 2562047).
  { unfold h. rewrite HH. unfold Int64.max in Hmax.
    change (2 ^ 63) with 9223372036854775808 in Hmax.
    assert (d / 3600000000000 < 2562048); [|lia].
    apply Z.div_lt_upper_bound; lia. }
  assert (Hh0 : 0 <= h) by (unfold h; apply Z.div_pos; rewrite ?HH; lia).
  assert (Dh : Zdigits2 h <= 22).
  { apply (Zdigits2_le h 2562047); [lia | vm_compute; reflexivity]. }
  destruct (of_int_lower h mv ev Cv Vh) as (ma & ea & Ea & La & Ma); [lia|].
  rewrite Ea.
  assert (S : exists ms es,
             F64.add (S754_finite false ma ea)
               (F64.div (F64.of_int n) (F64.of_int 3600000000000)) =
             S754_finite false ms es /\
             (dy (Zpos mv) ev <= dy (Zpos ms) es)%Q /\
             Zpos (digits2_pos ms) + es <= 25).
  { destruct (Hours_fraction n Hn) as [-> | (my & ey & -> & My)].
    - exists ma, ea. split; [reflexivity|]. split; [exact La | lia].
    - destruct (add_lower ma my mv ea ey ev Cv La) as (ms & es & Es & Ls & Ms).
      + rewrite !Zdigits2_pos. lia.
      + exists ms, es. split; [exact Es|]. split; [exact Ls|].
        rewrite !Zdigits2_pos in Ms. lia. }
  destruct S as (ms & es & -> & Ls & Ms).
  rewrite of_int_24.
  destruct (div_lower ms 6755399441055744 mk es (-48) ek Ck)
    as (mq & eq & -> & Lq & Mq).
  - rewrite dy_24. eapply Qle_trans; [exact Vk | exact Ls].
  - rewrite Zdigits2_pos. change (Zdigits2 6755399441055744) with 53. lia.
  - exists mq, eq. split; [reflexivity|]. split; [exact Lq|].
    rewrite Zdigits2_pos in Mq.
    change (Zdigits2 6755399441055744) with 53 in Mq. lia.
Qed.

(** The days computed for an age of [k] whole days or more are [k] or
    more. *)
Lemma Days_lower (d k : Z) :
  1 <= k -> k * Day <= d -> d <= Int64.max -> k <= Days d.
Proof.
  intros Hk Hd Hmax. unfold Days.
  assert (HH : Hour = 3600000000000) by reflexivity.
  assert (HD : Day = 24 * Hour) by reflexivity.
  assert (Hd0 : 0 <= d) by (rewrite HD, HH in Hd; lia).
  assert (Hh : 24 * k <= d / Hour).
  { rewrite HD, HH in Hd. rewrite HH. apply Z.div_le_lower_bound; lia. }
  assert (Hh' : d / Hour <= 2562047).
  { rewrite HH. unfold Int64.max in Hmax.
    change (2 ^ 63) with 9223372036854775808 in Hmax.
    assert (d / 3600000000000 < 2562048); [|lia].
    apply Z.div_lt_upper_bound; lia. }
  assert (D24k : Zdigits2 (24 * k) <= 22).
  { apply (Zdigits2_le (24 * k) 2562047); [lia | vm_compute; reflexivity]. }
  assert (Dk : Zdigits2 k <= 22).
  { eapply Z.le_trans; [apply (Zdigits2_mono k (24 * k)); lia | exact D24k]. }
  destruct (canon_exists (24 * k)) as (mv & ev & Cv & Vv); try lia.
  destruct (canon_exists k) as (mk & ek & Ck & Vk); try lia.
  destruct (Days_quotient d mv mk ev ek) as (mq & eq & -> & Lq & Mq);
    trivial; try lia.
  - rewrite Vv, <- Zle_Qle. exact Hh.
  - rewrite Vv, Vk, <- inject_Z_mult, <- Zle_Qle. lia.
  - apply to_int_lower; [rewrite <- Vk; exact Lq | lia].
Qed.

Lemma to_int_nonneg (m : positive) (e : Z) :
  Zpos (digits2_pos m) + e <= 62 -> 0 <= F64.to_int (S754_finite false m e).
Proof.
  intros H. apply to_int_lower; [|exact H].
  apply Qlt_le_weak, dy_pos.
Qed.

(** An age that is not negative is of zero days or more. *)
Lemma Days_nonneg (d : Z) : 0 <= d <= Int64.max -> 0 <= Days d.
Proof.
  intros [Hd0 Hmax]. unfold Days.
  assert (HH : Hour = 3600000000000) by reflexivity.
  destruct (Z_le_gt_dec 1 (d / Hour)) as [H1|H0].
  - (* an hour or more *)
    destruct (canon_exists 1) as (mv & ev & Cv & Vv); try lia;
      [vm_compute; discriminate|].
    assert (Ck : canonical_mantissa F64.prec F64.emax 4503599627370496 (-57)
                 = true) by (vm_compute; reflexivity).
    destruct (Days_quotient d mv 4503599627370496 ev (-57))
      as (mq & eq & -> & Lq & Mq); trivial; try lia.
    + rewrite Vv, <- Zle_Qle. exact H1.
    + rewrite Vv. vm_compute. discriminate.
    + apply to_int_nonneg. lia.
  - (* less than an hour *)
    assert (E : d / Hour = 0).
    { pose proof (Z.div_pos d Hour Hd0 ltac:(rewrite HH; lia)). lia. }
    unfold Hours.
    rewrite Z.quot_div_nonneg, Z.rem_mod_nonneg by (rewrite ?HH; lia).
    rewrite E. change (F64.of_int 0) with (S754_zero false).
    assert (Hn : 0 <= d mod Hour < Hour)
      by (apply Z.mod_pos_bound; rewrite HH; lia).
    destruct (Hours_fraction (d mod Hour) Hn) as [-> | (my & ey & -> & My)].
    + vm_compute. discriminate.
    + change (F64.add (S754_zero false) (S754_finite false my ey))
        with (S754_finite false my ey).
      rewrite of_int_24.
      destruct (div_nonneg my 6755399441055744 ey (-48))
        as [-> | (mq & eq & -> & Mq)].
      * rewrite Zdigits2_pos. change (Zdigits2 6755399441055744) with 53. lia.
      * simpl. lia.
      * apply to_int_nonneg. rewrite Zdigits2_pos in Mq.
        change (Zdigits2 6755399441055744) with 53 in Mq. lia.
Qed.

(** The days computed for an age are never fewer than its whole days. *)
Lemma Days_ge_quot (d : Z) : 0 <= d <= Int64.max -> Z.quot d Day <= Days d.
Proof.
  intros H. assert (HD : Day = 86400000000000) by reflexivity.
  rewrite Z.quot_div_nonneg by (rewrite ?HD; lia).
  destruct (Z_le_gt_dec 1 (d / Day)) as [H1|H0].
  - apply Days_lower; try lia.
    rewrite Z.mul_comm. apply Z.mul_div_le. rewrite HD; lia.
  - pose proof (Days_nonneg d H). lia.
Qed.

(** ** Locations *)

Lemma half_Q (t : Q) : (t * bpow (-1) == t / (2 # 1))%Q.
Proof. reflexivity. Qed.

Lemma shr_1_located (mrs : shr_record) (t : Q) :
  0 <= shr_m mrs -> located mrs t -> located (shr_1 mrs) (t / (2 # 1)).
Proof.
  destruct mrs as [m r s]; unfold located, shr_1; cbn [shr_m shr_r shr_s].
  intros Hm (L & U & E).
  destruct m as [|[p|p|]|p]; cbn [shr_m shr_r shr_s]; try lia.
  - (* 0 *)
    change (inject_Z (0 + 1)) with 1%Q in *. change (inject_Z 0) with 0%Q in *.
    split; [|split].
    + apply Qle_shift_div_l; [reflexivity | lra].
    + apply Qlt_shift_div_r; [reflexivity | lra].
    + intros Et. assert (Et' : (t == 0)%Q).
      { apply (Qmult_inj_r _ _ (/ (2 # 1))) ; [discriminate|].
        unfold Qdiv in Et. rewrite Et. reflexivity. }
      destruct (E Et') as [-> ->]. split; reflexivity.
  - (* 2p+1 *)
    rewrite Pos2Z.inj_xI in L, U, E.
    rewrite inject_Z_plus, inject_Z_mult in L.
    replace (2 * Zpos p + 1 + 1) with (2 * (Zpos p + 1)) in U by lia.
    rewrite inject_Z_mult in U.
    change (inject_Z 2) with (2 # 1)%Q in *. change (inject_Z 1) with 1%Q in *.
    split; [|split].
    + apply Qle_shift_div_l; [reflexivity | lra].
    + apply Qlt_shift_div_r; [reflexivity | lra].
    + intros Et. exfalso.
      assert (t == inject_Z (Zpos p) * (2 # 1))%Q.
      { rewrite <- Et. field. }
      lra.
  - (* 2p *)
    rewrite Pos2Z.inj_xO in L, U, E.
    rewrite inject_Z_mult in L, E.
    replace (2 * Zpos p + 1) with (2 * Zpos p + 1) in U by lia.
    rewrite inject_Z_plus, inject_Z_mult in U.
    rewrite inject_Z_plus.
    change (inject_Z 2) with (2 # 1)%Q in *. change (inject_Z 1) with 1%Q in *.
    split; [|split].
    + apply Qle_shift_div_l; [reflexivity | lra].
    + apply Qlt_shift_div_r; [reflexivity | lra].
    + intros Et.
      assert (Et' : (t == (2 # 1) * inject_Z (Zpos p))%Q).
      { rewrite <- Et. field. }
      destruct (E Et') as [-> ->]. split; reflexivity.
  - (* 1 *)
    change (inject_Z (1 + 1)) with (2 # 1)%Q in *.
    change (inject_Z 1) with 1%Q in *. change (inject_Z (0 + 1)) with 1%Q.
    change (inject_Z 0) with 0%Q.
    split; [|split].
    + apply Qle_shift_div_l; [reflexivity | lra].
    + apply Qlt_shift_div_r; [reflexivity | lra].
    + intros Et. exfalso.
      assert (t == 0)%Q.
      { apply (Qmult_inj_r _ _ (/ (2 # 1))) ; [discriminate|].
        unfold Qdiv in Et. rewrite Et. reflexivity. }
      lra.
Qed.

Lemma located_comp (mrs : shr_record) (t t' : Q) :
  (t == t')%Q -> located mrs t -> located mrs t'.
Proof.
  intros E (L & U & X). unfold located. rewrite <- E. auto.
Qed.

Lemma iter_shr_1_nonneg (p : positive) (mrs : shr_record) :
  0 <= shr_m mrs -> 0 <= shr_m (iter_pos shr_1 p mrs).
Proof.
  intros H. rewrite iter_shr_1_m by exact H.
  apply Z.div_pos; [exact H | apply Z.pow_pos_nonneg; lia].
Qed.

Lemma shr_1_nonneg (mrs : shr_record) :
  0 <= shr_m mrs -> 0 <= shr_m (shr_1 mrs).
Proof.
  intros H. rewrite shr_1_m by exact H. apply Z.div_pos; lia.
Qed.

Lemma iter_located (p : positive) :
  forall (mrs : shr_record) (t : Q),
    0 <= shr_m mrs -> located mrs t ->
    located (iter_pos shr_1 p mrs) (t * bpow (- Zpos p)).
Proof.
  induction p as [p IH|p IH|]; intros mrs t Hm L; simpl iter_pos.
  - pose proof (shr_1_nonneg mrs Hm) as H1.
    pose proof (iter_shr_1_nonneg p _ H1) as H2.
    pose proof (shr_1_located mrs t Hm L) as L1.
    pose proof (IH _ _ H1 L1) as L2.
    pose proof (IH _ _ H2 L2) as L3.
    eapply located_comp; [|exact L3].
    rewrite <- half_Q, <- !Qmult_assoc, <- !bpow_add.
    replace (-1 + (- Zpos p + - Zpos p)) with (- Zpos p~1) by lia.
    reflexivity.
  - pose proof (iter_shr_1_nonneg p _ Hm) as H2.
    pose proof (IH _ _ Hm L) as L2.
    pose proof (IH _ _ H2 L2) as L3.
    eapply located_comp; [|exact L3].
    rewrite <- !Qmult_assoc, <- !bpow_add.
    replace (- Zpos p + - Zpos p) with (- Zpos p~0) by lia.
    reflexivity.
  - apply (shr_1_located mrs t Hm L).
Qed.

Lemma shr_located (mrs : shr_record) (e n : Z) (t : Q) :
  0 <= shr_m mrs -> located mrs t ->
  located (fst (shr mrs e n)) (t * bpow (- Z.max n 0)).
Proof.
  intros Hm L. destruct n as [|p|p]; simpl fst.
  - eapply located_comp; [|exact L].
    change (- Z.max 0 0) with 0. rewrite bpow_0. ring.
  - replace (Z.max (Zpos p) 0) with (Zpos p) by lia.
    apply iter_located; assumption.
  - eapply located_comp; [|exact L].
    change (- Z.max (Zneg p) 0) with 0. rewrite bpow_0. ring.
Qed.

Lemma record_of_loc_located (mx : Z) (lx : location) (t : Q) :
  (inject_Z mx <= t)%Q -> (t < inject_Z (mx + 1))%Q ->
  ((t == inject_Z mx)%Q -> lx = loc_Exact) ->
  located (shr_record_of_loc mx lx) t.
Proof.
  intros L U E. unfold located. rewrite shr_record_of_loc_m.
  split; [exact L|]. split; [exact U|].
  intros Et. rewrite (E Et). split; reflexivity.
Qed.

Lemma rne_upper (mrs : shr_record) (t : Q) (u : Z) :
  located mrs t -> (t <= inject_Z u)%Q ->
  round_nearest_even (shr_m mrs) (loc_of_shr_record mrs) <= u.
Proof.
  intros (L & U & E) Hu.
  assert (Hm : shr_m mrs <= u).
  { rewrite Zle_Qle. eapply Qle_trans; eauto. }
  pose proof (rne_bounds (shr_m mrs) (loc_of_shr_record mrs)) as B.
  destruct (Z.eq_dec (shr_m mrs) u) as [Eq|N]; [|lia].
  assert (Et : (t == inject_Z (shr_m mrs))%Q).
  { apply Qle_antisym; [rewrite Eq; exact Hu | exact L]. }
  destruct (E Et) as [Er Es].
  destruct mrs as [m r s]; simpl in *. subst r s. simpl. lia.
Qed.

Lemma shr_fexp_located (mx ex : Z) (lx : location) (t : Q) :
  0 <= mx ->
  (inject_Z mx <= t)%Q -> (t < inject_Z (mx + 1))%Q ->
  ((t == inject_Z mx)%Q -> lx = loc_Exact) ->
  located (fst (shr_fexp F64.prec F64.emax mx ex lx))
          (t * bpow (- trunc_n mx ex)).
Proof.
  intros Hm L U E. unfold shr_fexp, trunc_n. rewrite fexp_eq.
  apply shr_located.
  - rewrite shr_record_of_loc_m. exact Hm.
  - apply record_of_loc_located; assumption.
Qed.

(** The rounding, with the step between its two truncations in sight. *)
Lemma round_aux_steps (s : bool) (mx ex : Z) (lx : location) :
  0 <= mx ->
  let mrs1 := fst (shr_fexp F64.prec F64.emax mx ex lx) in
  let m2 := round_nearest_even (shr_m mrs1) (loc_of_shr_record mrs1) in
  0 <= m2 /\
  binary_round_aux F64.prec F64.emax s mx ex lx =
  match trunc_m m2 (trunc_e mx ex) with
  | Z0 => S754_zero s
  | Zpos m =>
      if trunc_e m2 (trunc_e mx ex) <=? 971
      then S754_finite s m (trunc_e m2 (trunc_e mx ex))
      else S754_infinity s
  | Zneg _ => S754_nan
  end.
Proof.
  intros H mrs1 m2. unfold binary_round_aux.
  destruct (shr_fexp_spec mx ex lx H) as [M1 E1].
  unfold m2, mrs1.
  destruct (shr_fexp F64.prec F64.emax mx ex lx) as [mrs e1].
  simpl in M1, E1. subst e1. cbn [fst].
  set (m := round_nearest_even (shr_m mrs) (loc_of_shr_record mrs)).
  assert (H2 : 0 <= m).
  { pose proof (rne_bounds (shr_m mrs) (loc_of_shr_record mrs)).
    pose proof (trunc_m_nonneg mx ex H). fold m in H0. lia. }
  split; [exact H2|].
  destruct (shr_fexp_spec m (trunc_e mx ex) loc_Exact H2) as [M3 E3].
  destruct (shr_fexp F64.prec F64.emax m (trunc_e mx ex) loc_Exact)
    as [mrs3 e3].
  simpl in M3, E3. subst e3. rewrite M3. reflexivity.
Qed.

Lemma trunc_step_upper (m e : Z) :
  0 <= m -> (dy (trunc_m m e) (trunc_e m e) <= dy m e)%Q.
Proof.
  intros H. unfold trunc_m, trunc_e.
  pose proof (trunc_n_nonneg m e) as Hn. set (n := trunc_n m e) in *.
  assert (P : 0 < 2 ^ n) by (apply Z.pow_pos_nonneg; lia).
  rewrite <- (dy_shift (m / 2 ^ n) (e + n) n Hn).
  replace (e + n - n) with e by lia.
  apply dy_le. pose proof (Z.mul_div_le m (2 ^ n) P). lia.
Qed.

Lemma bpow_lt_inv (a b : Z) : (bpow a < bpow b)%Q -> a < b.
Proof.
  intros H. destruct (Z_lt_ge_dec a b) as [L|G]; [exact L|].
  exfalso. assert (B : (bpow b <= bpow a)%Q) by (apply bpow_le; lia).
  apply (Qlt_irrefl (bpow a)). eapply Qlt_le_trans; eauto.
Qed.

(** A representable value above [m * 2^e] is a multiple of the unit the
    rounding of [m * 2^e] works in. *)
Lemma canonical_unit (mu : positive) (eu : Z) (m : positive) (e : Z) :
  canonical_mantissa F64.prec F64.emax mu eu = true ->
  (dy (Zpos m) e <= dy (Zpos mu) eu)%Q ->
  fexp64 (Zpos (digits2_pos m) + e) <= eu.
Proof.
  intros Hc H. unfold canonical_mantissa in Hc. apply Z.eqb_eq in Hc.
  rewrite fexp_eq in Hc.
  assert (M : Zpos (digits2_pos m) + e - 1 < Zpos (digits2_pos mu) + eu).
  { apply bpow_lt_inv.
    eapply Qle_lt_trans; [apply (dy_digits m e)|].
    eapply Qle_lt_trans; [exact H | apply (dy_digits mu eu)]. }
  unfold fexp64 in *. lia.
Qed.

Lemma round_aux_upper (s : bool) (mx ex : Z) (lx : location) (t : Q)
  (mu : positive) (eu : Z) :
  0 <= mx ->
  (inject_Z mx <= t)%Q -> (t < inject_Z (mx + 1))%Q ->
  ((t == inject_Z mx)%Q -> lx = loc_Exact) ->
  (t * bpow ex <= dy (Zpos mu) eu)%Q ->
  trunc_e mx ex <= eu ->
  forall s' m e,
    binary_round_aux F64.prec F64.emax s mx ex lx = S754_finite s' m e ->
    (dy (Zpos m) e <= dy (Zpos mu) eu)%Q.
Proof.
  intros Hm L U E HU He s' m e R.
  destruct (round_aux_steps s mx ex lx Hm) as [H2 S]. rewrite S in R.
  set (mrs1 := fst (shr_fexp F64.prec F64.emax mx ex lx)) in *.
  set (m2 := round_nearest_even (shr_m mrs1) (loc_of_shr_record mrs1)) in *.
  pose proof (shr_fexp_located mx ex lx t Hm L U E) as Loc. fold mrs1 in Loc.
  set (e1 := trunc_e mx ex) in *.
  set (u := Zpos mu * 2 ^ (eu - e1)).
  assert (EU : (dy (Zpos mu) eu == dy u e1)%Q).
  { unfold u. rewrite <- (dy_shift (Zpos mu) eu (eu - e1)) by lia.
    replace (eu - (eu - e1)) with e1 by lia. reflexivity. }
  assert (Ht : (t * bpow (- trunc_n mx ex) <= inject_Z u)%Q).
  { rewrite EU in HU. unfold dy in HU.
    apply (Qmult_le_compat_r _ _ (bpow (- e1))) in HU;
      [|apply Qlt_le_weak, bpow_pos].
    rewrite <- !Qmult_assoc, <- bpow_add in HU.
    rewrite bpow_cancel, Qmult_1_r in HU.
    replace (ex + - e1) with (- trunc_n mx ex) in HU
      by (unfold e1, trunc_e; lia).
    exact HU. }
  pose proof (rne_upper mrs1 _ u Loc Ht) as M2. fold m2 in M2.
  assert (V2 : (dy m2 e1 <= dy (Zpos mu) eu)%Q).
  { rewrite EU. apply dy_le. exact M2. }
  pose proof (trunc_step_upper m2 e1 H2) as V3.
  destruct (trunc_m m2 e1) as [|m3|m3] eqn:E3; try discriminate.
  destruct (trunc_e m2 e1 <=? 971); try discriminate.
  inversion R; subst. eapply Qle_trans; eauto.
Qed.


(** ** Upper bounds *)

Lemma fexp64_mono (a b : Z) : a <= b -> fexp64 a <= fexp64 b.
Proof. unfold fexp64. lia. Qed.

Lemma int_lt_bpow_digits (B : Z) : 0 < B -> (inject_Z B < bpow (Zdigits2 B))%Q.
Proof.
  intros H. destruct B as [|p|p]; try lia.
  rewrite <- dy_int. rewrite Zdigits2_pos.
  pose proof (proj2 (dy_digits p 0)) as U. rewrite Z.add_0_r in U. exact U.
Qed.

Lemma binary_round_below (p : positive) (e B : Z) :
  0 < B -> Zdigits2 B <= 53 ->
  (dy (Zpos p) e <= inject_Z B)%Q ->
  below (binary_round F64.prec F64.emax false p e) B.
Proof.
  intros HB HD H. unfold binary_round.
  pose proof (shl_align_dy p e (fexp F64.prec F64.emax (Zpos (digits2_pos p) + e)))
    as (V & D & E).
  destruct (shl_align p e _) as [mz ez]. cbn [fst snd] in V, D, E.
  rewrite fexp_eq in E. rewrite !Zdigits2_pos in D.
  assert (Hmag : Zpos (digits2_pos p) + e <= Zdigits2 B).
  { apply dy_lt_bpow_digits.
    eapply Qle_lt_trans; [exact H | apply int_lt_bpow_digits; exact HB]. }
  assert (HM : magb (Zpos mz) ez <= 53).
  { apply magb_le; rewrite ?Zdigits2_pos; unfold fexp64 in E; lia. }
  pose proof (round_aux_mag false (Zpos mz) ez loc_Exact ltac:(lia) ltac:(lia))
    as R.
  destruct (binary_round_aux F64.prec F64.emax false (Zpos mz) ez loc_Exact)
    as [s'|s'| |s' m e'] eqn:Er; try contradiction.
  - subst s'. exact I.
  - destruct R as (-> & _). simpl.
    destruct (canon_exists B HB HD) as (mu & eu & Cu & Vu).
    rewrite <- Vu.
    apply (round_aux_upper false (Zpos mz) ez loc_Exact (inject_Z (Zpos mz))
             mu eu) with (s' := false); try exact Er; try lia.
    + apply Qle_refl.
    + rewrite <- Zlt_Qlt. lia.
    + reflexivity.
    + fold (dy (Zpos mz) ez). rewrite V, Vu. exact H.
    + assert (HU : (dy (Zpos mz) ez <= dy (Zpos mu) eu)%Q)
        by (rewrite V, Vu; exact H).
      pose proof (canonical_unit mu eu mz ez Cu HU) as CU.
      rewrite trunc_e_max, Zdigits2_pos.
      rewrite D in CU |- *. unfold fexp64 in *. lia.
Qed.

Lemma of_int_below (h : Z) :
  0 <= h -> Zdigits2 h <= 53 -> below (F64.of_int h) h.
Proof.
  intros H HD. destruct h as [|p|p]; try lia; [exact I|].
  unfold F64.of_int, binary_normalize.
  apply binary_round_below; try lia. rewrite dy_int. apply Qle_refl.
Qed.

Lemma below_le (x : float64) (A B : Z) : below x A -> A <= B -> below x B.
Proof.
  destruct x as [[|]|[|]| |[|] m e]; simpl; trivial.
  intros H L. eapply Qle_trans; [exact H|]. rewrite <- Zle_Qle. exact L.
Qed.

Lemma add_exact (ma my : positive) (ea ey : Z) :
  exists M ez,
    F64.add (S754_finite false ma ea) (S754_finite false my ey) =
    binary_round F64.prec F64.emax false M ez /\
    (dy (Zpos M) ez == dy (Zpos ma) ea + dy (Zpos my) ey)%Q.
Proof.
  unfold F64.add, SFadd. set (ez := Z.min ea ey).
  pose proof (shl_align_dy ma ea ez) as (Va & _ & Ea).
  pose proof (shl_align_dy my ey ez) as (Vy & _ & Ey).
  replace (Z.min ea ez) with ez in Ea by (unfold ez; lia).
  replace (Z.min ey ez) with ez in Ey by (unfold ez; lia).
  rewrite Ea in Va. rewrite Ey in Vy.
  set (A := fst (shl_align ma ea ez)) in *.
  set (Y := fst (shl_align my ey ez)) in *.
  simpl cond_Zopp. change (Zpos A + Zpos Y) with (Zpos (A + Y)).
  exists (A + Y)%positive, ez. split; [reflexivity|].
  rewrite <- Va, <- Vy. unfold dy. rewrite Pos2Z.inj_add, inject_Z_plus. ring.
Qed.

Lemma add_below (x y : float64) (A B C : Z) :
  below x A -> below y B -> 0 <= A -> 0 <= B -> A + B <= C ->
  0 < C -> Zdigits2 C <= 53 ->
  below (F64.add x y) C.
Proof.
  intros Hx Hy HA HB HC HC0 HD.
  destruct x as [[|]|[|]| |[|] mx ex]; simpl in Hx; try contradiction;
    destruct y as [[|]|[|]| |[|] my ey]; simpl in Hy; try contradiction.
  - exact I.
  - simpl. eapply Qle_trans; [exact Hy|]. rewrite <- Zle_Qle. lia.
  - simpl. eapply Qle_trans; [exact Hx|]. rewrite <- Zle_Qle. lia.
  - destruct (add_exact mx my ex ey) as (M & ez & -> & S).
    apply binary_round_below; trivial.
    rewrite S.
    apply Qle_trans with (inject_Z A + inject_Z B)%Q.
    + apply Qplus_le_compat; assumption.
    + rewrite <- inject_Z_plus, <- Zle_Qle. exact HC.
Qed.

Lemma new_location_exact (n : Z) : new_location n 0 = loc_Exact.
Proof.
  unfold new_location, new_location_even, new_location_odd.
  destruct (Z.even n); reflexivity.
Qed.

Lemma div_core_location (m1 m2 : positive) (e1 e2 : Z) :
  let e' := Z.min (fexp64 (Zdigits2 (Zpos m1) + e1 - (Zdigits2 (Zpos m2) + e2)))
                  (e1 - e2) in
  SFdiv_core_binary F64.prec F64.emax (Zpos m1) e1 (Zpos m2) e2 =
  (Zpos m1 * 2 ^ (e1 - e2 - e') / Zpos m2, e',
   new_location (Zpos m2) ((Zpos m1 * 2 ^ (e1 - e2 - e')) mod Zpos m2)).
Proof.
  intros e'. unfold SFdiv_core_binary. rewrite fexp_eq. fold e'.
  set (s := e1 - e2 - e').
  assert (Hs : 0 <= s) by (unfold s, e'; lia).
  assert (E : match s with
              | Zpos _ => Z.shiftl (Zpos m1) s
              | Z0 => Zpos m1
              | Zneg _ => 0
              end = Zpos m1 * 2 ^ s).
  { destruct s as [|p|p] eqn:Es; try lia.
    rewrite Z.shiftl_mul_pow2 by lia. reflexivity. }
  rewrite E. unfold Z.div, Z.modulo.
  destruct (Z.div_eucl (Zpos m1 * 2 ^ s) (Zpos m2)) as [q r]. reflexivity.
Qed.

Lemma div_below (m1 m2 : positive) (e1 e2 A B c : Z) :
  (dy (Zpos m1) e1 <= inject_Z A)%Q ->
  (inject_Z c <= dy (Zpos m2) e2)%Q ->
  0 < c -> A <= B * c -> 0 < B -> Zdigits2 B <= 53 ->
  0 < A -> Zdigits2 A <= 60 -> -900 <= Zpos (digits2_pos m2) + e2 ->
  below (F64.div (S754_finite false m1 e1) (S754_finite false m2 e2)) B.
Proof.
  intros H1 H2 Hc HAB HB HDB HA HDA Hm2.
  set (mu := Zdigits2 (Zpos m1) + e1 - (Zdigits2 (Zpos m2) + e2)).
  set (e' := Z.min (fexp64 mu) (e1 - e2)).
  set (q := Zpos m1 * 2 ^ (e1 - e2 - e') / Zpos m2).
  set (r := (Zpos m1 * 2 ^ (e1 - e2 - e')) mod Zpos m2).
  unfold F64.div, SFdiv.
  rewrite (div_core_location m1 m2 e1 e2). fold mu e' q r. simpl xorb.
  destruct (div_quotient_mag m1 m2 e1 e2) as [Hq HM]. fold mu e' q in Hq, HM.
  assert (Hs : 0 <= e1 - e2 - e') by (unfold e'; lia).
  assert (Hmag1 : Zpos (digits2_pos m1) + e1 <= Zdigits2 A).
  { apply dy_lt_bpow_digits.
    eapply Qle_lt_trans; [exact H1 | apply int_lt_bpow_digits; exact HA]. }
  assert (Hmu : mu + 1 <= 970) by (unfold mu; rewrite !Zdigits2_pos; lia).
  pose proof (round_aux_mag false q e' (new_location (Zpos m2) r) Hq
                ltac:(lia)) as R.
  destruct (binary_round_aux F64.prec F64.emax false q e' _)
    as [s'|s'| |s' m e] eqn:Er; try contradiction.
  - subst s'. exact I.
  - destruct R as (-> & _). simpl.
    destruct (canon_exists B HB HDB) as (mv & ev & Cv & Vv).
    rewrite <- Vv.
    set (x := (dy (Zpos m1) e1 / dy (Zpos m2) e2)%Q).
    pose proof (dy_pos m2 e2) as P2.
    assert (Hx : (x <= dy (Zpos mv) ev)%Q).
    { unfold x. apply Qle_shift_div_r; [exact P2|]. rewrite Vv.
      eapply Qle_trans; [exact H1|].
      apply Qle_trans with (inject_Z B * inject_Z c)%Q.
      - rewrite <- inject_Z_mult, <- Zle_Qle. exact HAB.
      - apply Qmult_le_l; [|exact H2].
        change 0%Q with (inject_Z 0). rewrite <- Zlt_Qlt. exact HB. }
    assert (Eq : Qfloor (x * bpow (- e')) = q)
      by (apply (div_floor m1 m2 e1 e2 e' Hs)).
    assert (Cv' := Cv). unfold canonical_mantissa in Cv'.
    apply Z.eqb_eq in Cv'. rewrite fexp_eq in Cv'.
    assert (He' : e' <= ev).
    { assert (M : mu - 1 < Zpos (digits2_pos mv) + ev).
      { apply bpow_lt_inv.
        eapply Qle_lt_trans; [apply (div_enclosure m1 m2 e1 e2)|].
        fold x. eapply Qle_lt_trans; [exact Hx | apply (dy_digits mv ev)]. }
      unfold e', fexp64 in *. lia. }
    apply (round_aux_upper false q e' (new_location (Zpos m2) r)
             (x * bpow (- e')) mv ev) with (s' := false); try exact Er;
      try exact Hq.
    + rewrite <- Eq. apply Qfloor_le.
    + rewrite <- Eq. apply Qlt_floor.
    + (* an exact quotient has no remainder *)
      intros Et. assert (r = 0); [|subst r; rewrite H; apply new_location_exact].
      assert (Em : Zpos m1 * 2 ^ (e1 - e2 - e') = Zpos m2 * q + r).
      { unfold q, r. apply Z.div_mod. lia. }
      assert (Ex : (x * bpow (- e') ==
                    inject_Z (Zpos m1 * 2 ^ (e1 - e2 - e')) / inject_Z (Zpos m2))%Q).
      { unfold x, dy. rewrite inject_Z_mult, <- (bpow_Z _ Hs).
        assert (E : (bpow e1 == bpow (e1 - e2 - e') * bpow e2 * bpow e')%Q).
        { rewrite <- !bpow_add.
          replace (e1 - e2 - e' + e2 + e') with e1 by lia. reflexivity. }
        rewrite E, bpow_opp. field.
        repeat split; try apply bpow_neq. discriminate. }
      rewrite Ex, Em in Et.
      assert (Er0 : (inject_Z r == 0)%Q).
      { rewrite inject_Z_plus, inject_Z_mult in Et.
        assert (N : ~ (inject_Z (Zpos m2) == 0)%Q) by discriminate.
        assert (Et2 : ((inject_Z (Zpos m2) * inject_Z q + inject_Z r)
                       / inject_Z (Zpos m2) * inject_Z (Zpos m2) ==
                       inject_Z (Zpos m2) * inject_Z q + inject_Z r)%Q)
          by (field; exact N).
        rewrite Et in Et2.
        assert (Et3 : (inject_Z r ==
                       inject_Z q * inject_Z (Zpos m2)
                       - inject_Z (Zpos m2) * inject_Z q)%Q)
          by (rewrite Et2; ring).
        rewrite Et3. ring. }
      unfold Qeq in Er0. simpl in Er0. lia.
    + rewrite <- Qmult_assoc, <- bpow_add.
      replace (- e' + e') with 0 by lia. rewrite bpow_0, Qmult_1_r. exact Hx.
    + rewrite trunc_e_max.
      destruct q as [|pq|pq] eqn:Eqq; try lia.
      * simpl Zdigits2. unfold fexp64 in *. lia.
      * rewrite Zdigits2_pos.
        assert (HU : (dy (Zpos pq) e' <= dy (Zpos mv) ev)%Q).
        { eapply Qle_trans; [|exact Hx]. rewrite <- Eq. apply dy_floor. }
        pose proof (canonical_unit mv ev pq e' Cv HU). lia.
Qed.

Lemma div_zero_below (s : bool) (m2 : positive) (e2 B : Z) :
  below (F64.div (S754_zero false) (S754_finite false m2 e2)) B.
Proof. exact I. Qed.

Lemma to_int_below (x : float64) (B : Z) :
  below x B -> 0 <= B -> F64.to_int x <= B.
Proof.
  intros H HB.
  assert (M : Int64.min <= 0) by (vm_compute; discriminate).
  destruct x as [[|]|[|]| |[|] m e]; simpl in H; try contradiction;
    [simpl; lia|].
  unfold F64.to_int.
  set (a := match e with
            | Zneg p => Z.shiftr (Zpos m) (Zpos p)
            | _ => Z.shiftl (Zpos m) e
            end).
  assert (Ea : a = Qfloor (dy (Zpos m) e)).
  { unfold a. destruct e as [|p|p].
    - rewrite Z.shiftl_0_r. rewrite <- (Qfloor_Z (Zpos m)) at 1.
      apply Qfloor_comp. rewrite dy_int. reflexivity.
    - rewrite Z.shiftl_mul_pow2 by lia.
      rewrite <- (Qfloor_Z (Zpos m * 2 ^ Zpos p)). apply Qfloor_comp.
      unfold dy. rewrite inject_Z_mult, <- bpow_Z by lia. reflexivity.
    - rewrite Z.shiftr_div_pow2 by lia. rewrite Zdiv_Qdiv.
      apply Qfloor_comp. unfold dy, Qdiv. rewrite <- bpow_Z by lia.
      change (Zneg p) with (- Zpos p). rewrite bpow_opp. reflexivity. }
  assert (Hab : a <= B).
  { rewrite Ea. rewrite <- (Qfloor_Z B). apply Qfloor_resp_le. exact H. }
  simpl cond_Zopp. destruct (Int64.in_range a); lia.
Qed.

Lemma dy_hour : (dy 7372800000000000 (-11) == inject_Z 3600000000000)%Q.
Proof. vm_compute. reflexivity. Qed.

Lemma div_below_float (x : float64) (m2 : positive) (e2 A B c : Z) :
  below x A ->
  (inject_Z c <= dy (Zpos m2) e2)%Q ->
  0 < c -> A <= B * c -> 0 < B -> Zdigits2 B <= 53 ->
  0 < A -> Zdigits2 A <= 60 -> -900 <= Zpos (digits2_pos m2) + e2 ->
  below (F64.div x (S754_finite false m2 e2)) B.
Proof.
  destruct x as [[|]|[|]| |[|] m1 e1]; simpl below at 1; try contradiction.
  - intros. exact I.
  - intros. apply (div_below m1 m2 e1 e2 A B c); assumption.
Qed.

(** The days computed for an age exceed its whole days by one at most. *)
Lemma Days_upper (d : Z) : 0 <= d <= Int64.max -> Days d <= d / Day + 1.
Proof.
  intros [Hd0 Hmax]. unfold Days, Hours.
  assert (HH : Hour = 3600000000000) by reflexivity.
  assert (HD : Day = Hour * 24) by reflexivity.
  rewrite Z.quot_div_nonneg, Z.rem_mod_nonneg by (rewrite ?HH; lia).
  rewrite HD, <- Z.div_div by (rewrite ?HH; lia).
  set (h := d / Hour). set (n := d mod Hour).
  assert (Hn : 0 <= n < Hour) by (apply Z.mod_pos_bound; rewrite HH; lia).
  assert (Hh0 : 0 <= h) by (unfold h; apply Z.div_pos; rewrite ?HH; lia).
  assert (Hh' : h <= 2562047).
  { unfold h. rewrite HH. unfold Int64.max in Hmax.
    change (2 ^ 63) with 9223372036854775808 in Hmax.
    assert (d / 3600000000000 < 2562048); [|lia].
    apply Z.div_lt_upper_bound; lia. }
  set (k := h / 24).
  assert (Hk : 0 <= k) by (unfold k; apply Z.div_pos; lia).
  assert (Hhk : h + 1 <= (k + 1) * 24).
  { pose proof (Z.div_mod h 24 ltac:(lia)) as E.
    pose proof (Z.mod_pos_bound h 24 ltac:(lia)) as M. fold k in E. lia. }
  assert (Dh : Zdigits2 (h + 1) <= 22).
  { apply (Zdigits2_le (h + 1) 2562048); [lia | vm_compute; reflexivity]. }
  assert (Dh0 : Zdigits2 h <= 22).
  { eapply Z.le_trans; [apply (Zdigits2_mono h (h + 1)); lia | exact Dh]. }
  assert (Hkh : k <= h) by (unfold k; apply Z.div_le_upper_bound; lia).
  assert (Dk : Zdigits2 (k + 1) <= 22).
  { eapply Z.le_trans; [apply (Zdigits2_mono (k + 1) (h + 1)); lia | exact Dh]. }
  (* the whole hours *)
  pose proof (of_int_below h Hh0 ltac:(lia)) as Ba.
  (* the fraction of an hour *)
  assert (By : below (F64.div (F64.of_int n) (F64.of_int 3600000000000)) 1).
  { rewrite of_int_hour.
    destruct (Z.eq_dec n 0) as [->|Nn]; [exact I|].
    assert (Dn : Zdigits2 n <= 42).
    { apply (Zdigits2_le n (Hour - 1)); [lia | vm_compute; reflexivity]. }
    apply (div_below_float _ _ _ n 1 3600000000000);
      try lia; try (simpl; lia);
      [apply of_int_below; lia | rewrite dy_hour; apply Qle_refl]. }
  (* the sum *)
  pose proof (add_below _ _ h 1 (h + 1) Ba By Hh0 ltac:(lia) ltac:(lia)
                ltac:(lia) ltac:(lia)) as Bs.
  (* the quotient *)
  rewrite of_int_24.
  apply to_int_below; [|lia].
  apply (div_below_float _ _ _ (h + 1) (k + 1) 24);
    try lia; try (simpl; lia);
    [exact Bs | rewrite dy_24; apply Qle_refl].
Qed.

(** ** The days of an event *)

Lemma Sub_age (now date : Time) : Sub now date = Int64.saturate (age now date).
Proof. reflexivity. Qed.

Lemma saturate_cases (z : Z) :
  (z < Int64.min /\ Int64.saturate z = Int64.min) \/
  (Int64.max < z /\ Int64.saturate z = Int64.max) \/
  (Int64.min <= z <= Int64.max /\ Int64.saturate z = z).
Proof.
  unfold Int64.saturate.
  destruct (Z.ltb_spec z Int64.min); [left; auto|].
  destruct (Z.ltb_spec Int64.max z); [right; left; auto|].
  right; right. split; [lia | reflexivity].
Qed.

Lemma Int64_bounds :
  Int64.min = -9223372036854775808 /\ Int64.max = 9223372036854775807.
Proof. split; reflexivity. Qed.

Lemma Day_value : Day = 86400000000000.
Proof. reflexivity. Qed.

(** An event that is not before [now] is of zero days or fewer. *)
Lemma daysAgo_future (now date : Time) :
  age now date <= 0 -> daysAgo now date <= 0.
Proof.
  intros H. unfold daysAgo. apply Days_nonpos. rewrite Sub_age.
  destruct Int64_bounds as [Emin Emax].
  destruct (saturate_cases (age now date)) as [[_ ->] | [[L _] | [_ ->]]];
    lia.
Qed.

(** An event of exactly [k] days, up to 366, is of [k] days. *)
Lemma daysAgo_exact (now date : Time) (k : Z) :
  0 <= k <= 366 -> age now date = k * Day -> daysAgo now date = k.
Proof.
  intros Hk H. unfold daysAgo. rewrite Sub_age, H.
  destruct Int64_bounds as [Emin Emax]. pose proof Day_value as ED.
  destruct (saturate_cases (k * Day)) as [[L _] | [[L _] | [_ ->]]];
    try (rewrite ED in L; lia).
  apply Days_exact. exact Hk.
Qed.


(** The days of an event exceed its whole days by one at most. *)
Lemma daysAgo_le_spec (now date : Time) :
  0 <= age now date <= Int64.max ->
  daysAgo now date <= spec_daysAgo now date + 1.
Proof.
  intros H. unfold daysAgo, spec_daysAgo. rewrite Sub_age.
  destruct Int64_bounds as [Emin Emax]. pose proof Day_value as ED.
  destruct (saturate_cases (age now date)) as [[L _] | [[L _] | [_ ->]]];
    try lia.
  rewrite Z.quot_div_nonneg by (rewrite ?ED; lia).
  apply Days_upper. exact H.
Qed.

(** An event of [k] days or more, however old, is of [k] days or more. *)
Lemma daysAgo_old (now date : Time) (k : Z) :
  1 <= k <= 106751 -> k * Day <= age now date -> k <= daysAgo now date.
Proof.
  intros Hk H. unfold daysAgo. rewrite Sub_age.
  destruct Int64_bounds as [Emin Emax]. pose proof Day_value as ED.
  destruct (saturate_cases (age now date)) as [[L _] | [[L ->] | [B ->]]].
  - rewrite ED in H. lia.
  - apply Days_lower; rewrite ?ED, ?Emax; lia.
  - apply Days_lower; lia.
Qed.



Example daysAgo_saturates :
  Int64.max < age sampleNow (dateOf Eold) /\
  spec_daysAgo sampleNow (dateOf Eold) = 136493 /\
  daysAgo sampleNow (dateOf Eold) = 106751.
Proof. repeat split; vm_compute; reflexivity. Qed.




(** ** Events without a date *)

Lemma fold_left_fixed {A B : Type} (f : A -> B -> A) (l : list B) :
  (forall x, In x l -> forall a, f a x = a) ->
  forall a, fold_left f l a = a.
Proof.
  induction l as [|x l IH]; intros H a; simpl; [reflexivity|].
  rewrite (H x (or_introl eq_refl)). apply IH.
  intros y Hy. apply H. right; exact Hy.
Qed.

Lemma later_idem (c d : Time) : later (later c d) d = later c d.
Proof.
  unfold later. destruct (After d c) eqn:H.
  - rewrite After_irrefl. reflexivity.
  - rewrite H. reflexivity.
Qed.

Lemma fold_later_const (t : Time) (its : list item) :
  (forall it, In it its -> it_date it = t) -> its <> [] ->
  forall c,
    fold_left (fun c it => if true then later c (it_date it) else c) its c =
    later c t.
Proof.
  induction its as [|x l IH]; intros H N c; [congruence|].
  simpl. rewrite (H x (or_introl eq_refl)).
  destruct l as [|y l']; [reflexivity|].
  rewrite IH.
  - apply later_idem.
  - intros it Hit. apply H. right; exact Hit.
  - discriminate.
Qed.

Lemma Sub_old (now date : Time) (k : Z) :
  0 <= k <= 106751 -> k * Day <= age now date -> k * Day <= Sub now date.
Proof.
  intros Hk H. rewrite Sub_age.
  destruct Int64_bounds as [Emin Emax]. pose proof Day_value as ED.
  destruct (saturate_cases (age now date)) as [[L _] | [[L ->] | [B ->]]];
    rewrite ?ED, ?Emax in *; lia.
Qed.

(** C10, as the code has it. When every event of a non-empty input has an
    unknown timestamp and [now] is at least 366 days after the Unix
    epoch, no event is counted in any window, yet the latest-event
    pointer is set: its date is the Unix epoch, which is not the zero
    value, and [MonthsAgo] answers "Over a year ago". *)
Theorem C10_undated_events :
  forall (ParseFloat : string -> float64 * option error)
         (Month : Time -> Z) (clock clock' : Clock) (riderID : Z)
         (data : list Event) (r : Rider) (err : option error),
    data <> [] ->
    (forall e, In e data -> EventDateSecs e = 0) ->
    (forall i, 366 * Day <= age (clock i) epoch) ->
    366 * Day <= age (clock' 0%nat) epoch ->
    ImportRider ParseFloat clock riderID data = Returns (r, err) ->
    (Rides r = 0 /\ Races r = 0 /\ Races90 r = 0 /\ Races30 r = 0) /\
    (Ftp90 r = F64.zero /\ Ftp60 r = F64.zero /\ Ftp30 r = F64.zero) /\
    LatestEventDate r = epoch /\
    IsZero (LatestEventDate r) = false /\
    MonthsAgo Month clock' r = "Over a year ago".
Proof.
  intros ParseFloat Month clock clock' riderID data r err Hne Hts Hclock
    Hclock' H.
  apply ImportRider_returns in H. destruct H as (its & Hc & -> & _).
  assert (Hits : forall it, In it its ->
                            366 <= it_days it /\ it_date it = epoch).
  { intros it Hin. apply In_nth_error in Hin. destruct Hin as (j & Hj).
    destruct (event_of_item ParseFloat clock data its Hc j it Hj)
      as (e & He & Hcv).
    apply convert_inv in Hcv. destruct Hcv as (_ & _ & Hd & _ & Hdate & _).
    assert (Ee : dateOf e = epoch).
    { unfold dateOf, epoch. rewrite (Hts e); [reflexivity|].
      eapply nth_error_In; eauto. }
    rewrite Hd, Hdate, Ee. split; [|reflexivity].
    apply daysAgo_old; [lia | apply Hclock]. }
  assert (Hn : its <> []).
  { apply convert_all_length in Hc. destruct its; [|discriminate].
    destruct data; [congruence | discriminate]. }
  set (st := fold_left accumulate its (initial riderID)).
  pose proof (counters_fold its (initial riderID)) as (C1 & C2 & C3 & C4).
  pose proof (dates_fold its (initial riderID)) as (D1 & _).
  pose proof (Ftp90_fold its (initial riderID)) as F1.
  pose proof (Ftp60_fold its (initial riderID)) as F2.
  pose proof (Ftp30_fold its (initial riderID)) as F3.
  fold st in C1, C2, C3, C4, D1, F1, F2, F3.
  assert (Hleb : forall it N, In it its -> N <= 365 ->
                              (it_days it <=? N) = false).
  { intros it N Hin HN. apply Z.leb_gt. destruct (Hits it Hin). lia. }
  rewrite fold_left_fixed in C1, C2, C3, C4;
    try (intros it Hin a; rewrite (Hleb it _ Hin) by lia; reflexivity).
  rewrite fold_left_fixed in F1, F2, F3;
    try (intros it Hin a; rewrite (Hleb it _ Hin) by lia; reflexivity).
  rewrite (fold_later_const epoch) in D1;
    [|intros it Hin; apply Hits; exact Hin | exact Hn].
  simpl in C1, C2, C3, C4, F1, F2, F3, D1.
  assert (Elate : later zeroTime epoch = epoch) by reflexivity.
  rewrite Elate in D1.
  change (Rides (snapshot st)) with (Rides (riderOf st)).
  change (Races (snapshot st)) with (Races (riderOf st)).
  change (Races90 (snapshot st)) with (Races90 (riderOf st)).
  change (Races30 (snapshot st)) with (Races30 (riderOf st)).
  change (Ftp90 (snapshot st)) with (Ftp90 (riderOf st)).
  change (Ftp60 (snapshot st)) with (Ftp60 (riderOf st)).
  change (Ftp30 (snapshot st)) with (Ftp30 (riderOf st)).
  assert (EL : LatestEventDate (snapshot st) = epoch) by exact D1.
  split; [repeat split; assumption|].
  split; [repeat split; assumption|].
  split; [exact EL|].
  split; [rewrite EL; reflexivity|].
  unfold MonthsAgo. rewrite EL.
  change (IsZero epoch) with false. cbv iota.
  pose proof (Sub_old (clock' 0%nat) epoch 366 ltac:(lia) Hclock') as S.
  pose proof Day_value as ED.
  assert (T : (Hour * 24 * 365 <? Sub (clock' 0%nat) epoch) = true).
  { apply Z.ltb_lt. change (Hour * 24 * 365) with 31536000000000000.
    rewrite ED in S. lia. }
  rewrite T. reflexivity.
Qed.

Lemma C10_undated_events_witness :
  exists r : Rider,
    ImportRider decimalParseFloat (frozen sampleNow) 7 [Eepoch; Eepoch] =
    Returns (r, None) /\
    (Rides r = 0 /\ Races r = 0 /\ Races90 r = 0 /\ Races30 r = 0) /\
    (Ftp90 r = F64.zero /\ Ftp60 r = F64.zero /\ Ftp30 r = F64.zero) /\
    LatestEventDate r = epoch /\
    IsZero (LatestEventDate r) = false /\
    MonthsAgo (fun _ => 1) (frozen sampleNow) r = "Over a year ago".
Proof.
  eexists. split; [vm_compute; reflexivity|].
  apply (C10_undated_events decimalParseFloat (fun _ => 1)
           (frozen sampleNow) (frozen sampleNow) 7 [Eepoch; Eepoch] _ None).
  - discriminate.
  - intros e [<- | [<- | []]]; reflexivity.
  - intros i. vm_compute. discriminate.
  - vm_compute. discriminate.
  - vm_compute. reflexivity.
Defined.

(** C10, as stated, fails: 365 days and 12 hours after the epoch, [now]
    is more than 365 days after it, yet the undated event is of 365 days
    and is counted among the rides and races of the last year. *)
Lemma C10_counterexample :
  365 * Day < age halfNow epoch /\
  EventDateSecs Eepoch = 0 /\
  daysAgo halfNow (dateOf Eepoch) = 365 /\
  exists r : Rider,
    ImportRider decimalParseFloat (frozen halfNow) 7 [Eepoch] =
    Returns (r, None) /\
    Rides r = 1 /\ Races r = 1.
Proof.
  repeat split; try (vm_compute; reflexivity).
  eexists. repeat split; vm_compute; reflexivity.
Qed.

(** ** The counters count *)

Lemma count_events_bounds (p : Time -> Event -> bool) (clock : Clock)
  (data : list Event) :
  forall i, 0 <= count_events p clock i data <= Z.of_nat (List.length data).
Proof.
  induction data as [|e data IH]; intros i; simpl count_events;
    simpl List.length; [lia|].
  specialize (IH (S i)). destruct (p (clock i) e); lia.
Qed.

Lemma fold_bump_count (ParseFloat : string -> float64 * option error)
  (p : Time -> Event -> bool) (c : item -> bool) (clock : Clock) :
  (forall now e it, convert ParseFloat now e = Returns it -> c it = p now e) ->
  forall (data : list Event) (i : nat) (its : list item) (n : Z),
    convert_all ParseFloat clock i data = Returns its ->
    0 <= n -> n + Z.of_nat (List.length data) <= Int64.max ->
    fold_left (fun n it => bump (c it) n) its n =
    n + count_events p clock i data.
Proof.
  intros Hc data. induction data as [|e data IH]; intros i its n H Hn Hlen.
  - simpl in H. inversion H; subst. simpl. lia.
  - simpl in H.
    destruct (convert ParseFloat (clock i) e) as [it| |] eqn:Ce; simpl in H;
      try discriminate.
    destruct (convert_all ParseFloat clock (S i) data) as [its'| |] eqn:Ca;
      simpl in H; try discriminate.
    inversion H; subst its; clear H.
    simpl fold_left. simpl count_events. simpl List.length in Hlen.
    rewrite (Hc _ _ _ Ce).
    pose proof (count_events_bounds p clock data (S i)) as B.
    destruct (p (clock i) e).
    + change (bump true n) with (Int64.incr n).
      rewrite incr_small by lia.
      rewrite (IH (S i) its' (n + 1) Ca) by lia. lia.
    + change (bump false n) with n.
      rewrite (IH (S i) its' n Ca) by lia. lia.
Qed.

Lemma items_counts (ParseFloat : string -> float64 * option error)
  (clock : Clock) (data : list Event) (its : list item) (riderID : Z) :
  Z.of_nat (List.length data) <= Int64.max ->
  convert_all ParseFloat clock 0 data = Returns its ->
  let r := riderOf (fold_left accumulate its (initial riderID)) in
  Rides r = count_events (in_window 365) clock 0 data /\
  Races r =
    count_events (fun now e => in_window 365 now e && isRaceOf e)
                 clock 0 data /\
  Races90 r =
    count_events (fun now e => in_window 90 now e && isRaceOf e)
                 clock 0 data /\
  Races30 r =
    count_events (fun now e => in_window 30 now e && isRaceOf e)
                 clock 0 data.
Proof.
  intros Hlen Hc.
  pose proof (counters_fold its (initial riderID)) as (C1 & C2 & C3 & C4).
  simpl in C1, C2, C3, C4. simpl.
  rewrite C1, C2, C3, C4.
  repeat split.
  - rewrite (fold_bump_count ParseFloat (in_window 365)
               (fun it => it_days it <=? 365) clock) with (i := 0%nat)
                                                          (data := data);
      trivial; try lia.
    intros now e it Hit. apply convert_inv in Hit.
    destruct Hit as (_ & _ & Hd & _). unfold in_window. rewrite Hd. reflexivity.
  - rewrite (fold_bump_count ParseFloat
               (fun now e => in_window 365 now e && isRaceOf e)
               (fun it => (it_days it <=? 365) && it_race it) clock)
      with (i := 0%nat) (data := data); trivial; try lia.
    intros now e it Hit. apply convert_inv in Hit.
    destruct Hit as (_ & _ & Hd & Hr & _). unfold in_window.
    rewrite Hd, Hr. reflexivity.
  - rewrite (fold_bump_count ParseFloat
               (fun now e => in_window 90 now e && isRaceOf e)
               (fun it => (it_days it <=? 90) && it_race it) clock)
      with (i := 0%nat) (data := data); trivial; try lia.
    intros now e it Hit. apply convert_inv in Hit.
    destruct Hit as (_ & _ & Hd & Hr & _). unfold in_window.
    rewrite Hd, Hr. reflexivity.
  - rewrite (fold_bump_count ParseFloat
               (fun now e => in_window 30 now e && isRaceOf e)
               (fun it => (it_days it <=? 30) && it_race it) clock)
      with (i := 0%nat) (data := data); trivial; try lia.
    intros now e it Hit. apply convert_inv in Hit.
    destruct Hit as (_ & _ & Hd & Hr & _). unfold in_window.
    rewrite Hd, Hr. reflexivity.
Qed.

(** X1. The four counters of the snapshot that comes back are the numbers
    of events within 365 days, of races within 365 days, of races within
    90 days and of races within 30 days, every event being aged at the
    clock reading of its own iteration. *)
Theorem X1_counters_count :
  forall (ParseFloat : string -> float64 * option error) (clock : Clock)
         (riderID : Z) (data : list Event) (r : Rider) (err : option error),
    Z.of_nat (List.length data) <= Int64.max ->
    ImportRider ParseFloat clock riderID data = Returns (r, err) ->
    Rides r = count_events (in_window 365) clock 0 data /\
    Races r =
      count_events (fun now e => in_window 365 now e && isRaceOf e)
                   clock 0 data /\
    Races90 r =
      count_events (fun now e => in_window 90 now e && isRaceOf e)
                   clock 0 data /\
    Races30 r =
      count_events (fun now e => in_window 30 now e && isRaceOf e)
                   clock 0 data.
Proof.
  intros ParseFloat clock riderID data r err Hlen H.
  apply ImportRider_returns in H. destruct H as (its & Hc & -> & _).
  exact (items_counts ParseFloat clock data its riderID Hlen Hc).
Qed.

Lemma X1_counters_count_witness :
  exists r : Rider,
    ImportRider decimalParseFloat (frozen sampleNow) 7 [E1; E2; E3] =
    Returns (r, None) /\
    Rides r = 2 /\ Races r = 2 /\ Races90 r = 2 /\ Races30 r = 1 /\
    Rides r = count_events (in_window 365) (frozen sampleNow) 0 [E1; E2; E3].
Proof.
  eexists. split; [vm_compute; reflexivity|].
  repeat (split; [vm_compute; reflexivity|]).
  apply (X1_counters_count decimalParseFloat (frozen sampleNow) 7
           [E1; E2; E3] _ None).
  - vm_compute; discriminate.
  - vm_compute; reflexivity.
Defined.

(** ** The maxima of nested windows *)

(** The keys of two values that are not NaN decide [>]. *)
Lemma gt_false_iff (x y : float64) :
  F64.is_nan x = false -> F64.is_nan y = false ->
  (F64.gt x y = false <-> ~ lex_lt (fkey y) (fkey x)).
Proof.
  intros Hx Hy. split.
  - apply gt_false_key; assumption.
  - intros N. destruct (F64.gt x y) eqn:G; [|reflexivity].
    apply gt_spec in G. tauto.
Qed.

Lemma fmax_mono (a b x : float64) :
  ftp_ok a -> ftp_ok b -> F64.gt a b = false ->
  F64.gt (fmax a x) (fmax b x) = false.
Proof.
  intros Ha Hb Hab.
  destruct (F64.is_nan x) eqn:Nx.
  { rewrite !fmax_nan by exact Nx. exact Hab. }
  pose proof (ftp_ok_not_nan a Ha) as Na.
  pose proof (ftp_ok_not_nan b Hb) as Nb.
  unfold fmax.
  destruct (F64.gt x a) eqn:Gxa; destruct (F64.gt x b) eqn:Gxb.
  - apply gt_irrefl.
  - exact Gxb.
  - destruct (F64.gt a x) eqn:Gax; [|reflexivity].
    pose proof (gt_trans _ _ _ Gax Gxb). congruence.
  - exact Hab.
Qed.

Lemma fmax_above (a b x : float64) :
  ftp_ok a -> ftp_ok b -> F64.gt a b = false ->
  F64.gt a (fmax b x) = false.
Proof.
  intros Ha Hb Hab. unfold fmax.
  destruct (F64.gt x b) eqn:Gxb; [|exact Hab].
  destruct (F64.gt a x) eqn:Gax; [|reflexivity].
  pose proof (gt_trans _ _ _ Gax Gxb). congruence.
Qed.

Lemma accumulate_nested (st : locals) (it : item) :
  let r := riderOf st in
  let r' := riderOf (accumulate st it) in
  (ftp_ok (Ftp30 r) /\ ftp_ok (Ftp60 r) /\ ftp_ok (Ftp90 r) /\
   F64.gt (Ftp30 r) (Ftp60 r) = false /\
   F64.gt (Ftp60 r) (Ftp90 r) = false) ->
  ftp_ok (Ftp30 r') /\ ftp_ok (Ftp60 r') /\ ftp_ok (Ftp90 r') /\
  F64.gt (Ftp30 r') (Ftp60 r') = false /\
  F64.gt (Ftp60 r') (Ftp90 r') = false.
Proof.
  intros r r' (O3 & O6 & O9 & G36 & G69).
  destruct (accumulate_fields st it) as (_ & _ & (F9 & F6 & F3) & _).
  fold r r' in F9, F6, F3. rewrite F9, F6, F3.
  destruct (Z.leb_spec (it_days it) 30) as [L3|L3];
    destruct (Z.leb_spec (it_days it) 60) as [L6|L6];
    destruct (Z.leb_spec (it_days it) 90) as [L9|L9]; try lia;
    repeat split;
    auto using ftp_ok_fmax, fmax_mono, fmax_above.
Qed.

Lemma fold_nested (its : list item) :
  forall st : locals,
    (ftp_ok (Ftp30 (riderOf st)) /\ ftp_ok (Ftp60 (riderOf st)) /\
     ftp_ok (Ftp90 (riderOf st)) /\
     F64.gt (Ftp30 (riderOf st)) (Ftp60 (riderOf st)) = false /\
     F64.gt (Ftp60 (riderOf st)) (Ftp90 (riderOf st)) = false) ->
    let st' := fold_left accumulate its st in
    ftp_ok (Ftp30 (riderOf st')) /\ ftp_ok (Ftp60 (riderOf st')) /\
    ftp_ok (Ftp90 (riderOf st')) /\
    F64.gt (Ftp30 (riderOf st')) (Ftp60 (riderOf st')) = false /\
    F64.gt (Ftp60 (riderOf st')) (Ftp90 (riderOf st')) = false.
Proof.
  induction its as [|it its IH]; intros st H; simpl; [exact H|].
  apply IH. apply accumulate_nested. exact H.
Qed.

(** X2. In every snapshot that comes back the three maxima are ordered as
    their windows are nested: Ftp30 is not greater than Ftp60, which is
    not greater than Ftp90; none of them is NaN and none is below zero. *)
Theorem X2_maxima_nested :
  forall (ParseFloat : string -> float64 * option error) (clock : Clock)
         (riderID : Z) (data : list Event) (r : Rider) (err : option error),
    ImportRider ParseFloat clock riderID data = Returns (r, err) ->
    F64.gt (Ftp30 r) (Ftp60 r) = false /\
    F64.gt (Ftp60 r) (Ftp90 r) = false /\
    (F64.is_nan (Ftp30 r) = false /\ F64.is_nan (Ftp60 r) = false /\
     F64.is_nan (Ftp90 r) = false) /\
    (F64.gt F64.zero (Ftp30 r) = false /\ F64.gt F64.zero (Ftp60 r) = false /\
     F64.gt F64.zero (Ftp90 r) = false).
Proof.
  intros ParseFloat clock riderID data r err H.
  apply ImportRider_returns in H. destruct H as (its & _ & -> & _).
  assert (I0 : ftp_ok F64.zero) by (left; reflexivity).
  destruct (fold_nested its (initial riderID)) as (O3 & O6 & O9 & G36 & G69).
  { simpl. repeat split; trivial. }
  simpl.
  assert (Z : forall v, ftp_ok v -> F64.gt F64.zero v = false).
  { intros v [-> | G]; [reflexivity | apply gt_asym; exact G]. }
  repeat split; auto using ftp_ok_not_nan.
Qed.

Lemma X2_maxima_nested_witness :
  exists r : Rider,
    ImportRider decimalParseFloat (frozen sampleNow) 7 [E1; E2; E3] =
    Returns (r, None) /\
    (Ftp90 r = f1_10 /\ Ftp60 r = f1_10 /\ Ftp30 r = f1_05) /\
    F64.gt (Ftp30 r) (Ftp60 r) = false /\
    F64.gt (Ftp60 r) (Ftp90 r) = false.
Proof.
  eexists. split; [vm_compute; reflexivity|].
  split; [repeat split; vm_compute; reflexivity|].
  destruct (X2_maxima_nested decimalParseFloat (frozen sampleNow) 7
              [E1; E2; E3] _ None eq_refl) as (H1 & H2 & _).
  split; assumption.
Defined.

(** ** What the loop leaves alone *)

Lemma fold_identity (its : list item) (st : locals) :
  Name (riderOf (fold_left accumulate its st)) = Name (riderOf st) /\
  Zwid (riderOf (fold_left accumulate its st)) = Zwid (riderOf st).
Proof.
  split.
  - rewrite (fold_proj (fun st => Name (riderOf st)) (fun n _ => n)).
    + apply fold_left_fixed. reflexivity.
    + intros st' it. apply (accumulate_fields st' it).
  - rewrite (fold_proj (fun st => Zwid (riderOf st)) (fun n _ => n)).
    + apply fold_left_fixed. reflexivity.
    + intros st' it. apply (accumulate_fields st' it).
Qed.

(** What the aggregation leaves alone, in the snapshot that comes back. *)
Lemma ImportRider_identity (ParseFloat : string -> float64 * option error)
  (clock : Clock) (riderID : Z) (data : list Event) (r : Rider)
  (err : option error) :
  ImportRider ParseFloat clock riderID data = Returns (r, err) ->
  Zwid r = riderID /\ Name r = "" /\ err = None.
Proof.
  intros H. apply ImportRider_returns in H. destruct H as (its & _ & -> & ->).
  destruct (fold_identity its (initial riderID)) as (HN & HZ).
  simpl. rewrite HN, HZ. auto.
Qed.

(** X3. Every snapshot that comes back carries the identifier it was
    asked for and an empty name: the aggregation never fills in [Name]. *)
Theorem X3_identity :
  forall (ParseFloat : string -> float64 * option error) (clock : Clock)
         (riderID : Z) (data : list Event) (r : Rider) (err : option error),
    ImportRider ParseFloat clock riderID data = Returns (r, err) ->
    Zwid r = riderID /\ Name r = "".
Proof.
  intros ParseFloat clock riderID data r err H.
  destruct (ImportRider_identity _ _ _ _ _ _ H) as (HZ & HN & _).
  split; assumption.
Qed.

Lemma X3_identity_witness :
  exists r : Rider,
    ImportRider decimalParseFloat (frozen sampleNow) 7 [E1; E2; E3] =
    Returns (r, None) /\
    Zwid r = 7 /\ Name r = "".
Proof.
  eexists. split; [vm_compute; reflexivity|].
  apply (X3_identity decimalParseFloat (frozen sampleNow) 7
           [E1; E2; E3] _ None).
  vm_compute; reflexivity.
Defined.

(** ** The two "latest" dates *)

Lemma later_not_after (c r d : Time) :
  After r c = false -> After (later r d) (later c d) = false.
Proof.
  unfold later. intros H.
  destruct (After d r) eqn:G1; destruct (After d c) eqn:G2;
    repeat match goal with
           | H : After _ _ = true |- _ => apply After_spec in H
           | H : After _ _ = false |- _ => apply After_false in H
           end;
    apply After_false; lia.
Qed.

Lemma later_not_after_r (c r d : Time) :
  After r c = false -> After r (later c d) = false.
Proof.
  unfold later. intros H.
  destruct (After d c) eqn:G2; [|exact H].
  apply After_spec in G2. apply After_false in H. apply After_false. lia.
Qed.

Lemma fold_race_not_after (its : list item) :
  forall st : locals,
    After (latestRaceDate st) (latestEventDate st) = false ->
    After (latestRaceDate (fold_left accumulate its st))
          (latestEventDate (fold_left accumulate its st)) = false.
Proof.
  induction its as [|it its IH]; intros st H; simpl; [exact H|].
  apply IH.
  destruct (accumulate_fields st it) as (_ & _ & _ & (Hd & _) & (Hr & _)).
  rewrite Hd, Hr.
  destruct (it_race it);
    [apply later_not_after | apply later_not_after_r]; exact H.
Qed.

(** X4. In every snapshot that comes back the date of the latest race is
    not after the date of the latest event. *)
Theorem X4_latest_race_not_after_latest_event :
  forall (ParseFloat : string -> float64 * option error) (clock : Clock)
         (riderID : Z) (data : list Event) (r : Rider) (err : option error),
    ImportRider ParseFloat clock riderID data = Returns (r, err) ->
    After (LatestRaceDate r) (LatestEventDate r) = false.
Proof.
  intros ParseFloat clock riderID data r err H.
  apply ImportRider_returns in H. destruct H as (its & _ & -> & _).
  simpl. apply fold_race_not_after. reflexivity.
Qed.

Lemma X4_latest_race_not_after_latest_event_witness :
  exists r : Rider,
    ImportRider decimalParseFloat (frozen sampleNow) 7 [E1; E2; E3] =
    Returns (r, None) /\
    LatestRaceDate r = dateOf E2 /\ LatestEventDate r = dateOf E2 /\
    After (LatestRaceDate r) (LatestEventDate r) = false.
Proof.
  eexists. split; [vm_compute; reflexivity|].
  split; [vm_compute; reflexivity|].
  split; [vm_compute; reflexivity|].
  apply (X4_latest_race_not_after_latest_event decimalParseFloat
           (frozen sampleNow) 7 [E1; E2; E3] _ None).
  vm_compute; reflexivity.
Defined.

(** ** Event lists put end to end *)

Section Concatenation.

Variable ParseFloat : string -> float64 * option error.
Variable now : Time.

Lemma convert_all_frozen_app (d1 d2 : list Event) (its : list item) :
  convert_all ParseFloat (frozen now) 0 (d1 ++ d2) = Returns its ->
  exists its1 its2,
    convert_all ParseFloat (frozen now) 0 d1 = Returns its1 /\
    convert_all ParseFloat (frozen now) 0 d2 = Returns its2 /\
    its = its1 ++ its2.
Proof.
  revert its. induction d1 as [|e d1 IH]; intros its H.
  - exists [], its. auto.
  - change ((e :: d1) ++ d2) with (e :: (d1 ++ d2)) in H.
    apply convert_all_frozen_cons in H.
    destruct H as (it & its0 & -> & Hc & Ha).
    destruct (IH its0 Ha) as (its1 & its2 & H1 & H2 & ->).
    exists (it :: its1), its2. repeat split; trivial.
    apply convert_all_frozen_build; assumption.
Qed.

Lemma count_events_frozen_index (p : Time -> Event -> bool)
  (data : list Event) :
  forall i j : nat,
    count_events p (frozen now) i data = count_events p (frozen now) j data.
Proof.
  induction data as [|e data IH]; intros i j; simpl; [reflexivity|].
  unfold frozen at 1 3. rewrite (IH (S i) (S j)). reflexivity.
Qed.

Lemma count_events_frozen_app (p : Time -> Event -> bool)
  (d1 d2 : list Event) :
  forall i : nat,
    count_events p (frozen now) i (d1 ++ d2) =
    count_events p (frozen now) 0 d1 + count_events p (frozen now) 0 d2.
Proof.
  induction d1 as [|e d1 IH]; intros i; simpl.
  - apply count_events_frozen_index.
  - rewrite IH. rewrite (count_events_frozen_index p d1 1 0).
    change (frozen now i) with now. change (frozen now 0%nat) with now.
    destruct (p now e); lia.
Qed.

End Concatenation.

Lemma fmax_zero (m : float64) : ftp_ok m -> fmax F64.zero m = m.
Proof.
  intros [-> | G]; [reflexivity|]. unfold fmax. rewrite G. reflexivity.
Qed.

Lemma ftp_ok_key_eq (a b : float64) :
  ftp_ok a -> ftp_ok b -> fkey a = fkey b -> a = b.
Proof.
  intros Ha Hb K.
  destruct (fkey_inj a b (ftp_ok_not_nan a Ha) (ftp_ok_not_nan b Hb) K)
    as [E | [Ka Kb]]; [exact E|].
  assert (Z : forall u, ftp_ok u -> fkey u = (0, 0, 0) -> u = F64.zero).
  { intros u [-> | G] Ku; [reflexivity|]. exfalso.
    apply gt_spec in G. destruct G as (_ & _ & L).
    rewrite Ku in L. cbv [lex_lt fkey F64.zero] in L. lia. }
  rewrite (Z a Ha Ka), (Z b Hb Kb). reflexivity.
Qed.

(** On values that are zero or above the conditional assignment is the
    maximum of a total order. *)
Lemma fmax_assoc_ok (v x m : float64) :
  ftp_ok v -> ftp_ok x -> ftp_ok m ->
  fmax (fmax v x) m = fmax v (fmax x m).
Proof.
  intros Hv Hx Hm.
  pose proof (ftp_ok_not_nan v Hv) as Nv.
  pose proof (ftp_ok_not_nan x Hx) as Nx.
  pose proof (ftp_ok_not_nan m Hm) as Nm.
  unfold fmax.
  destruct (F64.gt x v) eqn:Gxv; destruct (F64.gt m x) eqn:Gmx;
    destruct (F64.gt m v) eqn:Gmv;
    rewrite ?Gxv, ?Gmx, ?Gmv; try reflexivity;
    apply ftp_ok_key_eq; trivial;
    repeat match goal with
           | H : F64.gt _ _ = true |- _ =>
               apply gt_spec in H; destruct H as (_ & _ & H)
           | H : F64.gt _ _ = false |- _ =>
               apply gt_false_key in H; [|assumption|assumption]
           end;
    unfold lex_lt in *;
    destruct (fkey v) as [[v1 v2] v3], (fkey x) as [[x1 x2] x3],
      (fkey m) as [[m1 m2] m3];
    try (exfalso; lia);
    (f_equal; [f_equal|]; lia).
Qed.

Lemma fmax_assoc (v x m : float64) :
  ftp_ok v -> ftp_ok m ->
  fmax (fmax v x) m = fmax v (fmax (fmax F64.zero x) m).
Proof.
  intros Hv Hm.
  assert (I0 : ftp_ok F64.zero) by (left; reflexivity).
  destruct (F64.gt x F64.zero) eqn:Gx0.
  - assert (E0 : fmax F64.zero x = x) by (unfold fmax; rewrite Gx0; reflexivity).
    rewrite E0. apply fmax_assoc_ok; trivial. right; exact Gx0.
  - assert (E0 : fmax F64.zero x = F64.zero)
      by (unfold fmax; rewrite Gx0; reflexivity).
    rewrite E0, (fmax_zero m Hm).
    assert (Gxv : F64.gt x v = false).
    { destruct Hv as [-> | Gv]; [exact Gx0|].
      destruct (F64.gt x v) eqn:G; [|reflexivity].
      pose proof (gt_trans _ _ _ G Gv). congruence. }
    unfold fmax at 2. rewrite Gxv. reflexivity.
Qed.

Lemma fold_fmax_from (N : Z) (its : list item) :
  forall v : float64,
    ftp_ok v ->
    fold_left (fun v it => if it_days it <=? N
                           then fmax v (it_wkgFtp it) else v) its v =
    fmax v (fold_left (fun v it => if it_days it <=? N
                                   then fmax v (it_wkgFtp it) else v)
                      its F64.zero).
Proof.
  assert (I0 : ftp_ok F64.zero) by (left; reflexivity).
  assert (Hok : forall l v, ftp_ok v ->
            ftp_ok (fold_left (fun v it => if it_days it <=? N
                                           then fmax v (it_wkgFtp it) else v)
                              l v)).
  { induction l as [|y l IHl]; intros v Hv; simpl; [exact Hv|].
    apply IHl. destruct (it_days y <=? N); [apply ftp_ok_fmax|]; exact Hv. }
  induction its as [|it its IH]; intros v Hv; simpl.
  - unfold fmax. destruct Hv as [-> | G]; [reflexivity|].
    rewrite (gt_asym _ _ G). reflexivity.
  - destruct (it_days it <=? N).
    + rewrite (IH (fmax v (it_wkgFtp it))) by (apply ftp_ok_fmax; exact Hv).
      rewrite (IH (fmax F64.zero (it_wkgFtp it)))
        by (apply ftp_ok_fmax; exact I0).
      apply fmax_assoc; [exact Hv | apply Hok; exact I0].
    + apply IH; exact Hv.
Qed.

Lemma latest_fold_not_before {X : Type} (p : item -> bool) (pay : item -> X)
  (its : list item) :
  forall (c : Time) (x : X),
    After zeroTime c = false ->
    After zeroTime (fst (fold_left (latest_step p pay) its (c, x))) = false.
Proof.
  induction its as [|y l IH]; intros c x H; simpl; [exact H|].
  unfold latest_step at 2. simpl.
  destruct (p y && After (it_date y) c) eqn:G; [|apply IH; exact H].
  apply IH. apply andb_true_iff in G. destruct G as [_ G].
  apply After_spec in G. apply After_false in H. apply After_false.
  simpl in *. lia.
Qed.

(** A "latest" pointer that starts from a date and a payload ends where
    the pointer that starts unset ends, when that is strictly after the
    date it started from, and stays where it started otherwise. *)
Lemma latest_fold_from {X : Type} (p : item -> bool) (pay : item -> X)
  (x0 : X) (its : list item) :
  forall (c : Time) (x : X),
    After zeroTime c = false ->
    fold_left (latest_step p pay) its (c, x) =
    (if After (fst (fold_left (latest_step p pay) its (zeroTime, x0))) c
     then fold_left (latest_step p pay) its (zeroTime, x0)
     else (c, x)).
Proof.
  intros c x Hc.
  induction its as [|y l IH] using rev_ind; simpl.
  - rewrite Hc. reflexivity.
  - rewrite !fold_left_app. simpl. rewrite IH.
    destruct (fold_left (latest_step p pay) l (zeroTime, x0)) as [c2 x2].
    simpl.
    destruct (After c2 c) eqn:G1.
    + unfold latest_step; simpl.
      destruct (p y); simpl; [|rewrite G1; reflexivity].
      destruct (After (it_date y) c2) eqn:G2; simpl.
      * assert (G3 : After (it_date y) c = true).
        { apply After_spec in G1, G2. apply After_spec. lia. }
        rewrite G3. reflexivity.
      * rewrite G1. reflexivity.
    + unfold latest_step; simpl.
      destruct (p y); simpl; [|rewrite G1; reflexivity].
      destruct (After (it_date y) c2) eqn:G2; simpl.
      * destruct (After (it_date y) c); reflexivity.
      * rewrite G1.
        assert (G3 : After (it_date y) c = false).
        { apply After_false in G1, G2. apply After_false. lia. }
        rewrite G3. reflexivity.
Qed.

Lemma pair_if {A B : Type} (b : bool) (x y : A * B) :
  (if b then x else y) = (if b then fst x else fst y, if b then snd x else snd y).
Proof. destruct b, x, y; reflexivity. Qed.

(** X6. With the reference instant held fixed, the snapshot of two event
    lists put end to end is the [merge] of the snapshots of the two
    lists: the counters add up, each maximum is the greater of the two,
    and each "latest" pointer, with its title and ratios, is that of the
    second list only when its date is strictly after that of the first. *)
Theorem X6_concatenation :
  forall (ParseFloat : string -> float64 * option error) (now : Time)
         (riderID : Z) (d1 d2 : list Event) (r : Rider) (err : option error),
    Z.of_nat (List.length (d1 ++ d2)) <= Int64.max ->
    ImportRider ParseFloat (frozen now) riderID (d1 ++ d2) = Returns (r, err) ->
    exists r1 r2 : Rider,
      ImportRider ParseFloat (frozen now) riderID d1 = Returns (r1, None) /\
      ImportRider ParseFloat (frozen now) riderID d2 = Returns (r2, None) /\
      r = merge r1 r2.
Proof.
  intros ParseFloat now riderID d1 d2 r err Hlen H.
  apply ImportRider_returns in H. destruct H as (its & Hc & -> & _).
  pose proof (items_counts ParseFloat (frozen now) (d1 ++ d2) its riderID
                Hlen Hc) as (K1 & K2 & K3 & K4).
  rewrite !count_events_frozen_app in K1, K2, K3, K4.
  destruct (convert_all_frozen_app ParseFloat now d1 d2 its Hc)
    as (its1 & its2 & H1 & H2 & ->).
  rewrite length_app, Nat2Z.inj_add in Hlen.
  pose proof (items_counts ParseFloat (frozen now) d1 its1 riderID
                ltac:(lia) H1) as (A1 & A2 & A3 & A4).
  pose proof (items_counts ParseFloat (frozen now) d2 its2 riderID
                ltac:(lia) H2) as (B1 & B2 & B3 & B4).
  exists (snapshot (fold_left accumulate its1 (initial riderID))),
         (snapshot (fold_left accumulate its2 (initial riderID))).
  split; [rewrite ImportRider_fold, H1; reflexivity|].
  split; [rewrite ImportRider_fold, H2; reflexivity|].
  assert (I0 : ftp_ok F64.zero) by (left; reflexivity).
  set (st1 := fold_left accumulate its1 (initial riderID)) in *.
  set (st2 := fold_left accumulate its2 (initial riderID)) in *.
  set (st := fold_left accumulate (its1 ++ its2) (initial riderID)) in *.
  assert (Est : st = fold_left accumulate its2 st1)
    by (unfold st, st1; apply fold_left_app).
  (* names *)
  destruct (fold_identity (its1 ++ its2) (initial riderID)) as (N & Z).
  destruct (fold_identity its1 (initial riderID)) as (N1 & Z1).
  fold st in N, Z. fold st1 in N1, Z1.
  (* maxima *)
  destruct (fold_nested its1 (initial riderID)) as (O3 & O6 & O9 & _).
  { simpl. repeat split; trivial. }
  fold st1 in O3, O6, O9.
  assert (F9 : Ftp90 (riderOf st) = fmax (Ftp90 (riderOf st1)) (Ftp90 (riderOf st2))).
  { rewrite Est, Ftp90_fold, (fold_fmax_from 90 its2 _ O9).
    unfold st2. rewrite Ftp90_fold. reflexivity. }
  assert (F6 : Ftp60 (riderOf st) = fmax (Ftp60 (riderOf st1)) (Ftp60 (riderOf st2))).
  { rewrite Est, Ftp60_fold, (fold_fmax_from 60 its2 _ O6).
    unfold st2. rewrite Ftp60_fold. reflexivity. }
  assert (F3 : Ftp30 (riderOf st) = fmax (Ftp30 (riderOf st1)) (Ftp30 (riderOf st2))).
  { rewrite Est, Ftp30_fold, (fold_fmax_from 30 its2 _ O3).
    unfold st2. rewrite Ftp30_fold. reflexivity. }
  (* the latest event *)
  pose proof (latest_event_fold its1 (initial riderID)) as E1.
  pose proof (latest_event_fold its2 (initial riderID)) as E2.
  pose proof (latest_event_fold its2 st1) as E.
  fold st1 in E1. fold st2 in E2. rewrite <- Est in E.
  assert (P1 : After zeroTime (latestEventDate st1) = false).
  { change (latestEventDate st1)
      with (fst (latestEventDate st1, LatestEvent (riderOf st1))).
    rewrite E1. apply latest_fold_not_before. reflexivity. }
  rewrite (latest_fold_from (fun _ => true) it_title "" its2 _ _ P1) in E.
  simpl in E2. rewrite <- E2 in E. simpl in E. rewrite pair_if in E.
  simpl in E. inversion E as [[Ed Et]]. clear E.
  (* the latest race *)
  pose proof (latest_race_fold its1 (initial riderID)) as R1.
  pose proof (latest_race_fold its2 (initial riderID)) as R2.
  pose proof (latest_race_fold its2 st1) as R.
  fold st1 in R1. fold st2 in R2. rewrite <- Est in R.
  assert (Q1 : After zeroTime (latestRaceDate st1) = false).
  { change (latestRaceDate st1)
      with (fst (latestRaceDate st1,
                 (LatestRace (riderOf st1), LatestRaceAvgWkg (riderOf st1),
                  LatestRaceWkgFtp (riderOf st1)))).
    rewrite R1. apply latest_fold_not_before. reflexivity. }
  rewrite (latest_fold_from it_race
             (fun it => (it_title it, it_avgWkg it, it_wkgFtp it))
             ("", F64.zero, F64.zero) its2 _ _ Q1) in R.
  simpl in R2. rewrite <- R2 in R. simpl in R. rewrite pair_if in R.
  simpl in R.
  assert (Rd : latestRaceDate st =
               if After (latestRaceDate st2) (latestRaceDate st1)
               then latestRaceDate st2 else latestRaceDate st1)
    by (inversion R; reflexivity).
  assert (Rt : LatestRace (riderOf st) =
               if After (latestRaceDate st2) (latestRaceDate st1)
               then LatestRace (riderOf st2) else LatestRace (riderOf st1))
    by (inversion R; destruct (After (latestRaceDate st2) (latestRaceDate st1));
        congruence).
  assert (Ra : LatestRaceAvgWkg (riderOf st) =
               if After (latestRaceDate st2) (latestRaceDate st1)
               then LatestRaceAvgWkg (riderOf st2)
               else LatestRaceAvgWkg (riderOf st1))
    by (inversion R; destruct (After (latestRaceDate st2) (latestRaceDate st1));
        congruence).
  assert (Rw : LatestRaceWkgFtp (riderOf st) =
               if After (latestRaceDate st2) (latestRaceDate st1)
               then LatestRaceWkgFtp (riderOf st2)
               else LatestRaceWkgFtp (riderOf st1))
    by (inversion R; destruct (After (latestRaceDate st2) (latestRaceDate st1));
        congruence).
  clear R.
  simpl in N, Z, N1, Z1, K1, K2, K3, K4, A1, A2, A3, A4, B1, B2, B3, B4.
  unfold merge, snapshot, set_LatestRaceDate, set_LatestEventDate. simpl.
  rewrite Ed, Et, Rd, Rt, Ra, Rw, F9, F6, F3, N, N1, Z, Z1.
  rewrite K1, K2, K3, K4, A1, A2, A3, A4, B1, B2, B3, B4.
  reflexivity.
Qed.

Lemma X6_concatenation_witness :
  exists r r1 r2 : Rider,
    ImportRider decimalParseFloat (frozen sampleNow) 7
                ([E1; E2] ++ [E2bis; E3]) = Returns (r, None) /\
    ImportRider decimalParseFloat (frozen sampleNow) 7 [E1; E2] =
    Returns (r1, None) /\
    ImportRider decimalParseFloat (frozen sampleNow) 7 [E2bis; E3] =
    Returns (r2, None) /\
    Rides r = 3 /\ Rides r1 = 2 /\ Rides r2 = 1 /\
    LatestRace r = "E2" /\ LatestRace r2 = "E2bis" /\
    r = merge r1 r2.
Proof.
  assert (Hr : exists r, ImportRider decimalParseFloat (frozen sampleNow) 7
                           ([E1; E2] ++ [E2bis; E3]) = Returns (r, None))
    by (eexists; vm_compute; reflexivity).
  destruct Hr as (r & Hr).
  assert (Hlen : Z.of_nat (List.length ([E1; E2] ++ [E2bis; E3])) <= Int64.max)
    by (vm_compute; discriminate).
  destruct (X6_concatenation decimalParseFloat sampleNow 7 [E1; E2]
              [E2bis; E3] r None Hlen Hr) as (r1 & r2 & H1 & H2 & E).
  exists r, r1, r2.
  pose proof Hr as V. vm_compute in V. injection V as V.
  pose proof H1 as V1. vm_compute in V1. injection V1 as V1.
  pose proof H2 as V2. vm_compute in V2. injection V2 as V2.
  repeat split; trivial.
  - rewrite <- V; reflexivity.
  - rewrite <- V1; reflexivity.
  - rewrite <- V2; reflexivity.
  - rewrite <- V; reflexivity.
  - rewrite <- V2; reflexivity.
Defined.

(** ** Counted events have a date *)

Lemma count_events_pos (p : Time -> Event -> bool) (clock : Clock)
  (data : list Event) :
  forall i : nat,
    1 <= count_events p clock i data ->
    exists j e, nth_error data j = Some e /\ p (clock (i + j)%nat) e = true.
Proof.
  induction data as [|e data IH]; intros i H; simpl in H; [lia|].
  destruct (p (clock i) e) eqn:P.
  - exists 0%nat, e. rewrite Nat.add_0_r. auto.
  - destruct (IH (S i) ltac:(lia)) as (j & e' & Hj & Pj).
    exists (S j), e'. split; [exact Hj|].
    replace (i + S j)%nat with (S i + j)%nat by lia. exact Pj.
Qed.

Lemma count_events_ge (p : Time -> Event -> bool) (clock : Clock)
  (data : list Event) :
  forall (i j : nat) (e : Event),
    nth_error data j = Some e -> p (clock (i + j)%nat) e = true ->
    1 <= count_events p clock i data.
Proof.
  induction data as [|e0 data IH]; intros i j e Hj P.
  - destruct j; discriminate.
  - simpl. pose proof (count_events_bounds p clock data (S i)) as B.
    destruct j as [|j]; simpl in Hj.
    + inversion Hj; subst. rewrite Nat.add_0_r in P. rewrite P. lia.
    + replace (i + S j)%nat with (S i + j)%nat in P by lia.
      pose proof (IH (S i) j e Hj P). destruct (p (clock i) e0); lia.
Qed.

(** An event of [k] days or fewer in exact time, up to 366, is of [k]
    days or fewer. *)
Lemma daysAgo_within (now date : Time) (k : Z) :
  0 <= k <= 366 -> age now date <= k * Day -> daysAgo now date <= k.
Proof.
  intros Hk H. pose proof Day_value as ED.
  destruct Int64_bounds as [Emin Emax].
  destruct (Z_le_gt_dec (age now date) 0) as [L|L].
  { pose proof (daysAgo_future now date L). lia. }
  destruct (Z.eq_dec (age now date) (k * Day)) as [E|E].
  { rewrite (daysAgo_exact now date k Hk E). lia. }
  assert (B : 0 <= age now date <= Int64.max) by (rewrite Emax, ED in *; lia).
  pose proof (daysAgo_le_spec now date B) as U.
  unfold spec_daysAgo in U.
  assert (Z.quot (age now date) Day <= k - 1).
  { rewrite Z.quot_div_nonneg by (rewrite ?ED; lia).
    apply Z.lt_succ_r. apply Z.div_lt_upper_bound; rewrite ?ED in *; lia. }
  lia.
Qed.

(** At a clock reading since the Unix epoch, an event of 365 days or
    fewer has a date after the zero instant. *)
Lemma counted_dated (now : Time) (e : Event) :
  since_epoch now = true -> daysAgo now (dateOf e) <= 365 ->
  After (dateOf e) zeroTime = true.
Proof.
  unfold since_epoch. rewrite !andb_true_iff, !Z.leb_le, Z.ltb_lt.
  intros ((Hs & Hn0) & Hn1) Hd.
  destruct (After (dateOf e) zeroTime) eqn:A; [reflexivity|exfalso].
  apply After_false in A. simpl in A.
  assert (Hsec : Int64.wrap (EventDateSecs e + unixToInternal) <= 0) by lia.
  pose proof (daysAgo_old now (dateOf e) 366 ltac:(lia)) as O.
  assert (366 * Day <= age now (dateOf e)); [|lia].
  rewrite Day_value. unfold age, dateOf, time_Unix. simpl.
  unfold Second, unixToInternal in *. lia.
Qed.

Lemma latest_fold_set {X : Type} (p : item -> bool) (pay : item -> X)
  (x0 : X) (its : list item) (j : nat) (it : item) :
  nth_error its j = Some it -> p it = true ->
  After (it_date it) zeroTime = true ->
  After (fst (fold_left (latest_step p pay) its (zeroTime, x0))) zeroTime = true.
Proof.
  intros Hj Pj A.
  destruct (latest_fold p pay x0 its)
    as [(_ & _ & H) | (i & it0 & _ & _ & -> & _ & H & _)].
  - rewrite (H j it Hj Pj) in A. discriminate.
  - specialize (H j it Hj Pj). apply After_false in H.
    apply After_spec in A. apply After_spec. simpl in *. lia.
Qed.

Lemma After_zero_IsZero (t : Time) :
  After t zeroTime = true -> IsZero t = false.
Proof.
  intros A. apply After_spec in A. simpl in A. unfold IsZero.
  destruct (Z.eqb_spec (sec t) 0), (Z.eqb_spec (nsec t) 0); simpl; trivial.
  lia.
Qed.

(** X5. When the clock reads instants since the Unix epoch, an event
    that is counted has a date after the zero instant: a snapshot that
    counts a ride has its latest event set, and a snapshot that counts a
    race has its latest race set. *)
Theorem X5_counted_events_are_dated :
  forall (ParseFloat : string -> float64 * option error) (clock : Clock)
         (riderID : Z) (data : list Event) (r : Rider) (err : option error),
    Z.of_nat (List.length data) <= Int64.max ->
    (forall i, since_epoch (clock i) = true) ->
    ImportRider ParseFloat clock riderID data = Returns (r, err) ->
    (1 <= Rides r -> IsZero (LatestEventDate r) = false) /\
    (1 <= Races r -> IsZero (LatestRaceDate r) = false).
Proof.
  intros ParseFloat clock riderID data r err Hlen Hclock H.
  apply ImportRider_returns in H. destruct H as (its & Hc & -> & _).
  pose proof (items_counts ParseFloat clock data its riderID Hlen Hc)
    as (K1 & K2 & _).
  simpl in K1, K2. simpl.
  split; intros Hpos; apply After_zero_IsZero.
  - rewrite K1 in Hpos.
    destruct (count_events_pos _ clock data 0 Hpos) as (j & e & Hj & Pj).
    simpl in Pj. unfold in_window in Pj. apply Z.leb_le in Pj.
    destruct (item_of_event ParseFloat clock data its Hc j e Hj)
      as (it & Hit & Hcv).
    apply convert_inv in Hcv. destruct Hcv as (_ & _ & _ & _ & Hd & _).
    pose proof (latest_event_fold its (initial riderID)) as E.
    change (latestEventDate (fold_left accumulate its (initial riderID)))
      with (fst (latestEventDate (fold_left accumulate its (initial riderID)),
                 LatestEvent (riderOf (fold_left accumulate its
                                         (initial riderID))))).
    rewrite E. simpl.
    apply (latest_fold_set (fun _ => true) it_title "" its j it Hit eq_refl).
    rewrite Hd. apply (counted_dated (clock j) e (Hclock j) Pj).
  - rewrite K2 in Hpos.
    destruct (count_events_pos _ clock data 0 Hpos) as (j & e & Hj & Pj).
    simpl in Pj. apply andb_true_iff in Pj. destruct Pj as [Pj Rj].
    unfold in_window in Pj. apply Z.leb_le in Pj.
    destruct (item_of_event ParseFloat clock data its Hc j e Hj)
      as (it & Hit & Hcv).
    apply convert_inv in Hcv. destruct Hcv as (_ & _ & _ & Hr & Hd & _).
    pose proof (latest_race_fold its (initial riderID)) as E.
    change (latestRaceDate (fold_left accumulate its (initial riderID)))
      with (fst (latestRaceDate (fold_left accumulate its (initial riderID)),
                 (LatestRace (riderOf (fold_left accumulate its
                                         (initial riderID))),
                  LatestRaceAvgWkg (riderOf (fold_left accumulate its
                                               (initial riderID))),
                  LatestRaceWkgFtp (riderOf (fold_left accumulate its
                                               (initial riderID)))))).
    rewrite E. simpl.
    apply (latest_fold_set it_race
             (fun it => (it_title it, it_avgWkg it, it_wkgFtp it))
             ("", F64.zero, F64.zero) its j it Hit).
    + congruence.
    + rewrite Hd. apply (counted_dated (clock j) e (Hclock j) Pj).
Qed.

Lemma X5_counted_events_are_dated_witness :
  exists r : Rider,
    ImportRider decimalParseFloat (frozen sampleNow) 7 [E1; E2; E3] =
    Returns (r, None) /\
    Rides r = 2 /\ Races r = 2 /\
    IsZero (LatestEventDate r) = false /\ IsZero (LatestRaceDate r) = false.
Proof.
  assert (Hr : exists r, ImportRider decimalParseFloat (frozen sampleNow) 7
                           [E1; E2; E3] = Returns (r, None))
    by (eexists; vm_compute; reflexivity).
  destruct Hr as (r & Hr). exists r.
  assert (Hlen : Z.of_nat (List.length [E1; E2; E3]) <= Int64.max)
    by (vm_compute; discriminate).
  assert (Hclock : forall i, since_epoch (frozen sampleNow i) = true)
    by (intros i; vm_compute; reflexivity).
  destruct (X5_counted_events_are_dated decimalParseFloat (frozen sampleNow) 7
              [E1; E2; E3] r None Hlen Hclock Hr) as (H1 & H2).
  pose proof Hr as V. vm_compute in V. injection V as V.
  assert (R1 : Rides r = 2) by (rewrite <- V; reflexivity).
  assert (R2 : Races r = 2) by (rewrite <- V; reflexivity).
  repeat split; trivial; [apply H1 | apply H2]; lia.
Defined.

(** ** MonthsAgo *)

Lemma saturate_le (z b : Z) :
  b < Int64.max -> Int64.saturate z <= b -> z <= b.
Proof.
  intros Hb H. destruct Int64_bounds as [Emin Emax].
  destruct (saturate_cases z) as [[L E] | [[L E] | [L E]]]; rewrite E in H; lia.
Qed.

(** X9. When [MonthsAgo], called at a clock reading that is not before
    those of the import, finds a latest event and finds it within the
    year, the import has counted at least one ride. *)
Theorem X9_recent_latest_event_is_counted :
  forall (ParseFloat : string -> float64 * option error) (Month : Time -> Z)
         (clock clock' : Clock) (riderID : Z) (data : list Event) (r : Rider)
         (err : option error),
    Z.of_nat (List.length data) <= Int64.max ->
    (forall i, 0 <= age (clock' 0%nat) (clock i)) ->
    ImportRider ParseFloat clock riderID data = Returns (r, err) ->
    MonthsAgo Month clock' r <> "No latest event" ->
    MonthsAgo Month clock' r <> "Over a year ago" ->
    1 <= Rides r.
Proof.
  intros ParseFloat Month clock clock' riderID data r err Hlen Hclock H M1 M2.
  apply ImportRider_returns in H. destruct H as (its & Hc & -> & _).
  pose proof (items_counts ParseFloat clock data its riderID Hlen Hc)
    as (K1 & _).
  simpl in K1. simpl. rewrite K1. clear K1.
  unfold MonthsAgo in M1, M2. simpl in M1, M2.
  set (led := latestEventDate (fold_left accumulate its (initial riderID))) in *.
  destruct (IsZero led) eqn:HZ; [congruence|].
  destruct (31536000000000000 <? Sub (clock' 0%nat) led) eqn:Y; [congruence|].
  apply Z.ltb_ge in Y. clear M1 M2.
  pose proof (latest_event_fold its (initial riderID)) as E.
  assert (El : led = fst (fold_left (latest_step (fun _ => true) it_title) its
                            (zeroTime, "")))
    by (simpl in E; rewrite <- E; reflexivity).
  destruct (latest_fold (fun _ => true) it_title "" its)
    as [(C & _) | (i & it & Hit & _ & C & _)]; rewrite <- El in C.
  { rewrite C in HZ. discriminate. }
  destruct (event_of_item ParseFloat clock data its Hc i it Hit)
    as (e & He & Hcv).
  apply convert_inv in Hcv. destruct Hcv as (_ & _ & _ & _ & Hd & _).
  apply (count_events_ge (in_window 365) clock data 0 i e He).
  simpl. unfold in_window. apply Z.leb_le.
  apply daysAgo_within; [lia|].
  rewrite <- Hd, <- C.
  rewrite Sub_age in Y. apply saturate_le in Y; [|vm_compute; reflexivity].
  specialize (Hclock i). unfold age in *.
  rewrite Day_value. unfold Hour, Second in *. lia.
Qed.

Lemma X9_recent_latest_event_is_counted_witness :
  exists r : Rider,
    ImportRider decimalParseFloat (frozen sampleNow) 7 [E1; E2; E3] =
    Returns (r, None) /\
    MonthsAgo alwaysMarch (frozen sampleNow) r = "This month" /\
    1 <= Rides r.
Proof.
  eexists. split; [vm_compute; reflexivity|].
  split; [vm_compute; reflexivity|].
  apply (X9_recent_latest_event_is_counted decimalParseFloat alwaysMarch
           (frozen sampleNow) (frozen sampleNow) 7 [E1; E2; E3] _ None).
  - vm_compute; discriminate.
  - intros i. vm_compute; discriminate.
  - vm_compute; reflexivity.
  - vm_compute; discriminate.
  - vm_compute; discriminate.
Defined.

(** X8. [MonthsAgo] answers one of fourteen texts, whatever the rider and
    the clock: the difference of two months of the calendar, brought back
    between 0 and 11, is never written as "0 months ago", "1 months ago"
    or "12 months ago".  It answers "No latest event" for the zero date
    and for no other, and "Over a year ago" for a date that is not zero
    and more than 365 days of 24 hours before the clock reading, and for
    no other: a date of exactly 365 days is within the year. *)
Theorem X8_MonthsAgo_texts :
  forall (Month : Time -> Z) (clock : Clock) (r : Rider),
    (forall t, 1 <= Month t <= 12) ->
    In (MonthsAgo Month clock r) MonthsAgo_texts /\
    (MonthsAgo Month clock r = "No latest event" <->
     IsZero (LatestEventDate r) = true) /\
    (MonthsAgo Month clock r = "Over a year ago" <->
     IsZero (LatestEventDate r) = false /\
     365 * Day < Sub (clock 0%nat) (LatestEventDate r)).
Proof.
  intros Month clock r HM.
  unfold MonthsAgo.
  destruct (IsZero (LatestEventDate r)) eqn:HZ.
  { split; [left; reflexivity|].
    split; split; trivial; try discriminate. intros [? _]; discriminate. }
  change (Hour * 24 * 365) with (365 * Day).
  generalize (Sub (clock 0%nat) (LatestEventDate r)). intros d.
  generalize (365 * Day). intros y.
  destruct (Z.ltb_spec y d) as [Y|Y].
  { split; [right; left; reflexivity|].
    split; split; trivial; try discriminate. auto. }
  pose proof (HM (clock 1%nat)) as H1.
  pose proof (HM (LatestEventDate r)) as H2.
  set (m := Month (clock 1%nat) - Month (LatestEventDate r)) in *.
  set (k := if m <? 0 then m + 12 else m).
  assert (Hk : 0 <= k <= 11).
  { unfold k. destruct (Z.ltb_spec m 0); lia. }
  assert (Ek : k = 0 \/ k = 1 \/ k = 2 \/ k = 3 \/ k = 4 \/ k = 5 \/ k = 6 \/
               k = 7 \/ k = 8 \/ k = 9 \/ k = 10 \/ k = 11) by lia.
  clearbody k. clear Hk H1 H2 m HM.
  assert (T : forall s : string,
             In s MonthsAgo_texts -> s <> "No latest event" ->
             s <> "Over a year ago" ->
             In s MonthsAgo_texts /\
             (s = "No latest event" <-> false = true) /\
             (s = "Over a year ago" <-> false = false /\ y < d)).
  { intros s Hs N1 N2. split; [exact Hs|].
    split; split; try discriminate; try congruence.
    intros [_ L]. lia. }
  unfold MonthsAgo_texts in *.
  repeat (destruct Ek as [-> | Ek];
          [apply T; [simpl; tauto | discriminate | discriminate]|]).
  subst k. apply T; [simpl; tauto | discriminate | discriminate].
Qed.

Lemma X8_MonthsAgo_texts_witness :
  In (MonthsAgo alwaysMarch (frozen sampleNow) zeroRider) MonthsAgo_texts /\
  MonthsAgo alwaysMarch (frozen sampleNow) zeroRider = "No latest event".
Proof.
  split; [|reflexivity].
  apply (X8_MonthsAgo_texts alwaysMarch (frozen sampleNow) zeroRider).
  intros t. vm_compute. split; discriminate.
Defined.

(** ** Opposite ages *)

Lemma round_aux_mirror (mx ex : Z) (lx : location) :
  0 <= mx ->
  mirror (binary_round_aux F64.prec F64.emax false mx ex lx)
         (binary_round_aux F64.prec F64.emax true mx ex lx).
Proof.
  intros H.
  pose proof (round_aux_sign false mx ex lx H) as S.
  revert S. unfold binary_round_aux.
  destruct (shr_fexp F64.prec F64.emax mx ex lx) as [mrs1 e1].
  destruct (shr_fexp F64.prec F64.emax _ e1 loc_Exact) as [mrs2 e2].
  destruct (shr_m mrs2) as [|m|m]; [intros _; exact I | | intros []].
  destruct (e2 <=? F64.emax - F64.prec); intros _; simpl; auto.
Qed.

Lemma binary_round_mirror (p : positive) (e : Z) :
  mirror (binary_round F64.prec F64.emax false p e)
         (binary_round F64.prec F64.emax true p e).
Proof.
  unfold binary_round.
  destruct (shl_align p e _) as [mz ez]. apply round_aux_mirror. lia.
Qed.

Lemma of_int_mirror (n : Z) :
  0 <= n -> mirror (F64.of_int n) (F64.of_int (- n)).
Proof.
  intros H. destruct n as [|p|p]; try lia; [exact I|].
  unfold F64.of_int, binary_normalize. simpl Z.opp.
  apply binary_round_mirror.
Qed.

Lemma div_mirror (x y : float64) (m2 : positive) (e2 : Z) :
  mirror x y ->
  mirror (F64.div x (S754_finite false m2 e2))
         (F64.div y (S754_finite false m2 e2)).
Proof.
  destruct x as [sx|[|]| |[|] mx ex], y as [sy|[|]| |[|] my ey]; simpl;
    intros H; try contradiction; trivial.
  destruct H as [-> ->].
  unfold F64.div, SFdiv.
  destruct (div_core_spec mx m2 ex e2) as (l & ->). simpl xorb.
  apply round_aux_mirror.
  apply Z.div_pos; [|lia].
  apply Z.mul_nonneg_nonneg; [lia|]. apply Z.pow_nonneg. lia.
Qed.

Lemma add_mirror (x x' y y' : float64) :
  mirror x x' -> mirror y y' -> mirror (F64.add x y) (F64.add x' y').
Proof.
  destruct x as [sx|[|]| |[|] mx ex], x' as [sx'|[|]| |[|] mx' ex'];
    simpl; intros Hx; try contradiction;
    destruct y as [sy|[|]| |[|] my ey], y' as [sy'|[|]| |[|] my' ey'];
    simpl; intros Hy; try contradiction; trivial.
  - destruct sx, sy, sx', sy'; exact I.
  - destruct Hx as [-> ->], Hy as [-> ->].
    unfold F64.add, SFadd. simpl cond_Zopp.
    set (A := fst (shl_align mx ex (Z.min ex ey))).
    set (B := fst (shl_align my ey (Z.min ex ey))).
    change (Zpos A + Zpos B) with (Zpos (A + B)).
    change (- Zpos A + - Zpos B) with (Zneg (A + B)).
    unfold binary_normalize. apply binary_round_mirror.
Qed.

Lemma to_int_mirror (x y : float64) :
  mirror x y -> 0 <= F64.to_int x -> F64.to_int y = - F64.to_int x.
Proof.
  destruct Int64_bounds as [Emin Emax].
  destruct x as [sx|[|]| |[|] mx ex], y as [sy|[|]| |[|] my ey]; simpl;
    intros H; try contradiction; try reflexivity.
  destruct H as [-> ->].
  set (a := match ex with
            | Zneg p => Z.shiftr (Zpos mx) (Zpos p)
            | _ => Z.shiftl (Zpos mx) ex
            end).
  unfold Int64.in_range. rewrite Emin, Emax.
  destruct (Z.leb_spec (-9223372036854775808) a);
    destruct (Z.leb_spec a 9223372036854775807); simpl; try lia;
    destruct (Z.leb_spec (-9223372036854775808) (- a));
    destruct (Z.leb_spec (- a) 9223372036854775807); simpl; lia.
Qed.

(** The days of an age and of the opposite age are opposite. *)
Lemma Days_opp (d : Z) : 0 <= d <= Int64.max -> Days (- d) = - Days d.
Proof.
  intros H. pose proof (Days_nonneg d H) as N.
  unfold Days in *. apply to_int_mirror; [|exact N].
  rewrite of_int_24. apply div_mirror.
  unfold Hours.
  assert (HH : Hour = 3600000000000) by reflexivity.
  rewrite Z.quot_opp_l, Z.rem_opp_l by (rewrite HH; discriminate).
  apply add_mirror.
  - apply of_int_mirror. apply Z.quot_pos; rewrite ?HH; lia.
  - rewrite of_int_hour. apply div_mirror. apply of_int_mirror.
    apply Z.rem_nonneg; rewrite ?HH; lia.
Qed.

Lemma Days_max : Days Int64.min = -106751.
Proof. vm_compute. reflexivity. Qed.

(** The days of every age a [Duration] holds. *)
Lemma Days_range (d : Z) :
  Int64.min <= d <= Int64.max -> -106752 <= Days d <= 106752.
Proof.
  intros H. destruct Int64_bounds as [Emin Emax].
  pose proof Day_value as ED.
  assert (U : forall a, 0 <= a <= Int64.max -> 0 <= Days a <= 106752).
  { intros a Ha. pose proof (Days_nonneg a Ha). pose proof (Days_upper a Ha).
    assert (a / Day <= 106751).
    { apply Z.lt_succ_r. apply Z.div_lt_upper_bound; rewrite ?ED; lia. }
    lia. }
  destruct (Z_le_gt_dec 0 d) as [P|P].
  - specialize (U d ltac:(lia)). lia.
  - destruct (Z.eq_dec d Int64.min) as [->|Nm].
    + rewrite Days_max. lia.
    + specialize (U (- d) ltac:(lia)).
      pose proof (Days_opp (- d) ltac:(lia)) as O.
      rewrite Z.opp_involutive in O. lia.
Qed.

(** X7. The number of days of an event is between -106752 and 106752
    whatever the two instants: the float64 value [Hours() / 24] always
    fits an [int], so the conversion [int(...)] never meets the case that
    depends on the machine. *)
Theorem X7_daysAgo_range :
  forall now date : Time,
    -106752 <= daysAgo now date <= 106752 /\
    daysAgo now date <> Int64.min.
Proof.
  intros now date.
  assert (R : -106752 <= daysAgo now date <= 106752).
  { unfold daysAgo. apply Days_range. rewrite Sub_age.
    destruct Int64_bounds as [Emin Emax].
    destruct (saturate_cases (age now date)) as [[_ ->] | [[_ ->] | [B ->]]];
      lia. }
  split; [exact R|]. destruct Int64_bounds as [Emin _]. lia.
Qed.

(** X15. Swapping the two instants changes the sign of the number of
    days and nothing else, as long as their distance is one a [Duration]
    holds: rounding is the same on both sides of zero.  So an event after
    [now] has the whole days of its distance, or one more, below zero. *)
Theorem X15_daysAgo_antisymmetric :
  forall t u : Time,
    - Int64.max <= age t u <= Int64.max ->
    daysAgo u t = - daysAgo t u /\
    (age t u <= 0 ->
     spec_daysAgo t u - 1 <= daysAgo t u <= spec_daysAgo t u).
Proof.
  intros t u H. destruct Int64_bounds as [Emin Emax].
  assert (A : age u t = - age t u) by (unfold age; lia).
  assert (S1 : Sub t u = age t u).
  { rewrite Sub_age.
    destruct (saturate_cases (age t u)) as [[L _] | [[L _] | [_ ->]]]; lia. }
  assert (S2 : Sub u t = - age t u).
  { rewrite Sub_age, A.
    destruct (saturate_cases (- age t u)) as [[L _] | [[L _] | [_ ->]]]; lia. }
  assert (O : Days (- age t u) = - Days (age t u)).
  { destruct (Z_le_gt_dec 0 (age t u)) as [P|P].
    - apply Days_opp. lia.
    - pose proof (Days_opp (- age t u) ltac:(lia)) as O.
      rewrite Z.opp_involutive in O. lia. }
  split.
  - unfold daysAgo. rewrite S1, S2. exact O.
  - intros Hneg. unfold daysAgo, spec_daysAgo. rewrite S1.
    pose proof Day_value as ED.
    assert (Hq : Z.quot (age t u) Day = - (- age t u / Day)).
    { rewrite <- (Z.opp_involutive (age t u)) at 1.
      rewrite Z.quot_opp_l by (rewrite ED; discriminate).
      rewrite Z.quot_div_nonneg by (rewrite ?ED; lia). reflexivity. }
    pose proof (Days_ge_quot (- age t u) ltac:(lia)) as L.
    rewrite Z.quot_div_nonneg in L by (rewrite ?ED; lia).
    pose proof (Days_upper (- age t u) ltac:(lia)) as U.
    rewrite O in L, U. lia.
Qed.

Lemma X15_daysAgo_antisymmetric_witness :
  daysAgo (dateOf E2) sampleNow = -10 /\
  daysAgo (dateOf E2) sampleNow = - daysAgo sampleNow (dateOf E2).
Proof.
  split; [vm_compute; reflexivity|].
  apply (X15_daysAgo_antisymmetric sampleNow (dateOf E2)).
  vm_compute. split; discriminate.
Defined.

(** ** Events the aggregation can read *)

Section Readable.

Variable ParseFloat : string -> float64 * option error.

Lemma read_AvgWkg_text (e : Event) (a : float64) :
  read_AvgWkg ParseFloat e = Returns a ->
  text_ratio ParseFloat (AvgWkg e) = true.
Proof.
  unfold read_AvgWkg, text_ratio.
  destruct (AvgWkg e) as [| | | |l|]; simpl; try discriminate.
  destruct l as [|x l]; simpl; try discriminate.
  destruct x; simpl; try discriminate.
  destruct (ParseFloat s) as [f [err|]]; simpl; try discriminate.
  reflexivity.
Qed.

Lemma convert_all_readable (clock : Clock) (data : list Event) :
  forall (i : nat) (its : list item),
    convert_all ParseFloat clock i data = Returns its ->
    forall e, In e data ->
      malformed_ratio ParseFloat (WkgFtp e) = false /\
      text_ratio ParseFloat (AvgWkg e) = true.
Proof.
  induction data as [|e0 data IH]; intros i its H e Hin; [destruct Hin|].
  simpl in H.
  destruct (convert ParseFloat (clock i) e0) as [it| |] eqn:C; simpl in H;
    try discriminate.
  destruct (convert_all ParseFloat clock (S i) data) as [its'| |] eqn:A;
    simpl in H; try discriminate.
  destruct Hin as [<- | Hin]; [|exact (IH (S i) its' A e Hin)].
  pose proof (convert_cases ParseFloat (clock i) e0) as Hc. rewrite C in Hc.
  apply convert_inv in C. destruct C as (_ & Ha & _).
  split; [apply Hc | exact (read_AvgWkg_text e0 _ Ha)].
Qed.

End Readable.

(** X16. [ImportRider] returns exactly when it can read both ratios of
    every event: the ratio to threshold starts with a number or with a
    text that [ParseFloat] accepts, and the average ratio starts with such
    a text.  The error it returns is then nil; in every other case it
    does not return. *)
Theorem X16_returns_iff_readable :
  forall (ParseFloat : string -> float64 * option error) (clock : Clock)
         (riderID : Z) (data : list Event),
    (exists r, ImportRider ParseFloat clock riderID data = Returns (r, None))
    <->
    (forall e, In e data ->
               malformed_ratio ParseFloat (WkgFtp e) = false /\
               text_ratio ParseFloat (AvgWkg e) = true).
Proof.
  intros ParseFloat clock riderID data. split.
  - intros (r & H). apply ImportRider_returns in H.
    destruct H as (its & Hc & _).
    exact (convert_all_readable ParseFloat clock data 0 its Hc).
  - apply ImportRider_total.
Qed.

(** ** Races *)

Lemma prefix_split (p s : string) :
  String.prefix p s = true <-> exists b, s = (p ++ b)%string.
Proof.
  revert s. induction p as [|c p IH]; intros s.
  - split; [intros _; exists s; reflexivity|].
    intros _. destruct s; reflexivity.
  - destruct s as [|c' s]; simpl.
    + split; [discriminate | intros (b & Hb); discriminate].
    + destruct (ascii_dec c c') as [<-|N].
      * rewrite IH. split; intros (b & Hb); exists b.
        -- rewrite Hb. reflexivity.
        -- inversion Hb. reflexivity.
      * split; [discriminate|]. intros (b & Hb). inversion Hb. congruence.
Qed.

Lemma Contains_split (s sub : string) :
  Contains s sub = true <-> exists a b, s = (a ++ sub ++ b)%string.
Proof.
  induction s as [|c s IH].
  - cbn [Contains]. destruct (String.prefix sub "") eqn:P.
    + split; [|reflexivity]. intros _. apply prefix_split in P.
      destruct P as (b & Hb). exists "", b. exact Hb.
    + split; [discriminate|]. intros (a & b & H).
      destruct a; simpl in H.
      * assert (String.prefix sub "" = true)
          by (apply prefix_split; exists b; exact H).
        congruence.
      * discriminate.
  - cbn [Contains].
    destruct (String.prefix sub (String c s)) eqn:P.
    + split; [|reflexivity]. intros _. apply prefix_split in P.
      destruct P as (b & Hb). exists "", b. exact Hb.
    + rewrite IH. split.
      * intros (a & b & H). exists (String c a), b. rewrite H. reflexivity.
      * intros (a & b & H). destruct a as [|c' a]; simpl in H.
        -- assert (String.prefix sub (String c s) = true)
             by (apply prefix_split; exists b; exact H).
           congruence.
        -- inversion H. exists a, b. reflexivity.
Qed.

(** X17. An event is a race exactly when the four letters RACE, in
    capitals, stand somewhere in its type: "TYPE_RACE" is one, "race" and
    "TYPE_RIDE" are not. *)
Theorem X17_race_types :
  (forall e : Event,
      isRaceOf e = true <->
      exists a b, EventType e = (a ++ "RACE" ++ b)%string) /\
  Contains "TYPE_RACE" "RACE" = true /\
  Contains "race" "RACE" = false /\
  Contains "TYPE_RIDE" "RACE" = false.
Proof.
  split; [|repeat split; reflexivity].
  intros e. unfold isRaceOf. apply Contains_split.
Qed.

(** ** Decimal texts *)

Lemma parse_digits_acc (d : Decimal.uint) :
  forall acc : positive,
    parse_digits (Zpos acc) (NilEmpty.string_of_uint d) =
    Some (Zpos (Pos.of_uint_acc d acc)).
Proof.
  induction d; intros acc;
    cbn [NilEmpty.string_of_uint Pos.of_uint_acc parse_digits];
    try reflexivity;
    match goal with
    | |- context [digit_of ?c] =>
        let v := eval vm_compute in (digit_of c) in
        change (digit_of c) with v
    end;
    cbv beta iota;
    (etransitivity; [|apply IHd]); f_equal; lia.
Qed.

Lemma parse_digits_uint (d : Decimal.uint) :
  parse_digits 0 (NilEmpty.string_of_uint d) = Some (Z.of_N (Pos.of_uint d)).
Proof.
  induction d;
    cbn [NilEmpty.string_of_uint Pos.of_uint parse_digits];
    try reflexivity;
    match goal with
    | |- context [digit_of ?c] =>
        let v := eval vm_compute in (digit_of c) in
        change (digit_of c) with v
    end;
    cbv beta iota;
    [exact IHd | apply parse_digits_acc ..].
Qed.

Lemma string_of_uint_nonnil (d : Decimal.uint) :
  d <> Decimal.Nil ->
  NilZero.string_of_uint d = NilEmpty.string_of_uint d /\
  exists c s, NilEmpty.string_of_uint d = String c s /\
              Ascii.eqb c "+" = false /\ Ascii.eqb c "-" = false.
Proof.
  destruct d; intros H; try congruence; simpl;
    (split; [reflexivity | eexists; eexists; repeat split; reflexivity]).
Qed.

Lemma parse_magnitude_to_uint (p : positive) :
  parse_magnitude (NilEmpty.string_of_uint (Pos.to_uint p)) = Some (Zpos p).
Proof.
  destruct (string_of_uint_nonnil _ (DecimalPos.Unsigned.to_uint_nonnil p))
    as (_ & c & s & E & _).
  unfold parse_magnitude. rewrite E, <- E.
  rewrite parse_digits_uint, DecimalPos.Unsigned.of_to. reflexivity.
Qed.

(** [ParseInt] reads back what [Itoa] writes. *)
Lemma ParseInt_Itoa (n : Z) :
  Int64.min <= n <= Int64.max -> ParseInt (Itoa n) = (n, None).
Proof.
  intros Hn. destruct Int64_bounds as [Emin Emax]. rewrite Emin, Emax in Hn.
  unfold Itoa. destruct n as [|p|p]; [reflexivity| |].
  - simpl Z.to_int. unfold NilZero.string_of_int.
    destruct (string_of_uint_nonnil _ (DecimalPos.Unsigned.to_uint_nonnil p))
      as (E0 & c & s & E & Hplus & Hminus).
    rewrite E0. pose proof (parse_magnitude_to_uint p) as M.
    rewrite E in *. unfold ParseInt. rewrite Hplus, Hminus, M.
    replace (2 ^ 63 <=? Z.pos p) with false
      by (symmetry; apply Z.leb_gt; change (2 ^ 63) with 9223372036854775808; lia).
    reflexivity.
  - simpl Z.to_int. unfold NilZero.string_of_int.
    destruct (string_of_uint_nonnil _ (DecimalPos.Unsigned.to_uint_nonnil p))
      as (E0 & _).
    rewrite E0. unfold ParseInt.
    change (Ascii.eqb "-" "+") with false. change (Ascii.eqb "-" "-") with true.
    cbv iota. rewrite parse_magnitude_to_uint.
    replace (2 ^ 63 <? Z.pos p) with false
      by (symmetry; apply Z.ltb_ge; change (2 ^ 63) with 9223372036854775808; lia).
    reflexivity.
Qed.






(** X10. The timestamp decoder reads back the decimal text of every
    64-bit integer: decoding the number literal that [strconv.Itoa]
    writes for [n] stores [n], and never reports an error. *)
Theorem X10_timestamp_round_trip :
  forall n : Z,
    Int64.min <= n <= Int64.max ->
    UnmarshalJSON (JNumber (Itoa n)) = (n, None) /\
    decode_event_date (Some (JNumber (Itoa n))) = (n, None).
Proof.
  intros n Hn.
  assert (E : UnmarshalJSON (JNumber (Itoa n)) = (n, None)).
  { unfold UnmarshalJSON, json_Unmarshal_int64.
    rewrite (ParseInt_Itoa n Hn). reflexivity. }
  split; [exact E | exact E].
Qed.

Lemma X10_timestamp_round_trip_witness :
  Itoa (-1793000000) = "-1793000000" /\
  UnmarshalJSON (JNumber (Itoa (-1793000000))) = (-1793000000, None).
Proof.
  split; [reflexivity|].
  apply (X10_timestamp_round_trip (-1793000000)).
  split; vm_compute; discriminate.
Defined.

(** ** Fetching *)

Lemma requests_app (t u : list action) :
  requests (t ++ u) = requests t ++ requests u.
Proof. unfold requests. apply flat_map_app. Qed.

Lemma prefix_app (s u : string) : String.prefix s (s ++ u) = true.
Proof.
  induction s as [|c s IH]; simpl; [destruct u; reflexivity|].
  destruct (ascii_dec c c) as [_|N]; [exact IH | congruence].
Qed.

(** What [getJSON] returns and leaves behind, case by case. *)
Lemma getJSON_cases (net : Network) (url : string) (t : list action) :
  (exists e,
      net (requests t) url = inr e /\
      Http.getJSON net url t = (([], Some e), t ++ [Requested url])) \/
  (exists resp,
      net (requests t) url = inl resp /\ StatusCode resp <> 200 /\
      Http.getJSON net url t =
      (([], Some ("unexpected status " ++ Itoa (StatusCode resp)
                  ++ " for " ++ url)%string),
       t ++ [Requested url; Closed url])) \/
  (exists resp,
      net (requests t) url = inl resp /\ StatusCode resp = 200 /\
      Http.getJSON net url t = (Body resp, t ++ [Requested url; Closed url])).
Proof.
  unfold Http.getJSON, Http.client_Get.
  destruct (net (requests t) url) as [resp|e] eqn:N.
  - right. rewrite <- app_assoc. simpl.
    destruct (Z.eqb_spec (StatusCode resp) 200) as [E|E]; simpl.
    + right. exists resp. auto.
    + left. exists resp. auto.
  - left. exists e. auto.
Qed.

(** X11. [ImportZP] makes one request, for the riders of the club, and
    closes the response if there is one.  It returns riders only with a
    nil error, and then they are what the decoder found in the body of a
    response of status 200 that was read to its end; on any failure the
    list of riders is empty and the message of the error starts with
    "getting club data: " or "unmarshalling club data: ". *)
Theorem X11_ImportZP_contract :
  forall (net : Network)
         (Unmarshal_club : list Byte.byte -> list Rider * option error)
         (clubID : Z) (t t' : list action) (riders : list Rider)
         (err : option error),
    Http.ImportZP net Unmarshal_club clubID t = ((riders, err), t') ->
    requests t' = requests t ++ [teamURL clubID] /\
    (t' = t ++ [Requested (teamURL clubID); Closed (teamURL clubID)] \/
     (t' = t ++ [Requested (teamURL clubID)] /\
      exists e, net (requests t) (teamURL clubID) = inr e)) /\
    (err = None <->
     exists resp body,
       net (requests t) (teamURL clubID) = inl resp /\
       StatusCode resp = 200 /\ Body resp = (body, None) /\
       Unmarshal_club body = (riders, None)) /\
    (forall msg,
        err = Some msg ->
        riders = [] /\
        (String.prefix "getting club data: " msg = true \/
         String.prefix "unmarshalling club data: " msg = true)).
Proof.
  intros net U clubID t t' riders err H.
  unfold Http.ImportZP in H.
  set (url := teamURL clubID) in *.
  destruct (getJSON_cases net url t)
    as [(e & N & G) | [(resp & N & S & G) | (resp & N & S & G)]];
    rewrite G in H; clear G.
  - (* no response *)
    inversion H; subst; clear H.
    split; [rewrite requests_app; reflexivity|].
    split; [right; split; [reflexivity | exists e; exact N]|].
    split.
    + split; [discriminate|]. intros (resp & body & N' & _). congruence.
    + intros msg Hm. injection Hm as <-.
      split; [reflexivity | left; exact (prefix_app "getting club data: " _)].
  - (* a status other than 200 *)
    inversion H; subst; clear H.
    split; [rewrite requests_app; reflexivity|].
    split; [left; reflexivity|].
    split.
    + split; [discriminate|]. intros (resp' & body & N' & S' & _). congruence.
    + intros msg Hm. injection Hm as <-.
      split; [reflexivity | left; exact (prefix_app "getting club data: " _)].
  - (* status 200 *)
    destruct (Body resp) as [body rerr] eqn:B.
    destruct rerr as [re|].
    { inversion H; subst; clear H.
      split; [rewrite requests_app; reflexivity|].
      split; [left; reflexivity|].
      split.
      + split; [discriminate|]. intros (resp' & body' & N' & _ & B' & _).
        congruence.
      + intros msg Hm. injection Hm as <-.
        split; [reflexivity
               | left; exact (prefix_app "getting club data: " _)]. }
    destruct (U body) as [c_Data uerr] eqn:D.
    destruct uerr as [ue|]; inversion H; subst; clear H;
      (split; [rewrite requests_app; reflexivity|]);
      (split; [left; reflexivity|]); split.
    + split; [discriminate|]. intros (resp' & body' & N' & _ & B' & D').
      assert (resp' = resp) by congruence. subst resp'.
      assert (body' = body) by congruence. subst body'. congruence.
    + intros msg Hm. injection Hm as <-.
      split; [reflexivity
             | right; exact (prefix_app "unmarshalling club data: " _)].
    + split; [|reflexivity]. intros _. exists resp, body. auto.
    + intros msg Hm. discriminate.
Qed.

Lemma X11_ImportZP_contract_witness :
  Http.ImportZP sampleNet sampleClub 3 [] =
  (([], Some "getting club data: unexpected status 404 for https://www.zwiftpower.com/cache3/teams/3_riders.json"),
   [Requested (teamURL 3); Closed (teamURL 3)]) /\
  requests [Requested (teamURL 3); Closed (teamURL 3)] = [teamURL 3].
Proof.
  assert (H : Http.ImportZP sampleNet sampleClub 3 [] =
              (([], Some "getting club data: unexpected status 404 for https://www.zwiftpower.com/cache3/teams/3_riders.json"),
               [Requested (teamURL 3); Closed (teamURL 3)]))
    by (vm_compute; reflexivity).
  split; [exact H|].
  destruct (X11_ImportZP_contract sampleNet sampleClub 3 [] _ _ _ H)
    as (R & _).
  exact R.
Defined.

(** X12. The whole of [ImportRider], when it returns.  An error comes
    with the zero value of [Rider], whose [Zwid] is 0 and not the
    identifier asked for, and it is the error of [getJSON] or else that
    of the decoder, as it is.  A nil error comes with the aggregation of
    the events the decoder found in the body of a response of status 200
    to the second request, and the snapshot then carries the
    identifier. *)
Theorem X12_ImportRider_errors :
  forall (net : Network)
         (Unmarshal_riderData : list Byte.byte -> list Event * option error)
         (ParseFloat : string -> float64 * option error) (clock : Clock)
         (riderID : Z) (t t' : list action) (r : Rider) (err : option error),
    Http.ImportRider net Unmarshal_riderData ParseFloat clock riderID t =
    (Returns (r, err), t') ->
    let fetched :=
      fst (Http.getJSON net (cacheURL riderID)
             (t ++ [Requested (profileURL riderID)])) in
    (forall e, err = Some e ->
               r = zeroRider /\ Zwid r = 0 /\
               (snd fetched = Some e \/
                (snd fetched = None /\
                 snd (Unmarshal_riderData (fst fetched)) = Some e))) /\
    (err = None ->
     Zwid r = riderID /\ Name r = "" /\
     exists resp body data,
       net (requests t ++ [profileURL riderID]) (cacheURL riderID) = inl resp /\
       StatusCode resp = 200 /\ Body resp = (body, None) /\
       Unmarshal_riderData body = (data, None) /\
       ImportRider ParseFloat clock riderID data = Returns (r, None)).
Proof.
  intros net U ParseFloat clock riderID t t' r err H fetched.
  unfold Http.ImportRider, Http.client_Get in H.
  set (t1 := t ++ [Requested (profileURL riderID)]) in *.
  assert (R1 : requests t1 = requests t ++ [profileURL riderID])
    by (unfold t1; rewrite requests_app; reflexivity).
  destruct (Http.getJSON net (cacheURL riderID) t1) as [[data gerr] t2] eqn:G.
  unfold fetched. simpl.
  destruct gerr as [ge|].
  - inversion H; subst; clear H.
    split; [|discriminate].
    intros e He. injection He as <-. auto.
  - destruct (U data) as [r_Data uerr] eqn:D.
    destruct uerr as [ue|].
    + inversion H; subst; clear H.
      split; [|discriminate].
      intros e He. injection He as <-. auto.
    + injection H as H _.
      destruct (ImportRider_identity _ _ _ _ _ _ H) as (HZ & HN & ->).
      split; [discriminate|]. intros _.
      split; [exact HZ|]. split; [exact HN|].
      destruct (getJSON_cases net (cacheURL riderID) t1)
        as [(e & N & G') | [(resp & N & S & G') | (resp & N & S & G')]];
        rewrite G in G'; try discriminate.
      exists resp, data, r_Data. rewrite <- R1.
      repeat split; trivial. congruence.
Qed.

Lemma X12_ImportRider_errors_witness :
  exists (r : Rider) (t' : list action),
    Http.ImportRider sampleNet sampleRiderData decimalParseFloat
                     (frozen sampleNow) 7 [] = (Returns (r, None), t') /\
    Zwid r = 7 /\ Name r = "".
Proof.
  assert (H : exists r t',
             Http.ImportRider sampleNet sampleRiderData decimalParseFloat
                              (frozen sampleNow) 7 [] = (Returns (r, None), t'))
    by (eexists; eexists; vm_compute; reflexivity).
  destruct H as (r & t' & H). exists r, t'. split; [exact H|].
  destruct (X12_ImportRider_errors sampleNet sampleRiderData decimalParseFloat
              (frozen sampleNow) 7 [] t' r None H) as (_ & S).
  destruct (S eq_refl) as (HZ & HN & _). split; assumption.
Defined.

(** X13. Whatever the answers and whatever becomes of the aggregation,
    [ImportRider] makes two requests and no more: for the profile page of
    the rider, then for the cached document.  It closes the response to
    the second request if there is one, and never the response to the
    first. *)
Theorem X13_ImportRider_requests :
  forall (net : Network)
         (Unmarshal_riderData : list Byte.byte -> list Event * option error)
         (ParseFloat : string -> float64 * option error) (clock : Clock)
         (riderID : Z) (t : list action),
    let t' := snd (Http.ImportRider net Unmarshal_riderData ParseFloat clock
                     riderID t) in
    requests t' = requests t ++ [profileURL riderID; cacheURL riderID] /\
    (exists done,
        t' = t ++ done /\
        ~ In (Closed (profileURL riderID)) done /\
        (In (Closed (cacheURL riderID)) done <->
         exists resp,
           net (requests t ++ [profileURL riderID]) (cacheURL riderID) =
           inl resp)).
Proof.
  intros net U ParseFloat clock riderID t t'.
  set (t1 := t ++ [Requested (profileURL riderID)]).
  assert (R1 : requests t1 = requests t ++ [profileURL riderID])
    by (unfold t1; rewrite requests_app; reflexivity).
  assert (E : t' = snd (Http.getJSON net (cacheURL riderID) t1)).
  { unfold t', Http.ImportRider, Http.client_Get. fold t1.
    destruct (Http.getJSON net (cacheURL riderID) t1) as [[data gerr] t2].
    destruct gerr; [reflexivity|].
    destruct (U data) as [r_Data uerr]. destruct uerr; reflexivity. }
  rewrite E. clear E t'. rewrite <- R1.
  destruct (getJSON_cases net (cacheURL riderID) t1)
    as [(e & N & G) | [(resp & N & S & G) | (resp & N & S & G)]];
    rewrite G; simpl; unfold t1; rewrite <- !app_assoc; simpl;
    (split; [rewrite !requests_app; reflexivity|]).
  - exists [Requested (profileURL riderID); Requested (cacheURL riderID)].
    split; [reflexivity|]. split.
    + simpl. intros [A | [A | []]]; discriminate.
    + split.
      * simpl. intros [A | [A | []]]; discriminate.
      * intros (resp & Hr). fold t1 in Hr. congruence.
  - exists [Requested (profileURL riderID); Requested (cacheURL riderID);
            Closed (cacheURL riderID)].
    split; [reflexivity|]. split.
    + simpl. intros [A | [A | [A | []]]]; discriminate.
    + split; [intros _; exists resp; exact N | intros _; simpl; auto].
  - exists [Requested (profileURL riderID); Requested (cacheURL riderID);
            Closed (cacheURL riderID)].
    split; [reflexivity|]. split.
    + simpl. intros [A | [A | [A | []]]]; discriminate.
    + split; [intros _; exists resp; exact N | intros _; simpl; auto].
Qed.

(** ** The row of a rider *)

Lemma Strings_row (Month : Time -> Z) (Format : Time -> string)
  (FormatFloat : float64 -> string) (clock : Clock) (r : Rider) :
  Strings Month Format FormatFloat clock r =
  Returns [Name r; Itoa (Zwid r); Format (LatestEventDate r);
           MonthsAgo Month clock r; LatestEvent r; Itoa (Rides r);
           profileURL (Zwid r); FormatFloat (Ftp30 r); FormatFloat (Ftp90 r);
           Itoa (Races30 r); Itoa (Races90 r); Itoa (Races r);
           LatestRace r; Format (LatestRaceDate r)].
Proof.
  cbv [Strings store bind repeat List.length Nat.ltb Nat.leb firstn skipn app].
  reflexivity.
Qed.

(** X14. [Strings] never indexes outside its slice: for every rider it
    returns a row of fourteen columns.  Column 3 is the text of
    [MonthsAgo] and column 6 the address of the profile page, the one
    [ImportRider] asks for first.  When the integers of the rider are
    machine integers, [strconv.ParseInt] reads columns 1, 5, 9, 10 and
    11 back as [Zwid], [Rides], [Races30], [Races90] and [Races]. *)
Theorem X14_Strings_row :
  forall (Month : Time -> Z) (Format : Time -> string)
         (FormatFloat : float64 -> string) (clock : Clock) (r : Rider),
    Int64.in_range (Zwid r) = true -> Int64.in_range (Rides r) = true ->
    Int64.in_range (Races30 r) = true -> Int64.in_range (Races90 r) = true ->
    Int64.in_range (Races r) = true ->
    exists row : list string,
      Strings Month Format FormatFloat clock r = Returns row /\
      List.length row = 14%nat /\
      nth_error row 3 = Some (MonthsAgo Month clock r) /\
      nth_error row 6 = Some (profileURL (Zwid r)) /\
      ParseInt (nth 1 row "") = (Zwid r, None) /\
      ParseInt (nth 5 row "") = (Rides r, None) /\
      ParseInt (nth 9 row "") = (Races30 r, None) /\
      ParseInt (nth 10 row "") = (Races90 r, None) /\
      ParseInt (nth 11 row "") = (Races r, None).
Proof.
  intros Month Format FormatFloat clock r H1 H2 H3 H4 H5.
  assert (R : forall z, Int64.in_range z = true -> Int64.min <= z <= Int64.max).
  { intros z Hz. unfold Int64.in_range in Hz.
    apply andb_true_iff in Hz. rewrite !Z.leb_le in Hz. exact Hz. }
  eexists. split; [apply Strings_row|].
  cbn [List.length nth_error nth].
  repeat split; try reflexivity; apply ParseInt_Itoa; auto.
Qed.

Lemma X14_Strings_row_witness :
  exists row : list string,
    Strings alwaysMarch noFormat noFormat (frozen sampleNow)
            (set_Zwid zeroRider 7) = Returns row /\
    row = [""; "7"; ""; "No latest event"; ""; "0";
           "https://www.zwiftpower.com/profile.php?z=7"; ""; ""; "0"; "0";
           "0"; ""; ""] /\
    ParseInt (nth 1 row "") = (7, None).
Proof.
  destruct (X14_Strings_row alwaysMarch noFormat noFormat (frozen sampleNow)
              (set_Zwid zeroRider 7) eq_refl eq_refl eq_refl eq_refl eq_refl)
    as (row & H & _ & _ & _ & P & _).
  exists row. split; [exact H|]. split; [|exact P].
  rewrite Strings_row in H. injection H as <-. reflexivity.
Defined.
